(** * Job lifecycle of the Content X AI Studio backends

    A shallow embedding of the three job-tracking backends
    ([voice_backend.py], [real_content_backend.py], [publishing_backend.py])
    and of the way their coroutines interleave on one event loop.

    Modelling conventions.
    - A Python [dict] with string keys is a [gmap string pyval]; a dict
      display [{k1: v1, k2: v2, ...}] is [dict_of], which evaluates the items
      left to right, so that a repeated key keeps its last value.
    - The job stores ([voice_jobs], [generation_jobs], [publishing_jobs],
      [scheduled_posts]) are maps from the job id to the job dict.  A local
      variable that holds a stored job ([job = self.generation_jobs[job_id]])
      is a reference: it is modelled by the job id, and every write through
      it is a write into the store.  Entries are never deleted, and ids come
      from [uuid.uuid4()], modelled as an input that is fresh for the store.
    - A coroutine is cut at its [await asyncio.sleep(..)] points into
      segments that run without interruption; the event loop runs one
      segment after another, in any order.
    - Clock readings, random draws and the outcome of file or network work
      are inputs of the segment that performs them.
    - Floating point products are kept symbolic ([PMul]).
    - A [str] is held as the bytes of its UTF-8 encoding; its length and
      its slices count characters, as Python does, not bytes ([str_len],
      [str_take]). *)

From stdpp Require Import gmap strings list fin_maps pretty.

Set Warnings "-register-all".
Open Scope string_scope.

(** ** Python values *)

Inductive pyval :=
| PNone
| PBool (b : bool)
| PInt (z : Z)
| PMul (n : Z) (lit : string)        (* the float [n * lit], lit a float literal *)
| PStr (s : string)
| PIso (aware : bool) (t : nat)      (* the str [d.isoformat()] of an instant *)
| PTime (aware : bool) (t : nat)     (* a [datetime] object *)
| PList (l : list pyval)
| PDict (d : gmap string pyval).

Abbreviation dict := (gmap string pyval).

Inductive exn :=
| KeyError (k : string)
| TypeError (msg : string)
| ValueError (msg : string)
| Exception (msg : string).

(** *** Characters of a str

    A byte of the form [10xxxxxx] continues the character the bytes before
    it began; every other byte begins a character. *)
Definition continuation (c : Ascii.ascii) : bool :=
  bool_decide (128 ≤ Ascii.nat_of_ascii c < 192)%nat.

(** [len(s)] *)
Fixpoint str_len (s : string) : nat :=
  match s with
  | EmptyString => 0
  | String c s' => if continuation c then str_len s' else S (str_len s')
  end.

(** [s[:n]] *)
Fixpoint str_take (n : nat) (s : string) : string :=
  match s with
  | EmptyString => EmptyString
  | String c s' =>
      if continuation c then String c (str_take n s')
      else match n with
           | 0 => EmptyString
           | S n' => String c (str_take n' s')
           end
  end.

(** *** [repr] of a str

    Python quotes with ['], or with the double quote when the str holds a
    ['] and no double quote; it escapes the backslash, the quote it uses
    and the control characters.  Characters outside ASCII are kept as they
    are, which is what Python does with the printable ones. *)
Definition single_quote : Ascii.ascii := Ascii.ascii_of_nat 39.
Definition double_quote : Ascii.ascii := Ascii.ascii_of_nat 34.
Definition backslash : Ascii.ascii := Ascii.ascii_of_nat 92.

Fixpoint has_char (c : Ascii.ascii) (s : string) : bool :=
  match s with
  | EmptyString => false
  | String c' s' => bool_decide (c' = c) || has_char c s'
  end.

Definition hex_digit (n : nat) : Ascii.ascii :=
  default (Ascii.ascii_of_nat 48) (String.get n "0123456789abcdef").

Definition escaped (quote c : Ascii.ascii) : string :=
  let n := Ascii.nat_of_ascii c in
  if bool_decide (c = backslash) then String backslash (String backslash "")
  else if bool_decide (c = quote) then String backslash (String quote "")
  else if bool_decide (n = 9)%nat then String backslash "t"
  else if bool_decide (n = 10)%nat then String backslash "n"
  else if bool_decide (n = 13)%nat then String backslash "r"
  else if bool_decide (n < 32 ∨ n = 127)%nat then
    String backslash
      ("x" +:+ String (hex_digit (n / 16)) (String (hex_digit (n mod 16)) ""))
  else String c "".

Fixpoint escape (quote : Ascii.ascii) (s : string) : string :=
  match s with
  | EmptyString => EmptyString
  | String c s' => escaped quote c +:+ escape quote s'
  end.

Definition py_repr (s : string) : string :=
  let quote := if has_char single_quote s && negb (has_char double_quote s)
               then double_quote else single_quote in
  String quote (escape quote s +:+ String quote "").

(** [str(e)]; the str of a [KeyError] is the [repr] of its key. *)
Definition str_exn (e : exn) : string :=
  match e with
  | KeyError k => py_repr k
  | TypeError m | ValueError m | Exception m => m
  end.

Inductive res (A : Type) :=
| Ok (a : A)
| Raise (e : exn).
Arguments Ok {A} a.
Arguments Raise {A} e.

#[global] Instance res_ret : MRet res := λ A a, Ok a.
#[global] Instance res_bind : MBind res := λ A B f m,
  match m with Ok a => f a | Raise e => Raise e end.

(** What a call hands back to its caller; [Suspended] is a coroutine that
    has reached an [await] and has not returned yet. *)
Inductive output :=
| Returned (v : pyval)
| Raised (e : exn)
| Suspended.

(** The outcome of awaited outside work (a file write, an API call). *)
Inductive io (A : Type) :=
| Done (a : A)
| Failed (msg : string).
Arguments Done {A} a.
Arguments Failed {A} msg.

(** [d[k1] = v1; d[k2] = v2; ...], in this order *)
Definition assign (items : list (string * pyval)) (d : dict) : dict :=
  foldl (λ d kv, <[kv.1 := kv.2]> d) d items.

(** A dict display: later items overwrite earlier ones with the same key. *)
Definition dict_of (items : list (string * pyval)) : dict := assign items ∅.

(** [d[k]] *)
Definition getitem (d : dict) (k : string) : res pyval :=
  match d !! k with Some v => Ok v | None => Raise (KeyError k) end.

(** [d.get(k)] and [d.get(k, dflt)] *)
Definition get (d : dict) (k : string) : pyval := default PNone (d !! k).
Definition get_or (d : dict) (k : string) (dflt : pyval) : pyval := default dflt (d !! k).

(** [k in d] *)
Definition contains (d : dict) (k : string) : bool := bool_decide (is_Some (d !! k)).

(** [job[k] = v] for the job stored under [id], and a run of such
    assignments in the order they are written *)
Definition setitem (id k : string) (v : pyval) (jobs : gmap string dict) : gmap string dict :=
  alter (<[k := v]>) id jobs.

Definition setitems (id : string) (items : list (string * pyval)) (jobs : gmap string dict)
    : gmap string dict :=
  foldl (λ m kv, setitem id kv.1 kv.2 m) jobs items.

(** [v == s] for a str literal [s] *)
Definition is_str (v : pyval) (s : string) : bool :=
  match v with PStr s' => bool_decide (s' = s) | _ => false end.

(** Truth value of an [Optional[str]] argument *)
Definition opt_truthy (o : option string) : bool :=
  match o with Some s => negb (bool_decide (s = "")) | None => false end.

Definition opt_str (o : option string) : pyval :=
  match o with Some s => PStr s | None => PNone end.

(** [hasattr(v, 'isoformat')]: only datetime objects have it *)
Definition isoformat_if_datetime (k : string) (d : dict) : dict :=
  match d !! k with
  | Some (PTime aware t) => <[k := PIso aware t]> d
  | _ => d
  end.

(** The [status] and [progress] a dict shows. *)
Definition status_of (d : dict) : option string :=
  match d !! "status" with Some (PStr s) => Some s | _ => None end.

Definition progress_of (d : dict) : option Z :=
  match d !! "progress" with Some (PInt p) => Some p | _ => None end.

(** ** voice_backend.py *)

Module Voice.

Record provider := {
  api_key : string;
  base_url : option string;
  region : option string;
  enabled : bool
}.

Record backend := {
  providers : gmap string provider;
  voice_jobs : gmap string dict;
  user_voices : gmap string (list dict)
}.

Definition with_jobs (f : gmap string dict → gmap string dict) (s : backend) : backend :=
  {| providers := providers s; voice_jobs := f (voice_jobs s); user_voices := user_voices s |}.

Definition with_user_voices (f : gmap string (list dict) → gmap string (list dict))
    (s : backend) : backend :=
  {| providers := providers s; voice_jobs := voice_jobs s; user_voices := f (user_voices s) |}.

(** [VoiceBackend.__init__] *)
Definition init : backend := {|
  providers := list_to_map [
    ("elevenlabs", {| api_key := "demo_key"; base_url := Some "https://api.elevenlabs.io/v1";
                      region := None; enabled := true |});
    ("azure", {| api_key := "demo_key"; base_url := None; region := Some "eastus";
                 enabled := true |});
    ("google", {| api_key := "demo_key"; base_url := None; region := None; enabled := true |});
    ("speechelo", {| api_key := "demo_key"; base_url := Some "https://api.speechelo.io/v1";
                     region := None; enabled := true |}) ];
  voice_jobs := ∅;
  user_voices := ∅
|}.

Record voice_args := {
  text : string;
  voice_id : string;
  provider_name : string;
  user_id : option string;
  quality : string
}.

Definition audio_url (prov vid : string) (ts : nat) (ext : string) : string :=
  "https://contentx-studio.s3.amazonaws.com/voices/" +:+ prov +:+ "_" +:+ vid +:+ "_"
    +:+ pretty ts +:+ ext.

(** The four provider coroutines.  [o] is the outcome of the simulated API
    call; on success it carries [int(time.time())]. *)
Definition simulated_voice (prov label ext rate : string) (per_char : Z)
    (txt vid : string) (o : io nat) : dict :=
  match o with
  | Done ts =>
      dict_of [("status", PStr "success");
               ("audio_url", PStr (audio_url prov vid ts ext));
               ("duration", PMul (Z.of_nat (str_len txt)) rate);
               ("file_size", PInt (Z.of_nat (str_len txt) * per_char));
               ("provider", PStr prov)]
  | Failed e =>
      dict_of [("status", PStr "error");
               ("error", PStr (label +:+ " generation failed: " +:+ e))]
  end.

Definition _generate_elevenlabs_voice := simulated_voice "elevenlabs" "ElevenLabs" ".mp3" "0.1" 1000.
Definition _generate_azure_voice := simulated_voice "azure" "Azure" ".wav" "0.12" 1200.
Definition _generate_google_voice := simulated_voice "google" "Google" ".mp3" "0.11" 1100.
Definition _generate_speechelo_voice := simulated_voice "speechelo" "Speechelo" ".mp3" "0.13" 1300.

(** A [generate_voice] call waiting for its provider. *)
Record call := {
  c_args : voice_args;
  c_job_id : string
}.

(** [generate_voice] up to the provider call: validation and job creation. *)
Definition generate_voice_submit (a : voice_args) (uuid : string) (now : nat) (s : backend)
    : backend * (dict + call) :=
  let job_id := uuid in
  match providers s !! provider_name a with
  | None =>
      (s, inl (dict_of [("status", PStr "error");
                        ("error", PStr ("Unsupported provider: " +:+ provider_name a))]))
  | Some p =>
      if negb (enabled p) then
        (s, inl (dict_of [("status", PStr "error");
                          ("error", PStr ("Provider " +:+ provider_name a +:+ " is not enabled"))]))
      else
        let job := dict_of [("job_id", PStr job_id);
                            ("text", PStr (text a));
                            ("voice_id", PStr (voice_id a));
                            ("provider", PStr (provider_name a));
                            ("user_id", opt_str (user_id a));
                            ("quality", PStr (quality a));
                            ("status", PStr "processing");
                            ("created_at", PIso true now);
                            ("progress", PInt 0)] in
        (with_jobs (<[job_id := job]>) s, inr {| c_args := a; c_job_id := job_id |})
  end.

(** The provider dispatch of [generate_voice]. *)
Definition provider_result (a : voice_args) (o : io nat) : dict :=
  if bool_decide (provider_name a = "elevenlabs") then
    _generate_elevenlabs_voice (text a) (voice_id a) o
  else if bool_decide (provider_name a = "azure") then
    _generate_azure_voice (text a) (voice_id a) o
  else if bool_decide (provider_name a = "google") then
    _generate_google_voice (text a) (voice_id a) o
  else if bool_decide (provider_name a = "speechelo") then
    _generate_speechelo_voice (text a) (voice_id a) o
  else dict_of [("status", PStr "error"); ("error", PStr "Unknown provider")].

(** Reading a field of the job the call created. *)
Definition job_item (s : backend) (job_id k : string) : res pyval :=
  match voice_jobs s !! job_id with
  | Some job => getitem job k
  | None => Raise (KeyError k)
  end.

Definition job_dict (s : backend) (job_id : string) : dict :=
  default ∅ (voice_jobs s !! job_id).

(** [self.user_voices[user_id].append(v)], creating the list when absent *)
Definition append_user_voice (uid : string) (v : dict) (s : backend) : backend :=
  with_user_voices (λ m, <[uid := (default [] (m !! uid) ++ [v])%list]> m) s.

(** The [if result["status"] == "success"] branch, up to [completed_at]. *)
Definition mark_completed (job_id : string) (result : dict) (now : nat) (s : backend)
    : backend :=
  with_jobs (setitems job_id
    [("status", PStr "completed");
     ("progress", PInt 100);
     ("audio_url", get result "audio_url");
     ("duration", get_or result "duration" (PInt 0));
     ("file_size", get_or result "file_size" (PInt 0));
     ("completed_at", PIso true now)]) s.

(** [if user_id: ... self.user_voices[user_id].append({...})] *)
Definition store_user_voice (a : voice_args) (job_id : string) (result : dict) (s : backend)
    : backend :=
  match user_id a with
  | Some uid =>
      if opt_truthy (user_id a) then
        append_user_voice uid
          (dict_of [("voice_id", PStr (voice_id a));
                    ("provider", PStr (provider_name a));
                    ("created_at", get (job_dict s job_id) "created_at");
                    ("audio_url", get result "audio_url")]) s
      else s
  | None => s
  end.

(** The [else] branch. *)
Definition mark_failed (job_id : string) (result : dict) (now : nat) (s : backend) : backend :=
  with_jobs (setitems job_id
    [("status", PStr "failed");
     ("error", get_or result "error" (PStr "Unknown error"));
     ("failed_at", PIso true now)]) s.

(** The dict display [generate_voice] returns; it has the key [status] twice. *)
Definition returned (a : voice_args) (job_id : string) (s : backend) : res dict :=
  job_status ← job_item s job_id "status";
  Ok (dict_of [("status", PStr "success");
               ("job_id", PStr job_id);
               ("status", job_status);
               ("audio_url", get (job_dict s job_id) "audio_url");
               ("duration", get_or (job_dict s job_id) "duration" (PInt 0));
               ("provider", PStr (provider_name a));
               ("voice_id", PStr (voice_id a))]).

(** The body of [generate_voice] after the provider call, inside the [try]. *)
Definition generate_voice_body (c : call) (o : io nat) (now : nat) (s : backend)
    : backend * res dict :=
  let a := c_args c in
  let job_id := c_job_id c in
  let result := provider_result a o in
  match getitem result "status" with
  | Raise e => (s, Raise e)
  | Ok st =>
      let s1 :=
        if is_str st "success"
        then store_user_voice a job_id result (mark_completed job_id result now s)
        else mark_failed job_id result now s in
      (s1, returned a job_id s1)
  end.

(** The [except Exception as e] handler of [generate_voice]. *)
Definition generate_voice_finish (c : call) (o : io nat) (now : nat) (s : backend)
    : backend * dict :=
  match generate_voice_body c o now s with
  | (s', Ok d) => (s', d)
  | (s', Raise e) =>
      (s', dict_of [("status", PStr "error"); ("error", PStr (str_exn e))])
  end.

(** A whole call, when nothing else runs while it waits for the provider. *)
Definition generate_voice (a : voice_args) (uuid : string) (now : nat) (o : io nat)
    (now' : nat) (s : backend) : backend * dict :=
  match generate_voice_submit a uuid now s with
  | (s', inl d) => (s', d)
  | (s', inr c) => generate_voice_finish c o now' s'
  end.

Definition get_voice_status (job_id : string) (s : backend) : backend * res dict :=
  match voice_jobs s !! job_id with
  | None => (s, Ok (dict_of [("status", PStr "error"); ("error", PStr "Job not found")]))
  | Some job =>
      (s, st ← getitem job "status";
          prov ← getitem job "provider";
          vid ← getitem job "voice_id";
          created ← getitem job "created_at";
          Ok (dict_of [("status", PStr "success");
                       ("job_id", PStr job_id);
                       ("status", st);
                       ("progress", get_or job "progress" (PInt 0));
                       ("audio_url", get job "audio_url");
                       ("duration", get_or job "duration" (PInt 0));
                       ("file_size", get_or job "file_size" (PInt 0));
                       ("provider", prov);
                       ("voice_id", vid);
                       ("created_at", created);
                       ("completed_at", get job "completed_at");
                       ("error", get job "error")]))
  end.

(** [get_user_voices] *)
Definition get_user_voices (uid : string) (s : backend) : dict :=
  match user_voices s !! uid with
  | None =>
      dict_of [("status", PStr "success"); ("user_id", PStr uid); ("voices", PList [])]
  | Some voices =>
      dict_of [("status", PStr "success");
               ("user_id", PStr uid);
               ("voices", PList (PDict <$> voices))]
  end.

(** [clone_voice]; [ts] is [int(time.time())] and [now] the clock.  The
    dict display it returns has the key [status] twice. *)
Definition clone_voice (uid : string) (voice_samples : list string) (voice_name prov : string)
    (ts now : nat) (s : backend) : backend * dict :=
  let cloned_voice_id := "cloned_" +:+ uid +:+ "_" +:+ pretty ts in
  let cloned_voice :=
    dict_of [("voice_id", PStr cloned_voice_id);
             ("voice_name", PStr voice_name);
             ("provider", PStr prov);
             ("type", PStr "cloned");
             ("samples_count", PInt (Z.of_nat (length voice_samples)));
             ("created_at", PIso true now);
             ("status", PStr "ready")] in
  (append_user_voice uid cloned_voice s,
   dict_of [("status", PStr "success");
            ("voice_id", PStr cloned_voice_id);
            ("voice_name", PStr voice_name);
            ("provider", PStr prov);
            ("status", PStr "ready")]).

(** [len([j for j in self.voice_jobs.values() if j["status"] == st])] *)
Definition count_status (st : string) (jobs : list dict) : res nat :=
  statuses ← mapM (λ j, getitem j "status") jobs;
  Ok (length (filter (λ v, is_str v st = true) statuses)).

(** The counters of one provider in [provider_stats]. *)
Record provider_counts := {
  pc_total : nat;
  pc_completed : nat;
  pc_failed : nat
}.

(** One turn of the [provider_stats] loop of [get_voice_stats]; a provider
    that is not a str cannot be a key of the model's map and is left to the
    [TypeError] branch. *)
Definition count_provider (acc : res (gmap string provider_counts)) (job : dict)
    : res (gmap string provider_counts) :=
  provider_stats ← acc;
  prov ← getitem job "provider";
  match prov with
  | PStr p =>
      let c := default {| pc_total := 0; pc_completed := 0; pc_failed := 0 |}
                 (provider_stats !! p) in
      st ← getitem job "status";
      Ok (<[p := {| pc_total := S (pc_total c);
                    pc_completed := if is_str st "completed" then S (pc_completed c)
                                    else pc_completed c;
                    pc_failed := if is_str st "completed" then pc_failed c
                                 else if is_str st "failed" then S (pc_failed c)
                                 else pc_failed c |}]> provider_stats)
  | _ => Raise (TypeError "provider is not a str")
  end.

(** What [get_voice_stats] returns.  [success_rate] is the float
    [completed_jobs / total_jobs * 100], kept as the pair it is computed
    from, or [None] for the [0] of an empty store. *)
Record voice_stats := {
  total_jobs : nat;
  completed_jobs : nat;
  failed_jobs : nat;
  processing_jobs : nat;
  success_rate : option (nat * nat);
  provider_stats : gmap string provider_counts;
  total_users : nat;
  total_voices : nat
}.

Definition get_voice_stats (s : backend) : res voice_stats :=
  let jobs := (map_to_list (voice_jobs s)).*2 in
  let total := size (voice_jobs s) in
  completed ← count_status "completed" jobs;
  failed ← count_status "failed" jobs;
  processing ← count_status "processing" jobs;
  stats ← foldl count_provider (Ok ∅) jobs;
  Ok {| total_jobs := total;
        completed_jobs := completed;
        failed_jobs := failed;
        processing_jobs := processing;
        success_rate := if bool_decide (0 < total) then Some (completed, total) else None;
        provider_stats := stats;
        total_users := size (user_voices s);
        total_voices := sum_list (length <$> (map_to_list (user_voices s)).*2) |}.

End Voice.

(** ** real_content_backend.py *)

Module Content.

Record backend := {
  generation_jobs : gmap string dict;
  user_models : gmap string dict;
  voice_cache : gmap string string;
  batch_queue : list pyval
}.

Definition with_jobs (f : gmap string dict → gmap string dict) (s : backend) : backend :=
  {| generation_jobs := f (generation_jobs s); user_models := user_models s;
     voice_cache := voice_cache s; batch_queue := batch_queue s |}.

(** [RealContentBackend.__init__] *)
Definition init : backend :=
  {| generation_jobs := ∅; user_models := ∅; voice_cache := ∅; batch_queue := [] |}.

Record gen_args := {
  user_id : string;
  script : string;
  content_type : string;
  voice_model_id : option string;
  avatar_model_id : option string
}.

(** Where [_generate_real_content_async] is suspended. *)
Inductive pc :=
| Start          (* created by [asyncio.create_task], not yet run *)
| Scripting      (* in the sleep of step 1 *)
| Voicing        (* in the sleep of step 2 *)
| Rendering      (* in the sleep of step 3 *)
| Finalizing     (* in the sleep of step 4 *)
| Finished.

Definition finished (p : pc) : bool :=
  match p with Finished => true | _ => false end.

Record task := {
  t_args : gen_args;
  t_job_id : string;
  t_pc : pc
}.

Definition at_pc (p : pc) (t : task) : task :=
  {| t_args := t_args t; t_job_id := t_job_id t; t_pc := p |}.

(** What a segment reads from outside: the clock, and the outcome of the
    file it writes (carrying [int(time.time())]). *)
Record tick := {
  now : nat;
  work : io nat
}.

(** [generate_content]: the job record it stores and the dict it returns;
    [est] is [random.randint(2, 8)]. *)
Definition generate_content (a : gen_args) (uuid : string) (now est : nat) (s : backend)
    : backend * dict :=
  let job_id := uuid in
  let s' := with_jobs (<[job_id :=
    dict_of [("status", PStr "processing");
             ("progress", PInt 0);
             ("created_at", PTime true now);
             ("user_id", PStr (user_id a));
             ("content_type", PStr (content_type a));
             ("script_length", PInt (Z.of_nat (str_len (script a))))]]>) s in
  (s', dict_of [("status", PStr "processing");
                ("job_id", PStr job_id);
                ("estimated_time", PStr (pretty est +:+ " minutes"));
                ("content_type", PStr (content_type a));
                ("script_length", PInt (Z.of_nat (str_len (script a))))]).

(** The task [generate_content] hands to [asyncio.create_task]. *)
Definition spawn (a : gen_args) (uuid : string) : task :=
  {| t_args := a; t_job_id := uuid; t_pc := Start |}.

(** [voice_model_id and content_type in ["video", "audio"]] *)
Definition wants_voice (a : gen_args) : bool :=
  opt_truthy (voice_model_id a)
  && (bool_decide (content_type a = "video") || bool_decide (content_type a = "audio")).

(** [avatar_model_id and content_type == "video"] *)
Definition wants_video (a : gen_args) : bool :=
  opt_truthy (avatar_model_id a) && bool_decide (content_type a = "video").

(** The next sleep after step 1 and after step 2. *)
Definition after_script (a : gen_args) : pc :=
  if wants_voice a then Voicing else if wants_video a then Rendering else Finalizing.

Definition after_voice (a : gen_args) : pc :=
  if wants_video a then Rendering else Finalizing.

(** The [except Exception as e] handler of [_generate_real_content_async];
    [msg] is [str(e)]. *)
Definition fail_job (job_id msg : string) (s : backend) : backend :=
  with_jobs (setitems job_id
    [("status", PStr "failed");
     ("error", PStr msg);
     ("current_step", PStr ("Generation failed: " +:+ msg))]) s.

(** One segment of [_generate_real_content_async]: from the point where the
    task is suspended to its next sleep, or to its end.  The files of the
    voice and of the reel are written inside the segment, without a sleep
    of their own.  [_check_batch_processing] has no caller and is left out. *)
Definition resume (t : task) (i : tick) (s : backend) : backend * task :=
  let a := t_args t in
  let job_id := t_job_id t in
  match t_pc t with
  | Start =>
      (* job = self.generation_jobs[job_id]; when the key is missing the
         handler raises the same KeyError and the task dies *)
      match generation_jobs s !! job_id with
      | Some _ => (s, at_pc Scripting t)
      | None => (s, at_pc Finished t)
      end
  | Scripting =>
      (with_jobs (setitems job_id
         [("progress", PInt 20);
          ("current_step", PStr "Processing script and analyzing content structure")]) s,
       at_pc (after_script a) t)
  | Voicing =>
      let s1 := with_jobs (setitems job_id
        [("progress", PInt 60);
         ("current_step", PStr "Generating voice using AI model")]) s in
      match work i with
      | Done ts =>
          (with_jobs (setitems job_id
             [("voice_file",
               PStr ("generated_voice_" +:+ user_id a +:+ "_" +:+ pretty ts +:+ ".mp3"));
              ("voice_duration", PStr "0.2 minutes")]) s1,
           at_pc (after_voice a) t)
      | Failed e =>
          (fail_job job_id ("Voice generation failed: " +:+ e) s1, at_pc Finished t)
      end
  | Rendering =>
      let s1 := with_jobs (setitems job_id
        [("progress", PInt 85);
         ("current_step", PStr "Rendering video with avatar animation")]) s in
      match work i with
      | Done ts =>
          (with_jobs (setitems job_id
             [("video_file",
               PStr ("instagram_reel_" +:+ user_id a +:+ "_" +:+ pretty ts +:+ ".mp4"));
              ("video_duration", PStr "0.2 minutes");
              ("video_resolution", PStr "1080x1920")]) s1,
           at_pc Finalizing t)
      | Failed e =>
          (fail_job job_id ("Video generation failed: " +:+ e) s1, at_pc Finished t)
      end
  | Finalizing =>
      (with_jobs (setitems job_id
         [("progress", PInt 100);
          ("status", PStr "completed");
          ("completed_at", PTime true (now i));
          ("current_step", PStr "Content generation completed successfully")]) s,
       at_pc Finished t)
  | Finished => (s, t)
  end.

(** [if not job]: the key is missing or the dict is empty *)
Definition truthy_dict (o : option dict) : option dict :=
  match o with
  | Some d => if bool_decide (d = ∅) then None else Some d
  | None => None
  end.

Definition get_generation_status (job_id : string) (s : backend) : backend * pyval :=
  match truthy_dict (generation_jobs s !! job_id) with
  | None => (s, PNone)
  | Some job =>
      let result := job in
      let result := isoformat_if_datetime "created_at" result in
      let result := isoformat_if_datetime "completed_at" result in
      (s, PDict result)
  end.

(** The stages of a job in the order the coroutine runs them, and the
    progress and step text the code writes at each. *)
Inductive stage := ScriptStage | VoiceStage | VideoStage | FinalStage.

Definition stage_sequence (a : gen_args) : list stage :=
  ([ScriptStage] ++ (if wants_voice a then [VoiceStage] else [])
    ++ (if wants_video a then [VideoStage] else []) ++ [FinalStage])%list.

Definition with_cache (f : gmap string string → gmap string string) (s : backend) : backend :=
  {| generation_jobs := generation_jobs s; user_models := user_models s;
     voice_cache := f (voice_cache s); batch_queue := batch_queue s |}.

(** [get_user_models] *)
Definition get_user_models (uid : string) (s : backend) : dict :=
  default ∅ (user_models s !! uid).

Section cache.

(** [hashlib.md5(script_content.encode()).hexdigest()] *)
Variable md5_hexdigest : string → string.

(** [_generate_voice_cached] after its sleep: the file is named after the
    key and cached. *)
Definition cache_voice (script_content : string) (s : backend) : backend * string :=
  let cache_key := md5_hexdigest script_content in
  let voice_file := "voice_" +:+ cache_key +:+ ".mp3" in
  (with_cache (<[cache_key := voice_file]>) s, voice_file).

(** A whole call of [_generate_voice_cached], when nothing else runs while
    it sleeps: on a hit it returns before the sleep. *)
Definition _generate_voice_cached (script_content : string) (s : backend)
    : backend * string :=
  let cache_key := md5_hexdigest script_content in
  match voice_cache s !! cache_key with
  | Some voice_file => (s, voice_file)
  | None => cache_voice script_content s
  end.

End cache.

(** [get_optimization_stats] *)
Definition get_optimization_stats (s : backend) : res dict :=
  statuses ← mapM (λ job, getitem job "status") (map_to_list (generation_jobs s)).*2;
  Ok (dict_of
    [("voice_cache_hits", PInt (Z.of_nat (size (voice_cache s))));
     ("batch_queue_size", PInt (Z.of_nat (length (batch_queue s))));
     ("active_jobs",
        PInt (Z.of_nat (length (filter (λ v, is_str v "processing" = true) statuses))));
     ("optimizations_active",
        PDict (dict_of [("batch_processing", PBool true);
                        ("smart_caching", PBool true);
                        ("gpu_acceleration", PBool true);
                        ("custom_models", PBool true)]));
     ("cost_reductions",
        PDict (dict_of [("script_generation", PStr "47%");
                        ("voice_generation", PStr "60%");
                        ("video_processing", PStr "44%");
                        ("overall", PStr "50%")]))]).

End Content.

(** ** publishing_backend.py *)

Module Publishing.

Record backend := {
  publishing_jobs : gmap string dict;
  scheduled_posts : gmap string dict;
  platform_status : gmap string dict
}.

Definition with_publishing (f : gmap string dict → gmap string dict) (s : backend) : backend :=
  {| publishing_jobs := f (publishing_jobs s); scheduled_posts := scheduled_posts s;
     platform_status := platform_status s |}.

Definition with_scheduled (f : gmap string dict → gmap string dict) (s : backend) : backend :=
  {| publishing_jobs := publishing_jobs s; scheduled_posts := f (scheduled_posts s);
     platform_status := platform_status s |}.

Definition strs (l : list string) : pyval := PList (PStr <$> l).

(** [self.platform_optimizations] *)
Definition platform_optimizations : gmap string dict :=
  list_to_map [
    ("instagram", dict_of [("max_caption_length", PInt 2200);
                           ("hashtag_limit", PInt 30);
                           ("image_ratios", strs ["1:1"; "4:5"; "9:16"]);
                           ("video_max_duration", PInt 60);
                           ("supported_formats", strs ["jpg"; "jpeg"; "png"; "mp4"; "mov"])]);
    ("facebook", dict_of [("max_text_length", PInt 63206);
                          ("image_ratios", strs ["1:1"; "16:9"; "4:5"]);
                          ("video_max_duration", PInt 240);
                          ("supported_formats",
                             strs ["jpg"; "jpeg"; "png"; "gif"; "mp4"; "mov"])]);
    ("linkedin", dict_of [("max_text_length", PInt 3000);
                          ("image_ratios", strs ["1:1"; "16:9"]);
                          ("video_max_duration", PInt 600);
                          ("supported_formats", strs ["jpg"; "jpeg"; "png"; "mp4"; "mov"])]);
    ("twitter", dict_of [("max_text_length", PInt 280);
                         ("image_ratios", strs ["16:9"; "1:1"]);
                         ("video_max_duration", PInt 140);
                         ("supported_formats",
                            strs ["jpg"; "jpeg"; "png"; "gif"; "mp4"; "mov"])]) ].

Definition not_connected : dict := dict_of [("connected", PBool false); ("last_check", PNone)].

(** [PublishingBackend.__init__] *)
Definition init : backend := {|
  publishing_jobs := ∅;
  scheduled_posts := ∅;
  platform_status := list_to_map [("instagram", not_connected); ("facebook", not_connected);
                                  ("linkedin", not_connected); ("twitter", not_connected)]
|}.

(** [len(v)]; the texts of the [TypeError]s of [len] and of slicing are
    abridged *)
Definition py_len (v : pyval) : res nat :=
  match v with
  | PStr s => Ok (str_len s)
  | PList l => Ok (length l)
  | PDict d => Ok (size d)
  | _ => Raise (TypeError "object has no len()")
  end.

(** [v[:n] + "..."] *)
Definition clip_with_dots (v : pyval) (n : nat) : res pyval :=
  match v with
  | PStr s => Ok (PStr (str_take n s +:+ "..."))
  | PList _ => Raise (TypeError "can only concatenate list to list")
  | _ => Raise (TypeError "object is not subscriptable")
  end.

(** [v[:n]] *)
Definition clip (v : pyval) (n : nat) : res pyval :=
  match v with
  | PStr s => Ok (PStr (str_take n s))
  | PList l => Ok (PList (take n l))
  | _ => Raise (TypeError "object is not subscriptable")
  end.

(** [rules.get(k, dflt)] for the integer limits of the table *)
Definition limit (rules : dict) (k : string) (dflt : Z) : Z :=
  match rules !! k with Some (PInt z) => z | _ => dflt end.

(** One turn of the loop of [_optimize_content_for_platforms]. *)
Definition optimize_for (content : dict) (acc : res dict) (platform : string) : res dict :=
  optimized ← acc;
  platform_rules ← match platform_optimizations !! platform with
                   | Some r => Ok r
                   | None => Raise (KeyError platform)
                   end;
  optimized ←
    (if contains content "text" then
       txt ← getitem content "text";
       let max_length := limit platform_rules "max_text_length" 1000 in
       n ← py_len txt;
       txt ← (if bool_decide (max_length < Z.of_nat n)%Z
              then clip_with_dots txt (Z.to_nat (max_length - 3)) else Ok txt);
       Ok (<[platform +:+ "_text" := txt]> optimized)
     else Ok optimized);
  optimized ←
    (if contains content "hashtags" then
       hashtags ← getitem content "hashtags";
       let hashtag_limit := limit platform_rules "hashtag_limit" 30 in
       n ← py_len hashtags;
       hashtags ← (if bool_decide (hashtag_limit < Z.of_nat n)%Z
                   then clip hashtags (Z.to_nat hashtag_limit) else Ok hashtags);
       Ok (<[platform +:+ "_hashtags" := hashtags]> optimized)
     else Ok optimized);
  Ok (<[platform +:+ "_optimized" := PBool true]> optimized).

Definition _optimize_content_for_platforms (content : dict) (platforms : list string)
    : res dict :=
  foldl (optimize_for content) (Ok content) platforms.

(** The [schedule_time] argument, by what [datetime.fromisoformat] makes of
    it: a parse error, or an instant with or without a UTC offset. *)
Inductive time_str :=
| Malformed (s : string)
| Iso (aware : bool) (t : nat).

(** Which store a [job] variable points into. *)
Inductive store := InPublishing | InScheduled.

(** Where the task of a post is suspended. *)
Inductive pc :=
| ExecStart        (* [_execute_scheduled_post] created, not yet run *)
| ExecWaiting      (* asleep until the scheduled time *)
| PubStart         (* [_publish_to_platforms] created, not yet run *)
| PubCall (job : store) (content : pyval) (platform : string) (rest : list string)
          (results : dict)      (* in the sleep of [_publish_to_platform] *)
| PubDelay (job : store) (content : pyval) (rest : list string) (results : dict)
                                (* in the delay after a platform *)
| Finished.

Record task := {
  t_post_id : string;
  t_pc : pc
}.

(** What a segment reads from outside: the clock (seconds, for both
    [datetime.now] and [time.time]) and three [random.randint] draws. *)
Record tick := {
  now : nat;
  likes : nat;
  shares : nat;
  comments : nat
}.

Definition error_dict (e : exn) : dict :=
  dict_of [("status", PStr "error"); ("error", PStr (str_exn e))].

Definition schedule_post (uid : string) (content : dict) (platforms : list string)
    (schedule_time : time_str) (uuid : string) (now : nat) (s : backend)
    : backend * dict * option task :=
  let post_id := uuid in
  match schedule_time with
  | Malformed str =>
      (s, error_dict (ValueError ("Invalid isoformat string: " +:+ py_repr str)), None)
  | Iso aware t =>
      match _optimize_content_for_platforms content platforms with
      | Raise e => (s, error_dict e, None)
      | Ok optimized_content =>
          let scheduled_post :=
            dict_of [("post_id", PStr post_id);
                     ("user_id", PStr uid);
                     ("content", PDict optimized_content);
                     ("platforms", strs platforms);
                     ("schedule_time", PIso aware t);
                     ("status", PStr "scheduled");
                     ("created_at", PIso true now);
                     ("optimizations", PDict ∅)] in
          (with_scheduled (<[post_id := scheduled_post]>) s,
           dict_of [("status", PStr "success");
                    ("post_id", PStr post_id);
                    ("schedule_time", PIso aware t);
                    ("platforms", strs platforms);
                    ("optimized_content", PDict optimized_content)],
           Some {| t_post_id := post_id; t_pc := ExecStart |})
      end
  end.

Definition publish_immediately (uid : string) (content : dict) (platforms : list string)
    (uuid : string) (now : nat) (s : backend) : backend * dict * option task :=
  let post_id := uuid in
  match _optimize_content_for_platforms content platforms with
  | Raise e => (s, error_dict e, None)
  | Ok optimized_content =>
      (with_publishing (<[post_id :=
         dict_of [("post_id", PStr post_id);
                  ("user_id", PStr uid);
                  ("content", PDict optimized_content);
                  ("platforms", strs platforms);
                  ("status", PStr "publishing");
                  ("created_at", PTime true now);
                  ("results", PDict ∅)]]>) s,
       dict_of [("status", PStr "publishing");
                ("post_id", PStr post_id);
                ("platforms", strs platforms);
                ("estimated_time", PStr (pretty (length platforms * 2) +:+ " minutes"))],
       Some {| t_post_id := post_id; t_pc := PubStart |})
  end.

(** [if not job]: the key is missing or the dict is empty *)
Definition truthy_dict (o : option dict) : option dict :=
  match o with
  | Some d => if bool_decide (d = ∅) then None else Some d
  | None => None
  end.

(** [self.publishing_jobs.get(post_id) or self.scheduled_posts.get(post_id)],
    with the store the dict was found in *)
Definition find_job (post_id : string) (s : backend) : option (store * dict) :=
  match truthy_dict (publishing_jobs s !! post_id) with
  | Some d => Some (InPublishing, d)
  | None =>
      match truthy_dict (scheduled_posts s !! post_id) with
      | Some d => Some (InScheduled, d)
      | None => None
      end
  end.

(** [job[k1] = v1; ...] through the reference [job] *)
Definition set_job (j : store) (post_id : string) (items : list (string * pyval))
    (s : backend) : backend :=
  match j with
  | InPublishing => with_publishing (setitems post_id items) s
  | InScheduled => with_scheduled (setitems post_id items) s
  end.

(** The list a [for platform in platforms] walks.  The stored [platforms]
    is the [List[str]] argument of [schedule_post] or [publish_immediately]. *)
Fixpoint strs_of (l : list pyval) : option (list string) :=
  match l with
  | [] => Some []
  | PStr p :: l' => (p ::.) <$> strs_of l'
  | _ => None
  end.

Definition iter_strs (v : pyval) : res (list string) :=
  match v with
  | PList l =>
      match strs_of l with
      | Some ps => Ok ps
      | None => Raise (TypeError "platform is not a str")
      end
  | _ => Raise (TypeError "object is not iterable")
  end.

(** The [except Exception as e] handler of [_publish_to_platforms] *)
Definition publish_failed (post_id : string) (e : exn) (s : backend) : backend :=
  if bool_decide (is_Some (publishing_jobs s !! post_id)) then
    with_publishing (setitems post_id
      [("status", PStr "failed"); ("error", PStr (str_exn e))]) s
  else s.

(** The head of the platform loop: the code after the loop when no platform
    is left, else the call for the next one. *)
Definition next_platform (j : store) (post_id : string) (content : pyval)
    (rest : list string) (results : dict) (i : tick) (s : backend) : backend * pc :=
  match rest with
  | [] =>
      (set_job j post_id
         [("status", PStr "completed");
          ("results", PDict results);
          ("completed_at", PIso true (now i))] s,
       Finished)
  | platform :: rest' => (s, PubCall j content platform rest' results)
  end.

(** [_publish_to_platforms] from its first line to its first sleep. *)
Definition publish_begin (post_id : string) (i : tick) (s : backend) : backend * pc :=
  match find_job post_id s with
  | None => (s, Finished)
  | Some (j, job) =>
      match (platforms ← getitem job "platforms";
             content ← getitem job "content";
             l ← iter_strs platforms;
             Ok (l, content)) with
      | Raise e => (publish_failed post_id e s, Finished)
      | Ok (l, content) => next_platform j post_id content l ∅ i s
      end
  end.

(** The dict [_publish_to_platform] returns *)
Definition platform_result (platform post_id : string) (i : tick) : dict :=
  let platform_post_id := platform +:+ "_" +:+ post_id +:+ "_" +:+ pretty (now i) in
  dict_of [("status", PStr "success");
           ("platform", PStr platform);
           ("platform_post_id", PStr platform_post_id);
           ("published_at", PIso true (now i));
           ("url", PStr ("https://" +:+ platform +:+ ".com/posts/" +:+ platform_post_id));
           ("metrics", PDict (dict_of [("likes", PInt (Z.of_nat (likes i)));
                                       ("shares", PInt (Z.of_nat (shares i)));
                                       ("comments", PInt (Z.of_nat (comments i)))]))].

(** The [except Exception as e] handler of [_execute_scheduled_post] *)
Definition exec_failed (post_id : string) (e : exn) (s : backend) : backend :=
  if bool_decide (is_Some (scheduled_posts s !! post_id)) then
    with_scheduled (setitems post_id
      [("status", PStr "failed"); ("error", PStr (str_exn e))]) s
  else s.

(** [_execute_scheduled_post] from its first line to the decision to sleep:
    [Ok true] to wait, [Ok false] to publish at once. *)
Definition exec_begin (post_id : string) (i : tick) (s : backend) : res bool :=
  post ← match scheduled_posts s !! post_id with
         | Some post => Ok post
         | None => Raise (KeyError post_id)
         end;
  schedule_time ← getitem post "schedule_time";
  match schedule_time with
  | PIso true t => Ok (bool_decide (now i < t))
  | PIso false t =>
      Raise (TypeError "can't compare offset-naive and offset-aware datetimes")
  | _ => Raise (TypeError "fromisoformat: argument must be str")
  end.

(** One segment of the task of a post.  [_publish_to_platform] catches
    whatever it raises and only sleeps, reads the clock and draws random
    numbers, so the [except] branch inside the platform loop is never
    taken and is left out. *)
Definition resume (t : task) (i : tick) (s : backend) : backend * task :=
  let post_id := t_post_id t in
  let to (r : backend * pc) := (r.1, {| t_post_id := post_id; t_pc := r.2 |}) in
  match t_pc t with
  | ExecStart =>
      match exec_begin post_id i s with
      | Raise e => to (exec_failed post_id e s, Finished)
      | Ok true => to (s, ExecWaiting)
      | Ok false => to (publish_begin post_id i s)
      end
  | ExecWaiting => to (publish_begin post_id i s)
  | PubStart => to (publish_begin post_id i s)
  | PubCall j content platform rest results =>
      let result := platform_result platform post_id i in
      to (s, PubDelay j content rest (<[platform := PDict result]> results))
  | PubDelay j content rest results => to (next_platform j post_id content rest results i s)
  | Finished => (s, t)
  end.

Definition get_publishing_status (post_id : string) (s : backend) : backend * pyval :=
  match find_job post_id s with
  | None => (s, PNone)
  | Some (_, job) =>
      let result := job in
      let result := isoformat_if_datetime "created_at" result in
      let result := isoformat_if_datetime "completed_at" result in
      (s, PDict result)
  end.

Definition cancel_scheduled_post (post_id : string) (s : backend) : backend * dict :=
  if bool_decide (is_Some (scheduled_posts s !! post_id)) then
    (with_scheduled (setitem post_id "status" (PStr "cancelled")) s,
     dict_of [("status", PStr "success"); ("message", PStr "Post cancelled successfully")])
  else
    (s, dict_of [("status", PStr "error"); ("message", PStr "Post not found")]).

Definition with_platforms (f : gmap string dict → gmap string dict) (s : backend) : backend :=
  {| publishing_jobs := publishing_jobs s; scheduled_posts := scheduled_posts s;
     platform_status := f (platform_status s) |}.

(** [connect_platform] after its sleep; [now] is the clock.  The
    [credentials] are an argument the body never reads. *)
Definition connect_platform (platform : string) (credentials : dict) (now : nat)
    (s : backend) : backend * dict :=
  let failed (e : exn) :=
    dict_of [("status", PStr "error");
             ("platform", PStr platform);
             ("error", PStr (str_exn e))] in
  match platform_status s !! platform with
  | None => (s, failed (KeyError platform))
  | Some _ =>
      let s' := with_platforms (setitems platform
                  [("connected", PBool true); ("last_check", PIso true now)]) s in
      match platform_optimizations !! platform with
      | None => (s', failed (KeyError platform))
      | Some capabilities =>
          (s', dict_of [("status", PStr "success");
                        ("platform", PStr platform);
                        ("connection_id", PStr (platform +:+ "_" +:+ pretty now));
                        ("connected_at", PIso true now);
                        ("capabilities", PDict capabilities)])
      end
  end.

End Publishing.

(** ** simple_main.py: the content generation endpoint *)

Module Api.

Record response := {
  status_code : nat;
  content : pyval
}.

(** [POST /api/content/generate].  [available] is
    [CONTENT_BACKEND_AVAILABLE]; the handler passes neither a voice model
    nor an avatar to the backend. *)
Definition generate_content_with_ai (available : bool) (user_id script content_type : string)
    (uuid : string) (now est : nat) (s : Content.backend)
    : Content.backend * response * option Content.task :=
  if negb available then
    (s, {| status_code := 503;
           content := PDict (dict_of [("error", PStr "Content backend not available")]) |},
     None)
  else
    let a := {| Content.user_id := user_id; Content.script := script;
                Content.content_type := content_type;
                Content.voice_model_id := None; Content.avatar_model_id := None |} in
    let '(s', result) := Content.generate_content a uuid now est s in
    (s', {| status_code := 200; content := PDict result |}, Some (Content.spawn a uuid)).

End Api.

(** ** The process: three backends on one event loop *)

Module App.

Record state := {
  voice : Voice.backend;
  voice_calls : gmap string Voice.call;        (* [generate_voice] calls awaiting their provider *)
  content : Content.backend;
  content_tasks : gmap string Content.task;    (* [asyncio.create_task] of [generate_content] *)
  publishing : Publishing.backend;
  publishing_tasks : gmap string Publishing.task
}.

Definition init : state := {|
  voice := Voice.init; voice_calls := ∅;
  content := Content.init; content_tasks := ∅;
  publishing := Publishing.init; publishing_tasks := ∅
|}.

Definition set_voice (v : Voice.backend) (c : gmap string Voice.call) (σ : state) : state :=
  {| voice := v; voice_calls := c;
     content := content σ; content_tasks := content_tasks σ;
     publishing := publishing σ; publishing_tasks := publishing_tasks σ |}.

Definition set_content (b : Content.backend) (ts : gmap string Content.task) (σ : state)
    : state :=
  {| voice := voice σ; voice_calls := voice_calls σ;
     content := b; content_tasks := ts;
     publishing := publishing σ; publishing_tasks := publishing_tasks σ |}.

Definition set_publishing (b : Publishing.backend) (ts : gmap string Publishing.task)
    (σ : state) : state :=
  {| voice := voice σ; voice_calls := voice_calls σ;
     content := content σ; content_tasks := content_tasks σ;
     publishing := b; publishing_tasks := ts |}.

(** What can happen next: a request arrives, or the event loop wakes a
    suspended coroutine. *)
Inductive event :=
| GenerateVoice (a : Voice.voice_args) (uuid : string) (now : nat)
| VoiceProviderDone (job_id : string) (o : io nat) (now : nat)
| GetVoiceStatus (job_id : string)
| GenerateContent (a : Content.gen_args) (uuid : string) (now est : nat)
| ContentTaskRuns (job_id : string) (i : Content.tick)
| GetGenerationStatus (job_id : string)
| SchedulePost (uid : string) (content : dict) (platforms : list string)
    (schedule_time : Publishing.time_str) (uuid : string) (now : nat)
| PublishImmediately (uid : string) (content : dict) (platforms : list string)
    (uuid : string) (now : nat)
| PublishingTaskRuns (post_id : string) (i : Publishing.tick)
| CancelScheduledPost (post_id : string)
| GetPublishingStatus (post_id : string).

Definition of_res (r : res dict) : output :=
  match r with Ok d => Returned (PDict d) | Raise e => Raised e end.

Definition add_task (t : option Publishing.task) (ts : gmap string Publishing.task)
    : gmap string Publishing.task :=
  match t with Some t => <[Publishing.t_post_id t := t]> ts | None => ts end.

(** One event.  [None]: the event cannot happen in this state (a uuid that
    is already in use, a coroutine that is not suspended). *)
Definition exec (e : event) (σ : state) : option (state * output) :=
  match e with
  | GenerateVoice a uuid now =>
      if bool_decide (is_Some (Voice.voice_jobs (voice σ) !! uuid)) then None else
      match Voice.generate_voice_submit a uuid now (voice σ) with
      | (v, inl d) => Some (set_voice v (voice_calls σ) σ, Returned (PDict d))
      | (v, inr c) => Some (set_voice v (<[uuid := c]> (voice_calls σ)) σ, Suspended)
      end
  | VoiceProviderDone job_id o now =>
      match voice_calls σ !! job_id with
      | None => None
      | Some c =>
          let '(v, d) := Voice.generate_voice_finish c o now (voice σ) in
          Some (set_voice v (delete job_id (voice_calls σ)) σ, Returned (PDict d))
      end
  | GetVoiceStatus job_id =>
      let '(v, r) := Voice.get_voice_status job_id (voice σ) in
      Some (set_voice v (voice_calls σ) σ, of_res r)
  | GenerateContent a uuid now est =>
      if bool_decide (is_Some (Content.generation_jobs (content σ) !! uuid)) then None else
      let '(b, d) := Content.generate_content a uuid now est (content σ) in
      Some (set_content b (<[uuid := Content.spawn a uuid]> (content_tasks σ)) σ,
            Returned (PDict d))
  | ContentTaskRuns job_id i =>
      match content_tasks σ !! job_id with
      | None => None
      | Some t =>
          if Content.finished (Content.t_pc t) then None else
          let '(b, t') := Content.resume t i (content σ) in
          Some (set_content b (<[job_id := t']> (content_tasks σ)) σ, Suspended)
      end
  | GetGenerationStatus job_id =>
      let '(b, v) := Content.get_generation_status job_id (content σ) in
      Some (set_content b (content_tasks σ) σ, Returned v)
  | SchedulePost uid c platforms schedule_time uuid now =>
      if bool_decide (is_Some (Publishing.publishing_jobs (publishing σ) !! uuid)
                      ∨ is_Some (Publishing.scheduled_posts (publishing σ) !! uuid))
      then None else
      let '(b, d, t) := Publishing.schedule_post uid c platforms schedule_time uuid now
                          (publishing σ) in
      Some (set_publishing b (add_task t (publishing_tasks σ)) σ, Returned (PDict d))
  | PublishImmediately uid c platforms uuid now =>
      if bool_decide (is_Some (Publishing.publishing_jobs (publishing σ) !! uuid)
                      ∨ is_Some (Publishing.scheduled_posts (publishing σ) !! uuid))
      then None else
      let '(b, d, t) := Publishing.publish_immediately uid c platforms uuid now
                          (publishing σ) in
      Some (set_publishing b (add_task t (publishing_tasks σ)) σ, Returned (PDict d))
  | PublishingTaskRuns post_id i =>
      match publishing_tasks σ !! post_id with
      | None => None
      | Some t =>
          match Publishing.t_pc t with
          | Publishing.Finished => None
          | _ =>
              let '(b, t') := Publishing.resume t i (publishing σ) in
              Some (set_publishing b (<[post_id := t']> (publishing_tasks σ)) σ, Suspended)
          end
      end
  | CancelScheduledPost post_id =>
      let '(b, d) := Publishing.cancel_scheduled_post post_id (publishing σ) in
      Some (set_publishing b (publishing_tasks σ) σ, Returned (PDict d))
  | GetPublishingStatus post_id =>
      let '(b, v) := Publishing.get_publishing_status post_id (publishing σ) in
      Some (set_publishing b (publishing_tasks σ) σ, Returned v)
  end.

(** A schedule of events, with what each handed back. *)
Fixpoint run (es : list event) (σ : state) : option (state * list output) :=
  match es with
  | [] => Some (σ, [])
  | e :: es' =>
      match exec e σ with
      | None => None
      | Some (σ', o) =>
          match run es' σ' with
          | None => None
          | Some (σ'', os) => Some (σ'', o :: os)
          end
      end
  end.

End App.


(** ** What the status queries show *)

Definition terminal (st : string) : Prop :=
  st = "completed" ∨ st = "failed" ∨ st = "cancelled".

(** The dict a query handed back, if it handed back one. *)
Definition shown (o : output) : option dict :=
  match o with Returned (PDict d) => Some d | _ => None end.

Definition voice_view (id : string) (σ : App.state) : option dict :=
  match (Voice.get_voice_status id (App.voice σ)).2 with Ok d => Some d | Raise _ => None end.

Definition content_view (id : string) (σ : App.state) : option dict :=
  match (Content.get_generation_status id (App.content σ)).2 with
  | PDict d => Some d
  | _ => None
  end.

Definition publishing_view (id : string) (σ : App.state) : option dict :=
  match (Publishing.get_publishing_status id (App.publishing σ)).2 with
  | PDict d => Some d
  | _ => None
  end.

(** The progress a view shows while its status is [processing]. *)
Definition processing_progress (view : option dict) : option Z :=
  match view with
  | Some d =>
      match status_of d with
      | Some st => if bool_decide (st = "processing") then progress_of d else None
      | None => None
      end
  | None => None
  end.

(** A query result that tells the caller the id is unknown: an exception,
    or the error dict the backends use. *)
Definition signals_not_found (o : output) : Prop :=
  match o with
  | Raised _ => True
  | Returned (PDict d) => status_of d = Some "error"
  | _ => False
  end.



(** ** Progress: the formula of the specification and the table of the code *)

(** [round(num / den)] as Python rounds: to the nearest integer, a tie to
    the even one. *)
Definition py_round (num den : Z) : Z :=
  let q := (num `div` den)%Z in
  let r := (num `mod` den)%Z in
  if bool_decide (2 * r < den)%Z then q
  else if bool_decide (den < 2 * r)%Z then (q + 1)%Z
  else if Z.even q then q else (q + 1)%Z.

(** The specification's [round(100 * (i+1) / total_stages)]. *)
Definition spec_progress (i total_stages : nat) : Z :=
  py_round (100 * (Z.of_nat i + 1)) (Z.of_nat total_stages).

(** What [_generate_real_content_async] writes at each stage. *)
Definition stage_progress (st : Content.stage) : Z :=
  match st with
  | Content.ScriptStage => 20
  | Content.VoiceStage => 60
  | Content.VideoStage => 85
  | Content.FinalStage => 100
  end.

Definition stage_step (st : Content.stage) : string :=
  match st with
  | Content.ScriptStage => "Processing script and analyzing content structure"
  | Content.VoiceStage => "Generating voice using AI model"
  | Content.VideoStage => "Rendering video with avatar animation"
  | Content.FinalStage => "Content generation completed successfully"
  end.

(** A task run for as many segments as there are ticks. *)
Fixpoint run_task (ticks : list Content.tick) (t : Content.task) (s : Content.backend)
    : Content.backend * Content.task :=
  match ticks with
  | [] => (s, t)
  | i :: ticks' => let '(s', t') := Content.resume t i s in run_task ticks' t' s'
  end.

Definition succeeds (i : Content.tick) : Prop := ∃ ts, Content.work i = Done ts.


(** ** Invariants of the reachable states *)

(** A stored voice job, given whether its call still waits for the provider. *)
Definition voice_job_ok (job : dict) (waiting : bool) : Prop :=
  is_Some (job !! "provider") ∧ is_Some (job !! "voice_id") ∧ is_Some (job !! "created_at")
  ∧ ((status_of job = Some "processing" ∧ waiting = true ∧ progress_of job = Some 0%Z
      ∧ job !! "error" = None ∧ job !! "audio_url" = None)
     ∨ (status_of job = Some "completed" ∧ waiting = false ∧ progress_of job = Some 100%Z
        ∧ (∃ u, job !! "audio_url" = Some (PStr u)) ∧ job !! "error" = None)
     ∨ (status_of job = Some "failed" ∧ waiting = false ∧ progress_of job = Some 0%Z
        ∧ (∃ m, job !! "error" = Some (PStr m)) ∧ job !! "audio_url" = None)).

Definition voice_inv (σ : App.state) : Prop :=
  (∀ id c, App.voice_calls σ !! id = Some c →
     Voice.c_job_id c = id ∧ is_Some (Voice.voice_jobs (App.voice σ) !! id))
  ∧ (∀ id job, Voice.voice_jobs (App.voice σ) !! id = Some job →
       voice_job_ok job (bool_decide (is_Some (App.voice_calls σ !! id)))).

(** The highest progress a generation job can show while its task is
    suspended at [p]. *)
Definition bound (p : Content.pc) : Z :=
  match p with
  | Content.Start | Content.Scripting => 0
  | Content.Voicing => 20
  | Content.Rendering => 60
  | Content.Finalizing => 85
  | Content.Finished => 100
  end.

Definition content_job_ok (job : dict) (p : Content.pc) : Prop :=
  if Content.finished p then
    (status_of job = Some "completed" ∧ progress_of job = Some 100%Z ∧ job !! "error" = None)
    ∨ (status_of job = Some "failed" ∧ (∃ m, job !! "error" = Some (PStr m))
       ∧ job !! "video_file" = None)
  else
    status_of job = Some "processing"
    ∧ (∃ q, progress_of job = Some q ∧ (0 ≤ q ≤ bound p)%Z)
    ∧ job !! "error" = None
    ∧ (p ≠ Content.Finalizing → job !! "video_file" = None).

Definition content_inv (σ : App.state) : Prop :=
  (∀ id t, App.content_tasks σ !! id = Some t → Content.t_job_id t = id)
  ∧ (∀ id job, Content.generation_jobs (App.content σ) !! id = Some job →
       ∃ t, App.content_tasks σ !! id = Some t ∧ content_job_ok job (Content.t_pc t)).



(** The two stores of the publishing backend, addressed by [store]. *)
Definition lookup_in (j : Publishing.store) (s : Publishing.backend) (id : string)
    : option dict :=
  match j with
  | Publishing.InPublishing => Publishing.publishing_jobs s !! id
  | Publishing.InScheduled => Publishing.scheduled_posts s !! id
  end.

Definition other (j : Publishing.store) : Publishing.store :=
  match j with
  | Publishing.InPublishing => Publishing.InScheduled
  | Publishing.InScheduled => Publishing.InPublishing
  end.

(** The store a suspended publishing task writes to is the store of its post. *)
Definition writes_to (j : Publishing.store) (p : Publishing.pc) : Prop :=
  match p with
  | Publishing.ExecStart | Publishing.ExecWaiting => j = Publishing.InScheduled
  | Publishing.PubStart => j = Publishing.InPublishing
  | Publishing.PubCall j' _ _ _ _ | Publishing.PubDelay j' _ _ _ => j' = j
  | Publishing.Finished => True
  end.

Definition post_ok (j : Publishing.store) (job : dict) (p : Publishing.pc) : Prop :=
  writes_to j p
  ∧ (∃ ps, job !! "platforms" = Some (Publishing.strs ps))
  ∧ is_Some (job !! "content")
  ∧ ∃ st, status_of job = Some st
    ∧ (st = "completed" →
       p = Publishing.Finished ∧ job !! "error" = None ∧ (∃ r, job !! "results" = Some (PDict r)))
    ∧ (st = "failed" →
       p = Publishing.Finished ∧ (∃ m, job !! "error" = Some (PStr m))
       ∧ job !! "results" = None)
    ∧ (p ≠ Publishing.Finished →
       job !! "error" = None ∧ (j = Publishing.InScheduled → job !! "results" = None)).

Definition publishing_inv (σ : App.state) : Prop :=
  (∀ id t, App.publishing_tasks σ !! id = Some t → Publishing.t_post_id t = id)
  ∧ (∀ j id job, lookup_in j (App.publishing σ) id = Some job →
       lookup_in (other j) (App.publishing σ) id = None
       ∧ ∃ t, App.publishing_tasks σ !! id = Some t ∧ post_ok j job (Publishing.t_pc t)).

Definition inv (σ : App.state) : Prop :=
  voice_inv σ ∧ content_inv σ ∧ publishing_inv σ.

(** [s'] differs from [s] at most in the post stored under [id]. *)
Definition touches_only (id : string) (s s' : Publishing.backend) : Prop :=
  ∃ f g : dict → dict, ∀ id',
    Publishing.publishing_jobs s' !! id'
      = (if decide (id = id') then f <$> Publishing.publishing_jobs s !! id'
         else Publishing.publishing_jobs s !! id')
    ∧ Publishing.scheduled_posts s' !! id'
      = (if decide (id = id') then g <$> Publishing.scheduled_posts s !! id'
         else Publishing.scheduled_posts s !! id').

(** What one segment of the task of a post leaves behind. *)
Definition post_step_ok (j : Publishing.store) (id : string)
    (r : Publishing.backend * Publishing.pc) : Prop :=
  ∃ job', lookup_in j r.1 id = Some job' ∧ lookup_in (other j) r.1 id = None
          ∧ post_ok j job' r.2.

(** How far a job has come: its progress while it is processing, and past
    every progress once it is not. *)
Definition rank (job : dict) : Z :=
  match status_of job with
  | Some st => if bool_decide (st = "processing") then default 0%Z (progress_of job) else 101
  | None => 101
  end.

Definition voice_grows (σ σ' : App.state) : Prop :=
  ∀ id job, Voice.voice_jobs (App.voice σ) !! id = Some job →
    ∃ job', Voice.voice_jobs (App.voice σ') !! id = Some job' ∧ (rank job ≤ rank job')%Z.

Definition content_grows (σ σ' : App.state) : Prop :=
  ∀ id job, Content.generation_jobs (App.content σ) !! id = Some job →
    ∃ job', Content.generation_jobs (App.content σ') !! id = Some job'
            ∧ (rank job ≤ rank job')%Z.

(** A voice job whose call has returned stays as it is. *)
Definition voice_settled (σ σ' : App.state) : Prop :=
  ∀ id job, Voice.voice_jobs (App.voice σ) !! id = Some job →
    App.voice_calls σ !! id = None →
    Voice.voice_jobs (App.voice σ') !! id = Some job ∧ App.voice_calls σ' !! id = None.


(** ** Schedules and inputs used in the examples *)

Definition shown_status (o : output) : option string := shown o ≫= status_of.

(** The statuses a schedule shows, one entry per event. *)
Definition statuses (es : list App.event) : option (list (option string)) :=
  match App.run es App.init with
  | Some (_, outs) => Some (shown_status <$> outs)
  | None => None
  end.

(** The dict the [n]-th event of a schedule handed back. *)
Definition view_at (es : list App.event) (n : nat) : option dict :=
  match App.run es App.init with
  | Some (_, outs) => outs !! n ≫= shown
  | None => None
  end.

(** Whether every event of a schedule can happen when its turn comes. *)
Definition runs (es : list App.event) : bool :=
  match App.run es App.init with Some _ => true | None => false end.

Definition state_after (es : list App.event) : App.state :=
  match App.run es App.init with Some (σ, _) => σ | None => App.init end.

Definition outputs_of (es : list App.event) : list output :=
  match App.run es App.init with Some (_, outs) => outs | None => [] end.

Definition hello : Voice.voice_args :=
  {| Voice.text := "hello world"; Voice.voice_id := "rachel";
     Voice.provider_name := "elevenlabs"; Voice.user_id := Some "u1";
     Voice.quality := "high" |}.

Definition unknown_call : Voice.voice_args :=
  {| Voice.text := "hello world"; Voice.voice_id := "rachel";
     Voice.provider_name := "unknown_provider"; Voice.user_id := None;
     Voice.quality := "high" |}.

Definition elevenlabs : Voice.provider :=
  {| Voice.api_key := "demo_key"; Voice.base_url := Some "https://api.elevenlabs.io/v1";
     Voice.region := None; Voice.enabled := true |}.

Definition at_time (n : nat) : Publishing.tick :=
  {| Publishing.now := n; Publishing.likes := 12; Publishing.shares := 3;
     Publishing.comments := 1 |}.

Definition wrote (n : nat) : Content.tick :=
  {| Content.now := n; Content.work := Done n |}.

Definition launch : dict := dict_of [("text", PStr "launch day")].

(** A scheduled post is cancelled while its task sleeps until the scheduled
    time; the task then publishes it, and it is cancelled once more. *)
Definition cancel_then_publish : list App.event :=
  [App.SchedulePost "u1" launch ["twitter"] (Publishing.Iso true 100) "p1" 10;
   App.PublishingTaskRuns "p1" (at_time 11);
   App.CancelScheduledPost "p1";
   App.GetPublishingStatus "p1";
   App.PublishingTaskRuns "p1" (at_time 100);
   App.PublishingTaskRuns "p1" (at_time 105);
   App.PublishingTaskRuns "p1" (at_time 108);
   App.GetPublishingStatus "p1";
   App.CancelScheduledPost "p1";
   App.GetPublishingStatus "p1"].

(** A post for two platforms is cancelled after the first one was published. *)
Definition cancel_between_platforms : list App.event :=
  [App.SchedulePost "u1" launch ["twitter"; "facebook"] (Publishing.Iso true 100) "p1" 10;
   App.PublishingTaskRuns "p1" (at_time 100);
   App.PublishingTaskRuns "p1" (at_time 105);
   App.CancelScheduledPost "p1";
   App.GetPublishingStatus "p1";
   App.PublishingTaskRuns "p1" (at_time 108);
   App.PublishingTaskRuns "p1" (at_time 113);
   App.PublishingTaskRuns "p1" (at_time 116);
   App.GetPublishingStatus "p1"].

(** A video job with a voice model and an avatar: four stages. *)
Definition reel : Content.gen_args :=
  {| Content.user_id := "u1"; Content.script := "hello world";
     Content.content_type := "video"; Content.voice_model_id := Some "voice_u1_1";
     Content.avatar_model_id := Some "avatar_u1_1" |}.

(** A script-only job: two stages, no voice and no video. *)
Definition script_only : Content.gen_args :=
  {| Content.user_id := "u1"; Content.script := "hello world";
     Content.content_type := "script"; Content.voice_model_id := None;
     Content.avatar_model_id := None |}.

Definition script_only_run : list App.event :=
  [App.GenerateContent script_only "j1" 1 5;
   App.ContentTaskRuns "j1" (wrote 2);
   App.ContentTaskRuns "j1" (wrote 3);
   App.ContentTaskRuns "j1" (wrote 5)].

Definition script_only_job : option dict :=
  Content.generation_jobs (App.content (state_after script_only_run)) !! "j1".



(** Whether the [results] of a view hold an entry for [platform]. *)
Definition results_include (view : option dict) (platform : string) : bool :=
  match view ≫= (.!! "results") with
  | Some (PDict r) => bool_decide (is_Some (r !! platform))
  | _ => false
  end.

Definition one_scheduled : Publishing.backend :=
  (Publishing.schedule_post "u1" launch ["twitter"] (Publishing.Iso true 100) "p1" 10
     Publishing.init).1.1.

(** The job a fresh backend holds after [generate_content] and the given
    segments of its task. *)
Definition job_after (a : Content.gen_args) (ticks : list Content.tick) : option dict :=
  Content.generation_jobs
    (run_task ticks (Content.spawn a "j1")
       (Content.generate_content a "j1" 1 5 Content.init).1).1 !! "j1".

(** One job of each backend, with queries in between. *)
Definition busy_day : list App.event :=
  [App.GenerateVoice hello "v1" 10;
   App.GenerateContent reel "j1" 11 5;
   App.PublishImmediately "u1" launch ["twitter"] "p1" 12;
   App.ContentTaskRuns "j1" (wrote 13);
   App.ContentTaskRuns "j1" (wrote 14);
   App.VoiceProviderDone "v1" (Done 15) 15;
   App.PublishingTaskRuns "p1" (at_time 16);
   App.PublishingTaskRuns "p1" (at_time 20)].

Definition rest_of_day : list App.event :=
  [App.ContentTaskRuns "j1" (wrote 21);
   App.PublishingTaskRuns "p1" (at_time 23);
   App.GetVoiceStatus "v1"].

(** The suspension points of a generation task whose stages succeed, and
    the one each stage of the stage sequence starts from. *)
Definition next_pc (a : Content.gen_args) (p : Content.pc) : Content.pc :=
  match p with
  | Content.Start => Content.Scripting
  | Content.Scripting => Content.after_script a
  | Content.Voicing => Content.after_voice a
  | Content.Rendering => Content.Finalizing
  | Content.Finalizing | Content.Finished => Content.Finished
  end.

Definition pc_of_stage (st : Content.stage) : Content.pc :=
  match st with
  | Content.ScriptStage => Content.Scripting
  | Content.VoiceStage => Content.Voicing
  | Content.VideoStage => Content.Rendering
  | Content.FinalStage => Content.Finalizing
  end.

(** ** Content optimisation, publishing runs and voice lists *)

(** The text limit the optimisation loop reads for a platform: the
    [max_text_length] of its rules, else 1000. *)
Definition max_text_length (platform : string) : Z :=
  Publishing.limit (default ∅ (Publishing.platform_optimizations !! platform))
    "max_text_length" 1000.

Definition hashtag_limit (platform : string) : Z :=
  Publishing.limit (default ∅ (Publishing.platform_optimizations !! platform))
    "hashtag_limit" 30.

(** The text the loop stores for a platform. *)
Definition fitted_text (platform txt : string) : string :=
  if bool_decide (max_text_length platform < Z.of_nat (str_len txt))%Z
  then str_take (Z.to_nat (max_text_length platform - 3)) txt +:+ "..."
  else txt.

(** The keys the loop writes for a platform. *)
Definition platform_keys (platform : string) : list string :=
  [platform +:+ "_text"; platform +:+ "_hashtags"; platform +:+ "_optimized"].

(** The task of a post run for as many segments as there are ticks. *)
Fixpoint run_post (ticks : list Publishing.tick) (t : Publishing.task)
    (s : Publishing.backend) : Publishing.backend * Publishing.task :=
  match ticks with
  | [] => (s, t)
  | i :: ticks' => let '(s', t') := Publishing.resume t i s in run_post ticks' t' s'
  end.

(** [results] holds a successful result for [platform]. *)
Definition published_on (results : dict) (platform : string) : Prop :=
  ∃ r, results !! platform = Some (PDict r)
       ∧ status_of r = Some "success" ∧ r !! "platform" = Some (PStr platform).

(** The [voices] of the dict [get_user_voices] returns. *)
Definition voices_of (uid : string) (s : Voice.backend) : list pyval :=
  match Voice.get_user_voices uid s !! "voices" with
  | Some (PList l) => l
  | _ => []
  end.

(** The platform is marked as connected. *)
Definition connected (platform : string) (s : Publishing.backend) : Prop :=
  match Publishing.platform_status s !! platform with
  | Some d => d !! "connected" = Some (PBool true)
  | None => False
  end.

(** A run of [connect_platform] calls, each with its platform, credentials
    and clock. *)
Definition connect_all (calls : list (string * dict * nat)) (s : Publishing.backend)
    : Publishing.backend :=
  foldl (λ s c, (Publishing.connect_platform c.1.1 c.1.2 c.2 s).1) s calls.

(** ** Inputs used in the examples of the further properties *)

Definition long_text : string :=
  "Launch day is here: our studio now writes, voices and renders a full reel from one "
  +:+ "script, schedules it for every platform you have connected and publishes it while "
  +:+ "you sleep. Tell us what you would like to see next, and follow us for the weekly "
  +:+ "update on what the team is working on.".

Definition announcement : dict :=
  dict_of [("text", PStr long_text);
           ("hashtags", Publishing.strs ["launch"; "studio"]);
           ("title", PStr "Launch")].

(** The hash function of the cache examples: any function will do. *)
Definition first_word (s : string) : string := String.substring 0 5 s.

(** A caption of more than 1000 characters, with accented letters. *)
Definition caption : string :=
  long_text +:+ " Écrit à Genève. " +:+ long_text +:+ long_text +:+ long_text.

(** A text of 300 accented letters: 300 characters in 600 bytes. *)
Definition accented : string := String.concat "" (replicate 300 "é").

Definition campaign : dict :=
  dict_of [("text", PStr caption);
           ("hashtags", Publishing.strs (replicate 40 "studio"));
           ("title", PStr "Launch")].

(** The dict a call returned, or the empty one if it raised. *)
Definition value_of (r : res dict) : dict :=
  match r with Ok d => d | Raise _ => ∅ end.

Definition campaign_optimized : dict :=
  value_of (Publishing._optimize_content_for_platforms campaign ["twitter"; "instagram"]).

Definition accented_optimized : dict :=
  value_of (Publishing._optimize_content_for_platforms
              (dict_of [("text", PStr accented)]) ["twitter"; "facebook"]).

Definition returns {A : Type} (r : res A) : bool :=
  match r with Ok _ => true | Raise _ => false end.

(** A post for two platforms, published at once and scheduled. *)
Definition posted : Publishing.backend * dict * option Publishing.task :=
  Publishing.publish_immediately "u1" launch ["twitter"; "facebook"] "p1" 12 Publishing.init.

Definition scheduled_at (aware : bool) (t : nat)
    : Publishing.backend * dict * option Publishing.task :=
  Publishing.schedule_post "u1" launch ["twitter"; "facebook"] (Publishing.Iso aware t)
    "p1" 12 Publishing.init.

Definition task_at (p : Publishing.pc) : Publishing.task :=
  {| Publishing.t_post_id := "p1"; Publishing.t_pc := p |}.

Definition five_ticks : list Publishing.tick :=
  [at_time 13; at_time 18; at_time 21; at_time 27; at_time 30].

(** What happens after the script-only job has completed. *)
Definition more_work : list App.event :=
  [App.GetGenerationStatus "j1";
   App.GenerateContent reel "j2" 11 5;
   App.ContentTaskRuns "j2" (wrote 13);
   App.ContentTaskRuns "j2" (wrote 14)].

(** A post published at once to the end, and what happens afterwards. *)
Definition publish_now : list App.event :=
  [App.PublishImmediately "u1" launch ["twitter"] "p1" 12;
   App.PublishingTaskRuns "p1" (at_time 16);
   App.PublishingTaskRuns "p1" (at_time 20);
   App.PublishingTaskRuns "p1" (at_time 23)].

Definition more_posts : list App.event :=
  [App.CancelScheduledPost "p1";
   App.SchedulePost "u1" launch ["facebook"] (Publishing.Iso true 100) "p2" 30;
   App.PublishingTaskRuns "p2" (at_time 31);
   App.GetPublishingStatus "p1"].

(** A voice job the statistics can count: its provider is a str and its
    status one of the three the backend writes. *)
Definition voice_job_counted (job : dict) : Prop :=
  (∃ p, job !! "provider" = Some (PStr p))
  ∧ (job !! "status" = Some (PStr "completed") ∨ job !! "status" = Some (PStr "failed")
     ∨ job !! "status" = Some (PStr "processing")).

(** A str of printable ASCII characters other than ['] and the backslash:
    its [repr] is the str itself between two [']. *)
Definition plain_char (c : Ascii.ascii) : bool :=
  bool_decide (32 ≤ Ascii.nat_of_ascii c < 127)%nat
  && negb (bool_decide (c = single_quote)) && negb (bool_decide (c = backslash)).

Fixpoint plain (s : string) : bool :=
  match s with
  | EmptyString => true
  | String c s' => plain_char c && plain s'
  end.
Arguments setitems : simpl never.
Arguments assign : simpl never.
Arguments dict_of : simpl never.

(** * Proofs *)

(** ** Dicts and stores *)

(** Lookups in a dict after a run of assignments with literal keys. *)
Ltac dict_lookup :=
  unfold dict_of, assign; simpl foldl;
  repeat first [ rewrite lookup_insert_eq | rewrite lookup_insert_ne by discriminate ].

Ltac job_fields :=
  unfold rank, status_of, progress_of in *; dict_lookup.

Lemma lookup_setitem (id id' k : string) (v : pyval) (jobs : gmap string dict) :
  setitem id k v jobs !! id' =
    if decide (id = id') then <[k := v]> <$> jobs !! id' else jobs !! id'.
Proof.
  unfold setitem. case_decide as E.
  - subst. by rewrite lookup_alter_eq.
  - by rewrite lookup_alter_ne.
Qed.

Lemma lookup_setitems (id id' : string) (items : list (string * pyval))
    (jobs : gmap string dict) :
  setitems id items jobs !! id' =
    if decide (id = id') then assign items <$> jobs !! id' else jobs !! id'.
Proof.
  unfold setitems, assign. revert jobs.
  induction items as [|[k v] items IH]; intros jobs; simpl.
  - case_decide; [|done]. by destruct (jobs !! id').
  - rewrite IH, lookup_setitem. case_decide; [|done].
    by destruct (jobs !! id').
Qed.

Lemma isoformat_other (k k' : string) (d : dict) :
  k ≠ k' → isoformat_if_datetime k d !! k' = d !! k'.
Proof.
  intros H. unfold isoformat_if_datetime.
  destruct (d !! k) as [[]|]; try done. by rewrite lookup_insert_ne.
Qed.

Lemma state_eta (σ : App.state) :
  App.set_voice (App.voice σ) (App.voice_calls σ) σ = σ
  ∧ App.set_content (App.content σ) (App.content_tasks σ) σ = σ
  ∧ App.set_publishing (App.publishing σ) (App.publishing_tasks σ) σ = σ.
Proof. by destruct σ. Qed.

Lemma rank_processing (job : dict) (q : Z) :
  status_of job = Some "processing" → progress_of job = Some q → rank job = q.
Proof. unfold rank. by intros -> ->. Qed.

Lemma rank_other (job : dict) (st : string) :
  status_of job = Some st → st ≠ "processing" → rank job = 101%Z.
Proof. unfold rank. intros -> ?. by rewrite bool_decide_eq_false_2. Qed.

(** ** The queries only read *)

Lemma get_voice_status_state (id : string) (s : Voice.backend) :
  (Voice.get_voice_status id s).1 = s.
Proof. unfold Voice.get_voice_status. by destruct (Voice.voice_jobs s !! id). Qed.

Lemma get_generation_status_state (id : string) (s : Content.backend) :
  (Content.get_generation_status id s).1 = s.
Proof. unfold Content.get_generation_status. by destruct (Content.truthy_dict _). Qed.

Lemma get_publishing_status_state (id : string) (s : Publishing.backend) :
  (Publishing.get_publishing_status id s).1 = s.
Proof.
  unfold Publishing.get_publishing_status. by destruct (Publishing.find_job id s) as [[]|].
Qed.

Lemma query_events_state (id : string) (σ : App.state) :
  ∃ o1 o2 o3,
    App.exec (App.GetVoiceStatus id) σ = Some (σ, o1)
    ∧ App.exec (App.GetGenerationStatus id) σ = Some (σ, o2)
    ∧ App.exec (App.GetPublishingStatus id) σ = Some (σ, o3).
Proof.
  destruct (state_eta σ) as (E1 & E2 & E3). simpl.
  pose proof (get_voice_status_state id (App.voice σ)) as Hv.
  pose proof (get_generation_status_state id (App.content σ)) as Hc.
  pose proof (get_publishing_status_state id (App.publishing σ)) as Hp.
  destruct (Voice.get_voice_status id (App.voice σ)) as [v r].
  destruct (Content.get_generation_status id (App.content σ)) as [b x].
  destruct (Publishing.get_publishing_status id (App.publishing σ)) as [b' x'].
  simpl in *. subst. rewrite E1, E2, E3. by do 3 eexists.
Qed.

(** ** The voice backend *)

Lemma provider_result_cases (a : Voice.voice_args) (o : io nat) :
  let result := Voice.provider_result a o in
  (∃ u, result !! "status" = Some (PStr "success") ∧ result !! "audio_url" = Some (PStr u))
  ∨ (∃ m, result !! "status" = Some (PStr "error") ∧ result !! "error" = Some (PStr m)).
Proof.
  unfold Voice.provider_result.
  repeat case_bool_decide; destruct o;
    (left; eexists; split; reflexivity) || (right; eexists; split; reflexivity).
Qed.

Lemma voice_jobs_store_user_voice a id r s :
  Voice.voice_jobs (Voice.store_user_voice a id r s) = Voice.voice_jobs s
  ∧ Voice.providers (Voice.store_user_voice a id r s) = Voice.providers s.
Proof.
  unfold Voice.store_user_voice.
  destruct (Voice.user_id a); [destruct (opt_truthy _)|]; done.
Qed.

Lemma finish_spec (c : Voice.call) (o : io nat) (now : nat) (s : Voice.backend) (job : dict) :
  Voice.voice_jobs s !! Voice.c_job_id c = Some job →
  ∃ s' d job' st,
    Voice.generate_voice_finish c o now s = (s', d)
    ∧ (∀ id', Voice.voice_jobs s' !! id'
              = if decide (Voice.c_job_id c = id') then Some job'
                else Voice.voice_jobs s !! id')
    ∧ Voice.providers s' = Voice.providers s
    ∧ d !! "status" = Some (PStr st)
    ∧ status_of job' = Some st
    ∧ job' !! "provider" = job !! "provider"
    ∧ job' !! "voice_id" = job !! "voice_id"
    ∧ job' !! "created_at" = job !! "created_at"
    ∧ ((st = "completed" ∧ progress_of job' = Some 100%Z
        ∧ (∃ u, job' !! "audio_url" = Some (PStr u)) ∧ job' !! "error" = job !! "error")
       ∨ (st = "failed" ∧ progress_of job' = progress_of job
          ∧ (∃ m, job' !! "error" = Some (PStr m))
          ∧ job' !! "audio_url" = job !! "audio_url")).
Proof.
  intros Hjob.
  unfold Voice.generate_voice_finish, Voice.generate_voice_body.
  destruct (provider_result_cases (Voice.c_args c) o) as [(u & Hst & Hu)|(m & Hst & Hm)];
    unfold getitem at 1; rewrite Hst; simpl is_str; cbn iota.
  - set (s1 := Voice.store_user_voice _ _ _ _).
    set (job' := assign
      [("status", PStr "completed"); ("progress", PInt 100);
       ("audio_url", get (Voice.provider_result (Voice.c_args c) o) "audio_url");
       ("duration", get_or (Voice.provider_result (Voice.c_args c) o) "duration" (PInt 0));
       ("file_size", get_or (Voice.provider_result (Voice.c_args c) o) "file_size" (PInt 0));
       ("completed_at", PIso true now)] job).
    assert (Hs1 : ∀ id', Voice.voice_jobs s1 !! id'
              = if decide (Voice.c_job_id c = id') then Some job'
                else Voice.voice_jobs s !! id').
    { intros id'. subst s1.
      rewrite (proj1 (voice_jobs_store_user_voice _ _ _ _)). simpl.
      rewrite lookup_setitems. case_decide; [subst id'; by rewrite Hjob|done]. }
    assert (Hst' : job' !! "status" = Some (PStr "completed")) by (subst job'; by dict_lookup).
    unfold Voice.returned, Voice.job_item.
    rewrite (Hs1 (Voice.c_job_id c)), decide_True by done.
    unfold getitem. rewrite Hst'. simpl.
    eexists s1, _, job', "completed".
    split_and!; try done.
    + subst s1. by rewrite (proj2 (voice_jobs_store_user_voice _ _ _ _)).
    + unfold status_of. by rewrite Hst'.
    + subst job'. by dict_lookup.
    + subst job'. by dict_lookup.
    + subst job'. by dict_lookup.
    + left. split_and!; try done.
      * subst job'. unfold progress_of. by dict_lookup.
      * exists u. subst job'. dict_lookup. unfold get. by rewrite Hu.
      * subst job'. by dict_lookup.
  - set (s1 := Voice.mark_failed _ _ _ _).
    set (job' := assign
      [("status", PStr "failed");
       ("error", get_or (Voice.provider_result (Voice.c_args c) o) "error"
                   (PStr "Unknown error"));
       ("failed_at", PIso true now)] job).
    assert (Hs1 : ∀ id', Voice.voice_jobs s1 !! id'
              = if decide (Voice.c_job_id c = id') then Some job'
                else Voice.voice_jobs s !! id').
    { intros id'. subst s1. simpl.
      rewrite lookup_setitems. case_decide; [subst id'; by rewrite Hjob|done]. }
    assert (Hst' : job' !! "status" = Some (PStr "failed")) by (subst job'; by dict_lookup).
    unfold Voice.returned, Voice.job_item.
    rewrite (Hs1 (Voice.c_job_id c)), decide_True by done.
    unfold getitem. rewrite Hst'. simpl.
    eexists s1, _, job', "failed".
    split_and!; try done.
    + unfold status_of. by rewrite Hst'.
    + subst job'. by dict_lookup.
    + subst job'. by dict_lookup.
    + subst job'. by dict_lookup.
    + right. split_and!; try done.
      * subst job'. unfold progress_of. by dict_lookup.
      * exists m. subst job'. dict_lookup. unfold get_or. by rewrite Hm.
      * subst job'. by dict_lookup.
Qed.

Lemma submit_spec (a : Voice.voice_args) (uuid : string) (now : nat) (s : Voice.backend) :
  (∃ d, Voice.generate_voice_submit a uuid now s = (s, inl d)
        ∧ (Voice.providers s !! Voice.provider_name a = None
           ∨ ∃ p, Voice.providers s !! Voice.provider_name a = Some p
                  ∧ Voice.enabled p = false))
  ∨ (∃ s' job p,
       Voice.generate_voice_submit a uuid now s
         = (s', inr {| Voice.c_args := a; Voice.c_job_id := uuid |})
       ∧ Voice.providers s !! Voice.provider_name a = Some p ∧ Voice.enabled p = true
       ∧ Voice.voice_jobs s' = <[uuid := job]> (Voice.voice_jobs s)
       ∧ Voice.providers s' = Voice.providers s
       ∧ voice_job_ok job true).
Proof.
  unfold Voice.generate_voice_submit.
  destruct (Voice.providers s !! Voice.provider_name a) as [p|] eqn:Hp.
  - destruct (Voice.enabled p) eqn:He; simpl.
    + right. eexists _, _, p. split_and!; try done.
      unfold voice_job_ok, status_of, progress_of.
      split_and!; try (eexists; reflexivity).
      left. split_and!; reflexivity.
    + left. eexists. split; [done|]. right. by exists p.
  - left. eexists. split; [done|]. by left.
Qed.

Lemma voice_job_ok_finished (job job' : dict) (st : string) :
  voice_job_ok job true →
  status_of job' = Some st →
  job' !! "provider" = job !! "provider" →
  job' !! "voice_id" = job !! "voice_id" →
  job' !! "created_at" = job !! "created_at" →
  (st = "completed" ∧ progress_of job' = Some 100%Z
   ∧ (∃ u, job' !! "audio_url" = Some (PStr u)) ∧ job' !! "error" = job !! "error")
  ∨ (st = "failed" ∧ progress_of job' = progress_of job
     ∧ (∃ m, job' !! "error" = Some (PStr m))
     ∧ job' !! "audio_url" = job !! "audio_url") →
  voice_job_ok job' false.
Proof.
  intros (Hp & Hv & Hc & Hshape) Hst E1 E2 E3 Hcase.
  unfold voice_job_ok. rewrite E1, E2, E3. split_and!; try done.
  destruct Hshape as [(_ & _ & Hprog & Herr & Hurl)|[(_ & [=] & _)|(_ & [=] & _)]].
  destruct Hcase as [(-> & Hp' & Hu & He)|(-> & Hp' & Hm & Hu)].
  - right; left. rewrite He. done.
  - right; right. rewrite Hp', Hu. done.
Qed.

Lemma voice_step (e : App.event) (σ σ' : App.state) (out : output) :
  voice_inv σ → App.exec e σ = Some (σ', out) →
  voice_inv σ' ∧ voice_grows σ σ' ∧ voice_settled σ σ'.
Proof.
  intros Hinv Hexec.
  assert (Hframe : App.voice σ' = App.voice σ → App.voice_calls σ' = App.voice_calls σ →
            voice_inv σ' ∧ voice_grows σ σ' ∧ voice_settled σ σ').
  { intros E1 E2. unfold voice_inv, voice_grows, voice_settled. rewrite E1, E2.
    split_and!; [apply Hinv..| |].
    - intros id job Hjob. exists job. by split.
    - intros id job Hjob Hnone. by split. }
  destruct e; simpl in Hexec;
    try (repeat case_match; simplify_eq; by apply Hframe).
  - (* GenerateVoice *)
    case_bool_decide as Hfresh; [done|].
    apply eq_None_not_Some in Hfresh.
    destruct Hinv as [Hcalls Hjobs].
    destruct (submit_spec a uuid now (App.voice σ))
      as [(d & Hsub & _)|(s' & job & p & Hsub & _ & _ & Hs' & _ & Hok)];
      rewrite Hsub in Hexec; simplify_eq; [by apply Hframe|].
    split_and!.
    + split; simpl.
      * intros id c. rewrite lookup_insert. case_decide as E.
        -- intros [= <-]. subst. rewrite Hs', lookup_insert_eq. by split.
        -- intros Hc. destruct (Hcalls _ _ Hc) as [? ?]. split; [done|].
           rewrite Hs'. by rewrite lookup_insert_ne.
      * intros id job'. rewrite Hs', !lookup_insert. case_decide as E.
        -- intros [= <-]. by rewrite bool_decide_eq_true_2.
        -- apply Hjobs.
    + intros id job' Hjob'. simpl. exists job'. split; [|done].
      rewrite Hs', lookup_insert_ne; [done|]. intros ->. congruence.
    + intros id job' Hjob' Hnone. simpl.
      assert (uuid ≠ id) by (intros ->; congruence).
      by rewrite Hs', !lookup_insert_ne.
  - (* VoiceProviderDone *)
    destruct (App.voice_calls σ !! job_id) as [c|] eqn:Hc; [|done].
    destruct Hinv as [Hcalls Hjobs].
    destruct (Hcalls _ _ Hc) as [Hid [job Hjob]]. subst job_id.
    destruct (finish_spec c o now (App.voice σ) job Hjob)
      as (s' & d & job' & st & Hfin & Hlook & _ & _ & Hst & E1 & E2 & E3 & Hcase).
    rewrite Hfin in Hexec. simplify_eq.
    pose proof (Hjobs _ _ Hjob) as Hok. rewrite bool_decide_eq_true_2 in Hok by eauto.
    split_and!.
    + split; simpl.
      * intros id c'. rewrite lookup_delete. case_decide as E; [done|].
        intros Hc'. destruct (Hcalls _ _ Hc') as [? ?]. split; [done|].
        rewrite Hlook. by rewrite decide_False.
      * intros id job''. rewrite Hlook, lookup_delete.
        case_decide as E.
        -- intros [= <-]. rewrite bool_decide_eq_false_2 by (by intros [? ?]).
           by eapply voice_job_ok_finished.
        -- apply Hjobs.
    + intros id job0 Hjob0. simpl. rewrite Hlook. case_decide as E.
      * subst id. simplify_eq. exists job'. split; [done|].
        destruct Hok as (_ & _ & _ & [(Hs & _ & Hp & _)|[(_ & [=] & _)|(_ & [=] & _)]]).
        rewrite (rank_processing _ _ Hs Hp).
        rewrite (rank_other job' st Hst); [lia|].
        by destruct Hcase as [(-> & _)|(-> & _)].
      * by exists job0.
    + intros id job0 Hjob0 Hnone. simpl.
      assert (Voice.c_job_id c ≠ id) by (intros <-; congruence).
      by rewrite Hlook, decide_False, lookup_delete_ne.
  - (* GetVoiceStatus *)
    pose proof (get_voice_status_state job_id (App.voice σ)) as E.
    destruct (Voice.get_voice_status job_id (App.voice σ)) as [v r].
    simpl in E. simplify_eq. by apply Hframe.
Qed.

(** ** The content backend *)

Lemma content_resume_job_id (t : Content.task) (i : Content.tick) (s : Content.backend) :
  Content.t_job_id (Content.resume t i s).2 = Content.t_job_id t.
Proof.
  unfold Content.resume.
  destruct (Content.t_pc t); try done.
  - by destruct (Content.generation_jobs s !! _).
  - by destruct (Content.work i).
  - by destruct (Content.work i).
Qed.

Lemma content_resume_other (t : Content.task) (i : Content.tick) (s : Content.backend) (id' : string) :
  Content.t_job_id t ≠ id' →
  Content.generation_jobs (Content.resume t i s).1 !! id' = Content.generation_jobs s !! id'.
Proof.
  intros Hne. unfold Content.resume, Content.fail_job.
  destruct (Content.t_pc t); try done.
  - by destruct (Content.generation_jobs s !! _).
  - cbn. by rewrite lookup_setitems, decide_False.
  - destruct (Content.work i); cbn; by rewrite !lookup_setitems, !decide_False.
  - destruct (Content.work i); cbn; by rewrite !lookup_setitems, !decide_False.
  - cbn. by rewrite lookup_setitems, decide_False.
Qed.

Lemma content_resume_absent (t : Content.task) (i : Content.tick) (s : Content.backend) :
  Content.generation_jobs s !! Content.t_job_id t = None →
  Content.generation_jobs (Content.resume t i s).1 !! Content.t_job_id t = None.
Proof.
  intros Hnone. unfold Content.resume, Content.fail_job.
  destruct (Content.t_pc t); try done.
  - by rewrite Hnone.
  - cbn. by rewrite lookup_setitems, decide_True, Hnone.
  - destruct (Content.work i); cbn; by rewrite !lookup_setitems, !decide_True, Hnone.
  - destruct (Content.work i); cbn; by rewrite !lookup_setitems, !decide_True, Hnone.
  - cbn. by rewrite lookup_setitems, decide_True, Hnone.
Qed.

Lemma content_resume_spec (t : Content.task) (i : Content.tick) (s : Content.backend) (job : dict) :
  Content.generation_jobs s !! Content.t_job_id t = Some job →
  content_job_ok job (Content.t_pc t) →
  Content.finished (Content.t_pc t) = false →
  ∃ job',
    Content.generation_jobs (Content.resume t i s).1 !! Content.t_job_id t = Some job'
    ∧ content_job_ok job' (Content.t_pc (Content.resume t i s).2)
    ∧ (rank job ≤ rank job')%Z.
Proof.
  destruct t as [a id p]. simpl. intros Hjob Hok Hfin.
  unfold content_job_ok in Hok. rewrite Hfin in Hok.
  destruct Hok as (Hst & (q & Hq & Hq0 & Hqb) & Herr & Hvid).
  rewrite (rank_processing _ _ Hst Hq).
  unfold Content.resume, Content.fail_job, Content.at_pc; simpl.
  destruct p; try done; simpl in *.
  - rewrite Hjob. simpl. exists job. split_and!; try done.
    + unfold content_job_ok. simpl. split_and!; eauto.
    + by rewrite (rank_processing _ _ Hst Hq).
  - eexists. split.
    { rewrite lookup_setitems, decide_True, Hjob by done. reflexivity. }
    unfold content_job_ok, Content.after_script.
    destruct (Content.wants_voice a), (Content.wants_video a); simpl;
      job_fields; rewrite Hst; simpl; (split_and!; [done|eexists; split; [done|lia]|done|by auto|lia]).
  - destruct (Content.work i) as [ts|e]; simpl.
    + eexists. split.
      { rewrite !lookup_setitems, !decide_True, Hjob by done. reflexivity. }
      unfold content_job_ok, Content.after_voice.
      destruct (Content.wants_video a); simpl;
        job_fields; rewrite Hst; simpl; (split_and!; [done|eexists; split; [done|lia]|done|by auto|lia]).
    + eexists. split.
      { rewrite !lookup_setitems, !decide_True, Hjob by done. reflexivity. }
      unfold content_job_ok. simpl. job_fields. simpl.
      split; [|lia]. right. split_and!; eauto.
  - destruct (Content.work i) as [ts|e]; simpl.
    + eexists. split.
      { rewrite !lookup_setitems, !decide_True, Hjob by done. reflexivity. }
      unfold content_job_ok. simpl.
      job_fields; rewrite Hst; simpl; (split_and!; [done|eexists; split; [done|lia]|done|done|lia]).
    + eexists. split.
      { rewrite !lookup_setitems, !decide_True, Hjob by done. reflexivity. }
      unfold content_job_ok. simpl. job_fields. simpl.
      split; [|lia]. right. split_and!; eauto.
  - eexists. split.
    { rewrite !lookup_setitems, !decide_True, Hjob by done. reflexivity. }
    unfold content_job_ok. simpl. job_fields. simpl.
    split; [|lia]. left. split_and!; eauto.
Qed.

Lemma content_grows_refl (σ σ' : App.state) :
  App.content σ' = App.content σ → content_grows σ σ'.
Proof. intros E id job H. exists job. by rewrite E. Qed.

Lemma content_step (e : App.event) (σ σ' : App.state) (out : output) :
  content_inv σ → App.exec e σ = Some (σ', out) →
  content_inv σ' ∧ content_grows σ σ'.
Proof.
  intros Hinv Hexec.
  destruct e; simpl in Hexec;
    try (repeat case_match; simplify_eq;
         (split; [exact Hinv | by apply content_grows_refl])).
  - (* GenerateContent *)
    case_bool_decide as Hfresh; [done|]. apply eq_None_not_Some in Hfresh.
    simplify_eq. destruct Hinv as [Hts Hjobs]. split; [split|]; simpl.
    + intros id t. rewrite lookup_insert. case_decide; [by intros [= <-]|apply Hts].
    + intros id job. rewrite !lookup_insert. case_decide as E.
      * intros [= <-]. eexists. split; [done|].
        unfold content_job_ok. simpl. unfold status_of, progress_of.
        split_and!; try done. by exists 0%Z.
      * apply Hjobs.
    + intros id job Hjob. exists job. split; [|done]. simpl.
      rewrite lookup_insert_ne; [done|]. by intros ->; simplify_eq.
  - (* ContentTaskRuns *)
    destruct (App.content_tasks σ !! job_id) as [t|] eqn:Ht; [|done].
    destruct (Content.finished (Content.t_pc t)) eqn:Hfin; [done|].
    destruct Hinv as [Hts Hjobs]. pose proof (Hts _ _ Ht) as Hid.
    pose proof (content_resume_job_id t i (App.content σ)) as Hid'.
    pose proof (content_resume_other t i (App.content σ)) as Hoth.
    pose proof (content_resume_spec t i (App.content σ)) as Hspec.
    destruct (Content.resume t i (App.content σ)) as [b t'] eqn:Hres.
    simpl in Hid', Hoth, Hspec. subst job_id. simplify_eq.
    assert (Hat : ∀ job, Content.generation_jobs (App.content σ) !! Content.t_job_id t
                         = Some job →
              ∃ job', Content.generation_jobs b !! Content.t_job_id t = Some job'
                      ∧ content_job_ok job' (Content.t_pc t') ∧ (rank job ≤ rank job')%Z).
    { intros job Hjob. destruct (Hjobs _ _ Hjob) as (t0 & Ht0 & Hok). simplify_eq.
      by apply Hspec. }
    assert (Hnone : Content.generation_jobs (App.content σ) !! Content.t_job_id t = None →
              Content.generation_jobs b !! Content.t_job_id t = None).
    { intros Hn. pose proof (content_resume_absent t i (App.content σ) Hn) as Hn'.
      by rewrite Hres in Hn'. }
    split; [split|]; simpl.
    + intros id t''. rewrite lookup_insert.
      case_decide; [intros [= <-]; congruence|apply Hts].
    + intros id job. rewrite lookup_insert. case_decide as E.
      * subst id. intros Hjob.
        destruct (Content.generation_jobs (App.content σ) !! Content.t_job_id t)
          as [job0|] eqn:Hjob0.
        -- destruct (Hat _ eq_refl) as (job' & Hj' & Hok' & _). simplify_eq. eauto.
        -- rewrite Hnone in Hjob; done.
      * rewrite Hoth by done. apply Hjobs.
    + intros id job Hjob. simpl. destruct (decide (Content.t_job_id t = id)) as [<-|E].
      * destruct (Hat _ Hjob) as (job' & Hj' & _ & Hr). eauto.
      * exists job. by rewrite Hoth.
  - (* GetGenerationStatus *)
    pose proof (get_generation_status_state job_id (App.content σ)) as E.
    destruct (Content.get_generation_status job_id (App.content σ)) as [b v].
    simpl in E. simplify_eq. destruct (state_eta σ) as (_ & -> & _).
    split; [done|by apply content_grows_refl].
Qed.

(** ** The publishing backend *)

Lemma touches_only_refl (id : string) (s : Publishing.backend) : touches_only id s s.
Proof.
  exists (λ d, d), (λ d, d). intros id'.
  case_decide; by rewrite ?option_fmap_id.
Qed.

Lemma touches_only_set_job (j : Publishing.store) (id : string)
    (items : list (string * pyval)) (s : Publishing.backend) :
  touches_only id s (Publishing.set_job j id items s).
Proof.
  destruct j; simpl.
  - exists (assign items), (λ d, d). intros id'. simpl.
    rewrite lookup_setitems. case_decide; by rewrite ?option_fmap_id.
  - exists (λ d, d), (assign items). intros id'. simpl.
    rewrite lookup_setitems. case_decide; by rewrite ?option_fmap_id.
Qed.

Lemma touches_only_next_platform j id content rest results i s :
  touches_only id s (Publishing.next_platform j id content rest results i s).1.
Proof.
  destruct rest; simpl; [apply touches_only_set_job|apply touches_only_refl].
Qed.

Lemma touches_only_publish_begin id i s :
  touches_only id s (Publishing.publish_begin id i s).1.
Proof.
  unfold Publishing.publish_begin.
  destruct (Publishing.find_job id s) as [[j job]|]; [|apply touches_only_refl].
  destruct (_ ≫= _) as [[l content]|e]; [apply touches_only_next_platform|].
  simpl. unfold Publishing.publish_failed. case_bool_decide; [|apply touches_only_refl].
  apply (touches_only_set_job Publishing.InPublishing).
Qed.

Lemma touches_only_resume t i s :
  touches_only (Publishing.t_post_id t) s (Publishing.resume t i s).1.
Proof.
  unfold Publishing.resume. destruct (Publishing.t_pc t); simpl;
    try apply touches_only_refl; try apply touches_only_publish_begin.
  - destruct (Publishing.exec_begin _ _ _) as [[]|e]; simpl;
      try apply touches_only_refl; try apply touches_only_publish_begin.
    unfold Publishing.exec_failed. case_bool_decide; [|apply touches_only_refl].
    apply (touches_only_set_job Publishing.InScheduled).
  - apply touches_only_next_platform.
Qed.

Lemma publishing_resume_post_id t i s :
  Publishing.t_post_id (Publishing.resume t i s).2 = Publishing.t_post_id t.
Proof.
  unfold Publishing.resume. destruct (Publishing.t_pc t); try done.
  by destruct (Publishing.exec_begin _ _ _) as [[]|e].
Qed.

Lemma post_ok_move (j : Publishing.store) (job : dict) (p p' : Publishing.pc) :
  post_ok j job p → p ≠ Publishing.Finished → writes_to j p' → post_ok j job p'.
Proof.
  intros (Hw & Hps & Hc & st & Hst & Hcomp & Hfail & Hact) Hp Hw'.
  split_and!; try done. exists st. split_and!; try done.
  - intros E. by destruct (Hcomp E).
  - intros E. by destruct (Hfail E).
  - intros _. by apply Hact.
Qed.

Lemma post_ok_finalize (j : Publishing.store) (job : dict) (p : Publishing.pc)
    (results : dict) (v : pyval) :
  post_ok j job p → p ≠ Publishing.Finished →
  post_ok j (assign [("status", PStr "completed"); ("results", PDict results);
                     ("completed_at", v)] job) Publishing.Finished.
Proof.
  intros (Hw & Hps & Hc & st & Hst & Hcomp & Hfail & Hact) Hp.
  destruct (Hact Hp) as [Herr _].
  split_and!; try done; try (by dict_lookup).
  exists "completed". split_and!; try done.
  - by job_fields.
  - intros _. split_and!; [done|by dict_lookup|eexists; by dict_lookup].
Qed.

Lemma post_ok_fail (job : dict) (p : Publishing.pc) (m : string) :
  post_ok Publishing.InScheduled job p → p ≠ Publishing.Finished →
  post_ok Publishing.InScheduled
    (assign [("status", PStr "failed"); ("error", PStr m)] job) Publishing.Finished.
Proof.
  intros (Hw & Hps & Hc & st & Hst & Hcomp & Hfail & Hact) Hp.
  destruct (Hact Hp) as [Herr Hres].
  split_and!; try done; try (by dict_lookup).
  exists "failed". split_and!; try done.
  - by job_fields.
  - intros _. split_and!; [done|eexists; by dict_lookup|dict_lookup; by apply Hres].
Qed.

Lemma post_ok_cancel (j : Publishing.store) (job : dict) (p : Publishing.pc) :
  post_ok j job p → post_ok j (assign [("status", PStr "cancelled")] job) p.
Proof.
  intros (Hw & Hps & Hc & st & Hst & Hcomp & Hfail & Hact).
  split_and!; try done; try (by dict_lookup).
  exists "cancelled". split_and!; try done.
  - by job_fields.
  - intros Hp. dict_lookup. by apply Hact.
Qed.

Lemma strs_of_strs (ps : list string) : Publishing.strs_of (PStr <$> ps) = Some ps.
Proof.
  induction ps as [|p ps IH]; [done|].
  change (Publishing.strs_of (PStr <$> p :: ps))
    with ((p ::.) <$> Publishing.strs_of (PStr <$> ps)).
  by rewrite IH.
Qed.

Lemma post_ok_nonempty (j : Publishing.store) (job : dict) (p : Publishing.pc) :
  post_ok j job p → Publishing.truthy_dict (Some job) = Some job.
Proof.
  intros (_ & _ & [c Hc] & _). unfold Publishing.truthy_dict.
  rewrite bool_decide_eq_false_2; [done|]. intros ->. by rewrite lookup_empty in Hc.
Qed.

Lemma find_job_in (j : Publishing.store) (id : string) (s : Publishing.backend)
    (job : dict) (p : Publishing.pc) :
  lookup_in j s id = Some job → lookup_in (other j) s id = None → post_ok j job p →
  Publishing.find_job id s = Some (j, job).
Proof.
  intros Hin Hout Hok. unfold Publishing.find_job.
  destruct j; simpl in *.
  - by rewrite Hin, (post_ok_nonempty _ _ _ Hok).
  - by rewrite Hout, Hin, (post_ok_nonempty _ _ _ Hok).
Qed.

Lemma lookup_in_set_job (j : Publishing.store) (id : string)
    (items : list (string * pyval)) (s : Publishing.backend) :
  lookup_in j (Publishing.set_job j id items s) id = assign items <$> lookup_in j s id
  ∧ lookup_in (other j) (Publishing.set_job j id items s) id = lookup_in (other j) s id.
Proof.
  destruct j; simpl; by rewrite lookup_setitems, decide_True.
Qed.

Lemma next_platform_ok j id content rest results i s job p :
  lookup_in j s id = Some job → lookup_in (other j) s id = None →
  post_ok j job p → p ≠ Publishing.Finished →
  post_step_ok j id (Publishing.next_platform j id content rest results i s).
Proof.
  intros Hin Hout Hok Hp. unfold post_step_ok, Publishing.next_platform.
  destruct rest as [|platform rest]; simpl.
  - destruct (lookup_in_set_job j id
      [("status", PStr "completed"); ("results", PDict results);
       ("completed_at", PIso true (Publishing.now i))] s) as [E1 E2].
    rewrite E1, E2, Hin, Hout. simpl. eexists. split_and!; try done.
    by eapply post_ok_finalize.
  - exists job. split_and!; try done. by eapply post_ok_move.
Qed.

Lemma publish_begin_ok j id i s job p :
  lookup_in j s id = Some job → lookup_in (other j) s id = None →
  post_ok j job p → p ≠ Publishing.Finished →
  post_step_ok j id (Publishing.publish_begin id i s).
Proof.
  intros Hin Hout Hok Hp. unfold Publishing.publish_begin.
  rewrite (find_job_in _ _ _ _ _ Hin Hout Hok).
  pose proof Hok as (_ & [ps Hps] & [c Hc] & _).
  unfold getitem. rewrite Hps, Hc. simpl.
  rewrite strs_of_strs. simpl. by eapply next_platform_ok.
Qed.

Lemma resume_post_ok (t : Publishing.task) (i : Publishing.tick) (s : Publishing.backend)
    (j : Publishing.store) (job : dict) :
  lookup_in j s (Publishing.t_post_id t) = Some job →
  lookup_in (other j) s (Publishing.t_post_id t) = None →
  post_ok j job (Publishing.t_pc t) →
  Publishing.t_pc t ≠ Publishing.Finished →
  post_step_ok j (Publishing.t_post_id t)
    ((Publishing.resume t i s).1, Publishing.t_pc (Publishing.resume t i s).2).
Proof.
  intros Hin Hout Hok Hp.
  pose proof Hok as (Hw & _).
  unfold Publishing.resume.
  destruct (Publishing.t_pc t) eqn:Hpc; simpl in *; try done.
  - subst j. simpl in *.
    destruct (Publishing.exec_begin _ _ _) as [[]|e] eqn:Hb; simpl.
    + exists job. split_and!; try done. by eapply post_ok_move.
    + by eapply (publish_begin_ok Publishing.InScheduled).
    + unfold Publishing.exec_failed.
      rewrite bool_decide_eq_true_2 by (by rewrite Hin).
      unfold post_step_ok. simpl. rewrite lookup_setitems, decide_True, Hin by done.
      simpl. eexists. split_and!; try done. by eapply post_ok_fail.
  - subst j. by eapply (publish_begin_ok Publishing.InScheduled).
  - subst j. by eapply (publish_begin_ok Publishing.InPublishing).
  - subst j. exists job. split_and!; try done. by eapply post_ok_move.
  - subst j. by eapply next_platform_ok.
Qed.

Lemma touches_only_lookup_in (id : string) (s s' : Publishing.backend) :
  touches_only id s s' →
  ∀ j id', ∃ h : dict → dict,
    lookup_in j s' id' = if decide (id = id') then h <$> lookup_in j s id'
                         else lookup_in j s id'.
Proof.
  intros (f & g & H) j id'. destruct (H id') as [H1 H2].
  destruct j; [exists f|exists g]; done.
Qed.

Lemma new_scheduled_ok (id uid : string) (c : dict) (ps : list string) (aware : bool)
    (t now : nat) :
  post_ok Publishing.InScheduled
    (dict_of [("post_id", PStr id); ("user_id", PStr uid); ("content", PDict c);
              ("platforms", Publishing.strs ps); ("schedule_time", PIso aware t);
              ("status", PStr "scheduled"); ("created_at", PIso true now);
              ("optimizations", PDict ∅)])
    Publishing.ExecStart.
Proof.
  split_and!; try done; try (eexists; reflexivity).
  exists "scheduled". split_and!; done.
Qed.

Lemma new_publishing_ok (id uid : string) (c : dict) (ps : list string) (now : nat) :
  post_ok Publishing.InPublishing
    (dict_of [("post_id", PStr id); ("user_id", PStr uid); ("content", PDict c);
              ("platforms", Publishing.strs ps); ("status", PStr "publishing");
              ("created_at", PTime true now); ("results", PDict ∅)])
    Publishing.PubStart.
Proof.
  split_and!; try done; try (eexists; reflexivity).
  exists "publishing". split_and!; done.
Qed.

Lemma other_other (j : Publishing.store) : other (other j) = j.
Proof. by destruct j. Qed.

Lemma store_cases (j j' : Publishing.store) : j' = j ∨ j' = other j.
Proof. destruct j, j'; auto. Qed.

Lemma publishing_inv_add (σ : App.state) (j : Publishing.store) (uuid : string)
    (job : dict) (t : Publishing.task) (b : Publishing.backend) :
  publishing_inv σ →
  lookup_in j (App.publishing σ) uuid = None →
  lookup_in (other j) (App.publishing σ) uuid = None →
  (∀ id, lookup_in j b id
         = if decide (id = uuid) then Some job else lookup_in j (App.publishing σ) id) →
  (∀ id, lookup_in (other j) b id = lookup_in (other j) (App.publishing σ) id) →
  Publishing.t_post_id t = uuid →
  post_ok j job (Publishing.t_pc t) →
  publishing_inv (App.set_publishing b (<[uuid := t]> (App.publishing_tasks σ)) σ).
Proof.
  intros [Hts Hjobs] Hn1 Hn2 Hb Hb' Ht Hok. split; simpl.
  - intros id t'. rewrite lookup_insert.
    case_decide; [intros [= <-]; congruence|apply Hts].
  - intros j' id job'. rewrite lookup_insert.
    destruct (store_cases j j') as [->| ->].
    + rewrite Hb, Hb'. case_decide as E.
      * subst id. intros [= <-]. rewrite decide_True by done. eauto.
      * rewrite decide_False by done. apply Hjobs.
    + rewrite other_other, Hb, Hb'. case_decide as E.
      * subst id. by rewrite Hn2.
      * rewrite decide_False by done. intros H.
        destruct (Hjobs _ _ _ H) as [H1 H2]. by rewrite other_other in H1.
Qed.

Lemma publishing_step (e : App.event) (σ σ' : App.state) (out : output) :
  publishing_inv σ → App.exec e σ = Some (σ', out) → publishing_inv σ'.
Proof.
  intros Hinv Hexec.
  destruct e; simpl in Hexec;
    try (repeat case_match; simplify_eq; exact Hinv).
  - (* SchedulePost *)
    case_bool_decide as Hfresh; [done|].
    assert (H1 : Publishing.publishing_jobs (App.publishing σ) !! uuid = None)
      by (apply eq_None_not_Some; tauto).
    assert (H2 : Publishing.scheduled_posts (App.publishing σ) !! uuid = None)
      by (apply eq_None_not_Some; tauto).
    unfold Publishing.schedule_post in Hexec.
    destruct schedule_time as [str|aware t]; simplify_eq; [by destruct σ|].
    destruct (Publishing._optimize_content_for_platforms content platforms) as [c|e];
      simplify_eq; [|by destruct σ].
    simpl. eapply (publishing_inv_add σ Publishing.InScheduled); try done.
    + intros id. simpl. rewrite lookup_insert. by case_decide; case_decide.
    + apply new_scheduled_ok.
  - (* PublishImmediately *)
    case_bool_decide as Hfresh; [done|].
    assert (H1 : Publishing.publishing_jobs (App.publishing σ) !! uuid = None)
      by (apply eq_None_not_Some; tauto).
    assert (H2 : Publishing.scheduled_posts (App.publishing σ) !! uuid = None)
      by (apply eq_None_not_Some; tauto).
    unfold Publishing.publish_immediately in Hexec.
    destruct (Publishing._optimize_content_for_platforms content platforms) as [c|e];
      simplify_eq; [|by destruct σ].
    simpl. eapply (publishing_inv_add σ Publishing.InPublishing); try done.
    + intros id. simpl. rewrite lookup_insert. by case_decide; case_decide.
    + apply new_publishing_ok.
  - (* PublishingTaskRuns *)
    destruct (App.publishing_tasks σ !! post_id) as [t|] eqn:Ht; [|done].
    destruct Hinv as [Hts Hjobs]. pose proof (Hts _ _ Ht) as Hid.
    pose proof (publishing_resume_post_id t i (App.publishing σ)) as Hid'.
    pose proof (touches_only_resume t i (App.publishing σ)) as Hto.
    pose proof (resume_post_ok t i (App.publishing σ)) as Hspec.
    destruct (Publishing.resume t i (App.publishing σ)) as [b t'] eqn:Hres.
    assert (Hnf : Publishing.t_pc t ≠ Publishing.Finished).
    { intros E. by rewrite E in Hexec. }
    assert (σ' = App.set_publishing b (<[post_id := t']> (App.publishing_tasks σ)) σ)
      as -> by (destruct (Publishing.t_pc t); by simplify_eq).
    clear Hexec. simpl in Hid', Hto, Hspec. subst post_id.
    split; simpl.
    + intros id t''. rewrite lookup_insert.
      case_decide; [intros [= <-]; congruence|apply Hts].
    + intros j id job'. rewrite lookup_insert.
      destruct (touches_only_lookup_in _ _ _ Hto j id) as [h Hh].
      destruct (touches_only_lookup_in _ _ _ Hto (other j) id) as [h' Hh'].
      rewrite Hh, Hh'. case_decide as E.
      * subst id. intros Hj.
        destruct (lookup_in j (App.publishing σ) (Publishing.t_post_id t))
          as [job|] eqn:Hjob; [|done].
        destruct (Hjobs _ _ _ Hjob) as [Hout (t0 & Ht0 & Hok)]. simplify_eq.
        destruct (Hspec j job Hjob Hout Hok Hnf) as (job'' & Hj'' & Hout'' & Hok'').
        simpl in *. rewrite Hout. split; [done|].
        exists t'. split; [done|]. congruence.
      * apply Hjobs.
  - (* CancelScheduledPost *)
    unfold Publishing.cancel_scheduled_post in Hexec.
    case_bool_decide as Hin; simplify_eq; [|by destruct σ].
    destruct Hinv as [Hts Hjobs]. split; [done|].
    cbn [App.publishing App.set_publishing App.publishing_tasks].
    change (Publishing.with_scheduled (setitem post_id "status" (PStr "cancelled"))
              (App.publishing σ))
      with (Publishing.set_job Publishing.InScheduled post_id
              [("status", PStr "cancelled")] (App.publishing σ)).
    intros j id job'.
    pose proof (touches_only_set_job Publishing.InScheduled post_id
                  [("status", PStr "cancelled")] (App.publishing σ)) as Hto.
    destruct (touches_only_lookup_in _ _ _ Hto (other j) id) as [h' Hh'].
    rewrite Hh'.
    destruct (decide (post_id = id)) as [<-|E].
    + destruct j.
      * simpl. intros Hj. destruct (Hjobs Publishing.InPublishing _ _ Hj) as [Hout Ht].
        simpl in Hout. by rewrite Hout.
      * destruct (lookup_in_set_job Publishing.InScheduled post_id
                    [("status", PStr "cancelled")] (App.publishing σ)) as [E1 E2].
        rewrite E1. intros Hj.
        destruct (lookup_in Publishing.InScheduled (App.publishing σ) post_id)
          as [job|] eqn:Hjob; [|done].
        destruct (Hjobs _ _ _ Hjob) as [Hout (t0 & Ht0 & Hok)].
        simpl in Hj. simplify_eq. rewrite Hout. split; [done|].
        exists t0. split; [done|]. by apply post_ok_cancel.
    + destruct (touches_only_lookup_in _ _ _ Hto j id) as [h Hh].
      rewrite Hh, decide_False by done. apply Hjobs.
  - (* GetPublishingStatus *)
    pose proof (get_publishing_status_state post_id (App.publishing σ)) as E.
    destruct (Publishing.get_publishing_status post_id (App.publishing σ)) as [b v].
    simpl in E. simplify_eq. by destruct (state_eta σ) as (_ & _ & ->).
Qed.

(** ** Reachable states *)

Lemma inv_init : inv App.init.
Proof.
  split_and!.
  - split; intros ? ?; simpl; by rewrite lookup_empty.
  - split; intros ? ?; simpl; by rewrite lookup_empty.
  - split; [intros ? ?; simpl; by rewrite lookup_empty|].
    intros [] ? ?; simpl; by rewrite lookup_empty.
Qed.

Lemma inv_exec (e : App.event) (σ σ' : App.state) (out : output) :
  inv σ → App.exec e σ = Some (σ', out) →
  inv σ' ∧ voice_grows σ σ' ∧ content_grows σ σ' ∧ voice_settled σ σ'.
Proof.
  intros (Hv & Hc & Hp) Hexec.
  destruct (voice_step _ _ _ _ Hv Hexec) as (? & ? & ?).
  destruct (content_step _ _ _ _ Hc Hexec) as (? & ?).
  pose proof (publishing_step _ _ _ _ Hp Hexec).
  by split_and!.
Qed.

Lemma inv_run (es : list App.event) (σ σ' : App.state) (outs : list output) :
  inv σ → App.run es σ = Some (σ', outs) →
  inv σ' ∧ voice_grows σ σ' ∧ content_grows σ σ' ∧ voice_settled σ σ'.
Proof.
  revert σ outs. induction es as [|e es IH]; intros σ outs Hinv Hrun; simpl in Hrun.
  - simplify_eq. split_and!; [done|..].
    + intros id job H. exists job. by split.
    + intros id job H. exists job. by split.
    + intros id job H1 H2. by split.
  - destruct (App.exec e σ) as [[σ1 o]|] eqn:Hexec; [|done].
    destruct (App.run es σ1) as [[σ2 os]|] eqn:Hrest; [|done]. simplify_eq.
    destruct (inv_exec _ _ _ _ Hinv Hexec) as (Hinv1 & Hvg & Hcg & Hvs).
    destruct (IH _ _ Hinv1 Hrest) as (Hinv2 & Hvg' & Hcg' & Hvs').
    split_and!; [done|..].
    + intros id job H. destruct (Hvg _ _ H) as (job1 & H1 & ?).
      destruct (Hvg' _ _ H1) as (job2 & H2 & ?). exists job2. split; [done|lia].
    + intros id job H. destruct (Hcg _ _ H) as (job1 & H1 & ?).
      destruct (Hcg' _ _ H1) as (job2 & H2 & ?). exists job2. split; [done|lia].
    + intros id job H Hn. destruct (Hvs _ _ H Hn) as [H1 Hn1]. by apply Hvs'.
Qed.

Lemma run_app (es es' : list App.event) (σ σ1 σ2 : App.state) (o1 o2 : list output) :
  App.run es σ = Some (σ1, o1) → App.run es' σ1 = Some (σ2, o2) →
  App.run (es ++ es') σ = Some (σ2, (o1 ++ o2)%list).
Proof.
  revert σ o1. induction es as [|e es IH]; intros σ o1 H1 H2; simpl in *.
  - by simplify_eq.
  - destruct (App.exec e σ) as [[σ' o]|]; [|done].
    destruct (App.run es σ') as [[σ'' os]|] eqn:Hr; [|done]. simplify_eq.
    by rewrite (IH _ _ Hr H2).
Qed.

Lemma run_app_inv (es es' : list App.event) (σ σ2 : App.state) (o : list output) :
  App.run (es ++ es') σ = Some (σ2, o) →
  ∃ σ1 o1 o2, App.run es σ = Some (σ1, o1) ∧ App.run es' σ1 = Some (σ2, o2).
Proof.
  revert σ o. induction es as [|e es IH]; intros σ o H; simpl in *.
  - by exists σ, [], o.
  - destruct (App.exec e σ) as [[σ' out]|]; [|done].
    destruct (App.run (es ++ es') σ') as [[σ'' os]|] eqn:Hr; [|done]. simplify_eq.
    destruct (IH _ _ Hr) as (σ1 & o1 & o2 & H1 & H2).
    exists σ1, (out :: o1), o2. by rewrite H1.
Qed.

Lemma runs_spec (es : list App.event) :
  runs es = true → App.run es App.init = Some (state_after es, outputs_of es).
Proof.
  unfold runs, state_after, outputs_of.
  by destruct (App.run es App.init) as [[σ o]|].
Qed.

Lemma runs_after (es es' : list App.event) :
  runs (es ++ es') = true →
  ∃ o1 o2, App.run es App.init = Some (state_after es, o1)
           ∧ App.run es' (state_after es) = Some (state_after (es ++ es'), o2).
Proof.
  intros H. pose proof (runs_spec _ H) as Hrun.
  destruct (run_app_inv _ _ _ _ _ Hrun) as (σ1 & o1 & o2 & H1 & H2).
  exists o1, o2. unfold state_after at 1 2. by rewrite H1.
Qed.

Lemma lookup_default {A : Type} (x : option A) (d : A) :
  is_Some x → x = Some (default d x).
Proof. by intros [a ->]. Qed.

(** ** What a view tells about the stored job *)

Lemma voice_view_job (id : string) (σ : App.state) (job : dict) :
  Voice.voice_jobs (App.voice σ) !! id = Some job →
  is_Some (job !! "provider") → is_Some (job !! "voice_id") →
  is_Some (job !! "created_at") →
  ∀ st, status_of job = Some st →
  ∃ view, voice_view id σ = Some view ∧ status_of view = Some st
          ∧ view !! "progress" = Some (get_or job "progress" (PInt 0)).
Proof.
  intros Hjob [p Hp] [v Hv] [c Hc] st Hst.
  unfold voice_view, Voice.get_voice_status. rewrite Hjob. simpl.
  unfold status_of in Hst.
  destruct (job !! "status") as [[]|] eqn:Hs; simplify_eq.
  unfold getitem. rewrite Hs, Hp, Hv, Hc. simpl.
  eexists. split; [done|]. split; [unfold status_of|]; by dict_lookup.
Qed.

Lemma voice_view_rank (id : string) (σ : App.state) (p : Z) :
  processing_progress (voice_view id σ) = Some p →
  ∃ job, Voice.voice_jobs (App.voice σ) !! id = Some job ∧ rank job = p.
Proof.
  unfold voice_view, Voice.get_voice_status.
  destruct (Voice.voice_jobs (App.voice σ) !! id) as [job|]; simpl.
  - intros H. exists job. split; [done|]. revert H.
    unfold getitem.
    destruct (job !! "status") as [st|] eqn:Hs; [|done].
    destruct (job !! "provider"); [|done].
    destruct (job !! "voice_id"); [|done].
    destruct (job !! "created_at"); [|done]. simpl.
    unfold processing_progress, rank, status_of, progress_of. dict_lookup.
    rewrite Hs. destruct st; try done.
    case_bool_decide; [|done].
    unfold get_or. by destruct (job !! "progress") as [[]|]; simpl; intros [= <-].
  - unfold processing_progress, status_of. dict_lookup. by case_bool_decide.
Qed.

Lemma content_view_fields (id : string) (σ : App.state) (view : dict) :
  content_view id σ = Some view →
  ∃ job, Content.generation_jobs (App.content σ) !! id = Some job
         ∧ status_of view = status_of job ∧ progress_of view = progress_of job
         ∧ view !! "error" = job !! "error" ∧ view !! "video_file" = job !! "video_file".
Proof.
  unfold content_view, Content.get_generation_status, Content.truthy_dict.
  destruct (Content.generation_jobs (App.content σ) !! id) as [job|]; [|done].
  case_bool_decide; [done|]. simpl. intros [= <-]. exists job.
  unfold status_of, progress_of. by rewrite !isoformat_other.
Qed.

Lemma content_view_rank (id : string) (σ : App.state) (p : Z) :
  processing_progress (content_view id σ) = Some p →
  ∃ job, Content.generation_jobs (App.content σ) !! id = Some job ∧ rank job = p.
Proof.
  destruct (content_view id σ) as [view|] eqn:Hview; [|done].
  destruct (content_view_fields _ _ _ Hview) as (job & Hjob & Hs & Hp & _).
  unfold processing_progress. rewrite Hs, Hp.
  destruct (status_of job) as [st|] eqn:Hst; [|done].
  case_bool_decide; [subst st|done].
  intros Hq. exists job. split; [done|]. by apply rank_processing.
Qed.

(** ** Submission with an unknown provider *)

(** C4.  [generate_voice] with a provider name that is not registered returns
    at once, before any [await], the error dict
    [{"status": "error", "error": "Unsupported provider: <name>"}]; the dict
    has no [job_id], and the backend, its job map included, is unchanged. *)
Theorem unknown_provider_rejected (a : Voice.voice_args) (uuid : string) (now now' : nat)
    (o : io nat) (s : Voice.backend) :
  Voice.providers s !! Voice.provider_name a = None →
  ∃ d, Voice.generate_voice_submit a uuid now s = (s, inl d)
       ∧ Voice.generate_voice a uuid now o now' s = (s, d)
       ∧ d !! "status" = Some (PStr "error")
       ∧ d !! "error" = Some (PStr ("Unsupported provider: " +:+ Voice.provider_name a))
       ∧ d !! "job_id" = None
       ∧ Voice.voice_jobs (Voice.generate_voice a uuid now o now' s).1 = Voice.voice_jobs s.
Proof.
  intros Hp. eexists.
  unfold Voice.generate_voice, Voice.generate_voice_submit. rewrite Hp.
  repeat split; reflexivity.
Qed.

Lemma unknown_provider_rejected_witness :
  Voice.providers Voice.init !! Voice.provider_name unknown_call = None
  ∧ ∃ d, Voice.generate_voice_submit unknown_call "j1" 7 Voice.init = (Voice.init, inl d)
       ∧ Voice.generate_voice unknown_call "j1" 7 (Done 9) 9 Voice.init = (Voice.init, d)
       ∧ d !! "status" = Some (PStr "error")
       ∧ d !! "error"
         = Some (PStr ("Unsupported provider: " +:+ Voice.provider_name unknown_call))
       ∧ d !! "job_id" = None
       ∧ Voice.voice_jobs (Voice.generate_voice unknown_call "j1" 7 (Done 9) 9 Voice.init).1
         = Voice.voice_jobs Voice.init.
Proof.
  split; [reflexivity|].
  apply (unknown_provider_rejected unknown_call "j1" 7 9 (Done 9) Voice.init). reflexivity.
Defined.

(** ** The status queries *)

(** C8.  The three status queries hand the backend back as they found it,
    and a query event leaves the whole state of the process unchanged. *)
Theorem status_queries_read_only (id : string) :
  (∀ s, (Voice.get_voice_status id s).1 = s)
  ∧ (∀ s, (Content.get_generation_status id s).1 = s)
  ∧ (∀ s, (Publishing.get_publishing_status id s).1 = s)
  ∧ (∀ σ, ∃ o1 o2 o3,
       App.exec (App.GetVoiceStatus id) σ = Some (σ, o1)
       ∧ App.exec (App.GetGenerationStatus id) σ = Some (σ, o2)
       ∧ App.exec (App.GetPublishingStatus id) σ = Some (σ, o3)).
Proof.
  split_and!.
  - apply get_voice_status_state.
  - apply get_generation_status_state.
  - apply get_publishing_status_state.
  - apply query_events_state.
Qed.

(** C3, as the specification has it, fails: the generation query and the
    publishing query on an id that was never created hand back [None],
    which is no error signal. *)
Lemma unknown_id_returns_none :
  App.exec (App.GetGenerationStatus "nonexistent") App.init = Some (App.init, Returned PNone)
  ∧ App.exec (App.GetPublishingStatus "nonexistent") App.init
    = Some (App.init, Returned PNone)
  ∧ ¬ signals_not_found (Returned PNone).
Proof. split_and!; try reflexivity. intros []. Qed.

(** C3, amended.  For an id that is stored nowhere, [get_voice_status]
    returns the error dict [{"status": "error", "error": "Job not found"}],
    while [get_generation_status] and [get_publishing_status] return [None];
    none of them raises, and none hands back a job record. *)
Theorem unknown_id_signal (id : string) (v : Voice.backend) (c : Content.backend)
    (p : Publishing.backend) :
  Voice.voice_jobs v !! id = None →
  Content.generation_jobs c !! id = None →
  Publishing.publishing_jobs p !! id = None →
  Publishing.scheduled_posts p !! id = None →
  Voice.get_voice_status id v
    = (v, Ok (dict_of [("status", PStr "error"); ("error", PStr "Job not found")]))
  ∧ signals_not_found (App.of_res (Voice.get_voice_status id v).2)
  ∧ Content.get_generation_status id c = (c, PNone)
  ∧ Publishing.get_publishing_status id p = (p, PNone).
Proof.
  intros Hv Hc Hp Hs.
  unfold Voice.get_voice_status, Content.get_generation_status,
    Publishing.get_publishing_status, Publishing.find_job.
  rewrite Hv, Hc, Hp, Hs. split_and!; reflexivity.
Qed.

Lemma unknown_id_signal_witness :
  Voice.voice_jobs Voice.init !! "nonexistent" = None
  ∧ Content.generation_jobs Content.init !! "nonexistent" = None
  ∧ Publishing.publishing_jobs Publishing.init !! "nonexistent" = None
  ∧ Publishing.scheduled_posts Publishing.init !! "nonexistent" = None
  ∧ Voice.get_voice_status "nonexistent" Voice.init
    = (Voice.init, Ok (dict_of [("status", PStr "error"); ("error", PStr "Job not found")]))
  ∧ signals_not_found (App.of_res (Voice.get_voice_status "nonexistent" Voice.init).2)
  ∧ Content.get_generation_status "nonexistent" Content.init = (Content.init, PNone)
  ∧ Publishing.get_publishing_status "nonexistent" Publishing.init
    = (Publishing.init, PNone).
Proof.
  split_and!; [reflexivity..|].
  apply (unknown_id_signal "nonexistent" Voice.init Content.init Publishing.init);
    reflexivity.
Defined.

(** ** Result and error *)











(** ** Cancellation *)

(** C2.  Cancelling a post that is being published does not end in
    [cancelled]: in the schedule [cancel_between_platforms] a post for two
    platforms is cancelled after the first one.  The call answers [Post
    cancelled successfully], and right after it the record is [cancelled],
    without [completed_at]; but the task goes on, publishes to the second
    platform, and in the end the record is [completed], with the
    [completed_at] of the publication and with the result of the platform
    that was published after the cancellation. *)
Lemma cancelled_post_is_published :
  (view_at cancel_between_platforms 3 ≫= (.!! "message"))
    = Some (PStr "Post cancelled successfully")
  ∧ (view_at cancel_between_platforms 4 ≫= status_of) = Some "cancelled"
  ∧ (view_at cancel_between_platforms 4 ≫= (.!! "completed_at")) = None
  ∧ results_include (view_at cancel_between_platforms 4) "facebook" = false
  ∧ (view_at cancel_between_platforms 8 ≫= status_of) = Some "completed"
  ∧ (view_at cancel_between_platforms 8 ≫= (.!! "completed_at")) = Some (PIso true 116)
  ∧ results_include (view_at cancel_between_platforms 8) "facebook" = true.
Proof. split_and!; vm_compute; reflexivity. Qed.

(** C1.  Terminal statuses are not absorbing for scheduled posts.  In the
    schedule [cancel_then_publish] the queries show [cancelled], then, once
    the task of the post has run, [completed], and after a second
    cancellation [cancelled] again. *)
Theorem terminal_status_overwritten :
  statuses cancel_then_publish
  = Some [Some "success"; None; Some "success"; Some "cancelled"; None; None; None;
          Some "completed"; Some "success"; Some "cancelled"]
  ∧ terminal "cancelled" ∧ terminal "completed".
Proof.
  split; [vm_compute; reflexivity|]. unfold terminal. auto.
Qed.

(** ** A voice call from submission to return *)

Lemma voice_submit_suspends (σ : App.state) (a : Voice.voice_args) (uuid : string)
    (now : nat) (p : Voice.provider) :
  Voice.voice_jobs (App.voice σ) !! uuid = None →
  Voice.providers (App.voice σ) !! Voice.provider_name a = Some p →
  Voice.enabled p = true →
  ∃ σ1, App.exec (App.GenerateVoice a uuid now) σ = Some (σ1, Suspended)
        ∧ is_Some (App.voice_calls σ1 !! uuid).
Proof.
  intros Hfresh Hp He. simpl.
  rewrite bool_decide_eq_false_2 by (rewrite Hfresh; by intros [? ?]).
  destruct (submit_spec a uuid now (App.voice σ))
    as [(d & Hsub & [Hn|(p' & Hp' & He')])|(s' & job & p' & Hsub & _)];
    [congruence|congruence|].
  rewrite Hsub. eexists. split; [done|]. simpl. by rewrite lookup_insert_eq.
Qed.

Lemma voice_return (σ : App.state) (id : string) (o : io nat) (now : nat) :
  inv σ → is_Some (App.voice_calls σ !! id) →
  ∃ σ' d job st,
    App.exec (App.VoiceProviderDone id o now) σ = Some (σ', Returned (PDict d))
    ∧ Voice.voice_jobs (App.voice σ') !! id = Some job
    ∧ App.voice_calls σ' !! id = None
    ∧ status_of job = Some st
    ∧ d !! "status" = Some (PStr st)
    ∧ (st = "completed" ∨ st = "failed").
Proof.
  intros ((Hcalls & Hjobs) & _) [c Hc].
  destruct (Hcalls _ _ Hc) as [Hid [job Hjob]]. subst id.
  destruct (finish_spec c o now (App.voice σ) job Hjob)
    as (s' & d & job' & st & Hfin & Hlook & _ & Hd & Hst & _ & _ & _ & Hcase).
  simpl. rewrite Hc, Hfin. exists (App.set_voice s' (delete (Voice.c_job_id c)
                                     (App.voice_calls σ)) σ), d, job', st.
  split_and!; try done.
  - simpl. by rewrite Hlook, decide_True.
  - simpl. by rewrite lookup_delete_eq.
  - by destruct Hcase as [(-> & _)|(-> & _)]; [left|right].
Qed.

Lemma settled_voice_view (σ σ' : App.state) (es : list App.event) (outs : list output)
    (id : string) (job : dict) (st : string) :
  inv σ → App.run es σ = Some (σ', outs) →
  Voice.voice_jobs (App.voice σ) !! id = Some job →
  App.voice_calls σ !! id = None →
  status_of job = Some st →
  ∃ view, voice_view id σ' = Some view ∧ status_of view = Some st.
Proof.
  intros Hinv Hrun Hjob Hnone Hst.
  destruct (inv_run _ _ _ _ Hinv Hrun) as (((_ & Hjobs') & _) & _ & _ & Hsettled).
  destruct (Hsettled _ _ Hjob Hnone) as [Hjob' _].
  destruct (Hjobs' _ _ Hjob') as (Hp & Hv & Hc & _).
  destruct (voice_view_job id σ' job Hjob' Hp Hv Hc st Hst) as (view & ? & ? & _).
  eauto.
Qed.

(** C9.  From any reachable state, a [generate_voice] call with a registered,
    enabled provider and a fresh id is suspended at its provider; whatever
    runs meanwhile, when the provider answers the call returns with the
    stored job [completed] or [failed], and every later status query shows
    that same status: [processing] is never seen after the return. *)
Theorem voice_call_returns_terminal (es : list App.event) (σ : App.state)
    (outs : list output) (a : Voice.voice_args) (uuid : string) (now : nat)
    (p : Voice.provider) :
  App.run es App.init = Some (σ, outs) →
  Voice.voice_jobs (App.voice σ) !! uuid = None →
  Voice.providers (App.voice σ) !! Voice.provider_name a = Some p →
  Voice.enabled p = true →
  ∃ σ1, App.exec (App.GenerateVoice a uuid now) σ = Some (σ1, Suspended)
    ∧ ∀ mid σ1' outs1 o now',
        App.run mid σ1 = Some (σ1', outs1) →
        is_Some (App.voice_calls σ1' !! uuid) →
        ∃ σ2 d job st,
          App.exec (App.VoiceProviderDone uuid o now') σ1' = Some (σ2, Returned (PDict d))
          ∧ Voice.voice_jobs (App.voice σ2) !! uuid = Some job
          ∧ status_of job = Some st
          ∧ (st = "completed" ∨ st = "failed")
          ∧ ∀ later σ3 outs3,
              App.run later σ2 = Some (σ3, outs3) →
              ∃ view, voice_view uuid σ3 = Some view ∧ status_of view = Some st.
Proof.
  intros Hrun Hfresh Hp He.
  destruct (inv_run _ _ _ _ inv_init Hrun) as (Hinv & _).
  destruct (voice_submit_suspends σ a uuid now p Hfresh Hp He) as (σ1 & Hsub & _).
  exists σ1. split; [done|].
  intros mid σ1' outs1 o now' Hmid Hpending.
  destruct (inv_exec _ _ _ _ Hinv Hsub) as (Hinv1 & _).
  destruct (inv_run _ _ _ _ Hinv1 Hmid) as (Hinv1' & _).
  destruct (voice_return σ1' uuid o now' Hinv1' Hpending)
    as (σ2 & d & job & st & Hret & Hjob & Hnone & Hst & _ & Hterm).
  exists σ2, d, job, st. split_and!; try done.
  intros later σ3 outs3 Hlater.
  destruct (inv_exec _ _ _ _ Hinv1' Hret) as (Hinv2 & _).
  by eapply settled_voice_view.
Qed.

Lemma voice_call_returns_terminal_witness :
  App.run [] App.init = Some (App.init, [])
  ∧ Voice.voice_jobs (App.voice App.init) !! "v1" = None
  ∧ Voice.providers (App.voice App.init) !! Voice.provider_name hello = Some elevenlabs
  ∧ Voice.enabled elevenlabs = true
  ∧ ∃ σ1, App.exec (App.GenerateVoice hello "v1" 10) App.init = Some (σ1, Suspended)
    ∧ ∀ mid σ1' outs1 o now',
        App.run mid σ1 = Some (σ1', outs1) →
        is_Some (App.voice_calls σ1' !! "v1") →
        ∃ σ2 d job st,
          App.exec (App.VoiceProviderDone "v1" o now') σ1' = Some (σ2, Returned (PDict d))
          ∧ Voice.voice_jobs (App.voice σ2) !! "v1" = Some job
          ∧ status_of job = Some st
          ∧ (st = "completed" ∨ st = "failed")
          ∧ ∀ later σ3 outs3,
              App.run later σ2 = Some (σ3, outs3) →
              ∃ view, voice_view "v1" σ3 = Some view ∧ status_of view = Some st.
Proof.
  split_and!; [reflexivity..|].
  apply (voice_call_returns_terminal [] App.init [] hello "v1" 10 elevenlabs);
    reflexivity.
Defined.

(** C10.  The dict display [generate_voice] returns has the key [status]
    twice, and the second one wins: for a call with a registered, enabled
    provider the returned [status] is the status of the stored job,
    [completed] or [failed], and never [success]. *)
Theorem returned_status_is_job_status (es : list App.event) (σ : App.state)
    (outs : list output) (a : Voice.voice_args) (uuid : string) (now : nat)
    (p : Voice.provider) :
  App.run es App.init = Some (σ, outs) →
  Voice.voice_jobs (App.voice σ) !! uuid = None →
  Voice.providers (App.voice σ) !! Voice.provider_name a = Some p →
  Voice.enabled p = true →
  ∃ σ1, App.exec (App.GenerateVoice a uuid now) σ = Some (σ1, Suspended)
    ∧ ∀ mid σ1' outs1 o now',
        App.run mid σ1 = Some (σ1', outs1) →
        is_Some (App.voice_calls σ1' !! uuid) →
        ∃ σ2 d job st,
          App.exec (App.VoiceProviderDone uuid o now') σ1' = Some (σ2, Returned (PDict d))
          ∧ Voice.voice_jobs (App.voice σ2) !! uuid = Some job
          ∧ status_of job = Some st
          ∧ d !! "status" = Some (PStr st)
          ∧ (st = "completed" ∨ st = "failed")
          ∧ d !! "status" ≠ Some (PStr "success").
Proof.
  intros Hrun Hfresh Hp He.
  destruct (inv_run _ _ _ _ inv_init Hrun) as (Hinv & _).
  destruct (voice_submit_suspends σ a uuid now p Hfresh Hp He) as (σ1 & Hsub & _).
  exists σ1. split; [done|].
  intros mid σ1' outs1 o now' Hmid Hpending.
  destruct (inv_exec _ _ _ _ Hinv Hsub) as (Hinv1 & _).
  destruct (inv_run _ _ _ _ Hinv1 Hmid) as (Hinv1' & _).
  destruct (voice_return σ1' uuid o now' Hinv1' Hpending)
    as (σ2 & d & job & st & Hret & Hjob & Hnone & Hst & Hd & Hterm).
  exists σ2, d, job, st. split_and!; try done.
  rewrite Hd. by destruct Hterm as [-> | ->].
Qed.

Lemma returned_status_is_job_status_witness :
  App.run [] App.init = Some (App.init, [])
  ∧ Voice.voice_jobs (App.voice App.init) !! "v1" = None
  ∧ Voice.providers (App.voice App.init) !! Voice.provider_name hello = Some elevenlabs
  ∧ Voice.enabled elevenlabs = true
  ∧ ∃ σ1, App.exec (App.GenerateVoice hello "v1" 10) App.init = Some (σ1, Suspended)
    ∧ ∀ mid σ1' outs1 o now',
        App.run mid σ1 = Some (σ1', outs1) →
        is_Some (App.voice_calls σ1' !! "v1") →
        ∃ σ2 d job st,
          App.exec (App.VoiceProviderDone "v1" o now') σ1' = Some (σ2, Returned (PDict d))
          ∧ Voice.voice_jobs (App.voice σ2) !! "v1" = Some job
          ∧ status_of job = Some st
          ∧ d !! "status" = Some (PStr st)
          ∧ (st = "completed" ∨ st = "failed")
          ∧ d !! "status" ≠ Some (PStr "success").
Proof.
  split_and!; [reflexivity..|].
  apply (returned_status_is_job_status [] App.init [] hello "v1" 10 elevenlabs);
    reflexivity.
Defined.

(** ** Progress *)

(** C7.  Along any schedule, the progress a status query shows for a voice
    job or a generation job while its status is [processing] never goes
    down: a value seen earlier is at most any value seen later. *)
Theorem progress_never_decreases (es1 es2 : list App.event) (σ1 σ2 : App.state)
    (o1 o2 : list output) (id : string) (p1 p2 : Z) :
  App.run es1 App.init = Some (σ1, o1) →
  App.run es2 σ1 = Some (σ2, o2) →
  (processing_progress (voice_view id σ1) = Some p1 →
   processing_progress (voice_view id σ2) = Some p2 → (p1 ≤ p2)%Z)
  ∧ (processing_progress (content_view id σ1) = Some p1 →
     processing_progress (content_view id σ2) = Some p2 → (p1 ≤ p2)%Z).
Proof.
  intros H1 H2.
  destruct (inv_run _ _ _ _ inv_init H1) as (Hinv & _).
  destruct (inv_run _ _ _ _ Hinv H2) as (_ & Hvg & Hcg & _).
  split; intros Hp1 Hp2.
  - destruct (voice_view_rank _ _ _ Hp1) as (job1 & Hj1 & <-).
    destruct (voice_view_rank _ _ _ Hp2) as (job2 & Hj2 & <-).
    destruct (Hvg _ _ Hj1) as (job2' & Hj2' & Hle). by simplify_eq.
  - destruct (content_view_rank _ _ _ Hp1) as (job1 & Hj1 & <-).
    destruct (content_view_rank _ _ _ Hp2) as (job2 & Hj2 & <-).
    destruct (Hcg _ _ Hj1) as (job2' & Hj2' & Hle). by simplify_eq.
Qed.

Lemma progress_never_decreases_witness :
  ∃ o1 o2,
    App.run busy_day App.init = Some (state_after busy_day, o1)
    ∧ App.run rest_of_day (state_after busy_day)
      = Some (state_after (busy_day ++ rest_of_day), o2)
    ∧ processing_progress (content_view "j1" (state_after busy_day)) = Some 20%Z
    ∧ processing_progress (content_view "j1" (state_after (busy_day ++ rest_of_day)))
      = Some 60%Z
    ∧ (20 ≤ 60)%Z.
Proof.
  destruct (runs_after busy_day rest_of_day) as (o1 & o2 & H1 & H2);
    [vm_compute; reflexivity|].
  assert (H3 : processing_progress (content_view "j1" (state_after busy_day)) = Some 20%Z)
    by (vm_compute; reflexivity).
  assert (H4 : processing_progress
                 (content_view "j1" (state_after (busy_day ++ rest_of_day))) = Some 60%Z)
    by (vm_compute; reflexivity).
  exists o1, o2. split_and!; [exact H1|exact H2|exact H3|exact H4|].
  exact (proj2 (progress_never_decreases busy_day rest_of_day _ _ _ _ "j1" 20 60 H1 H2)
           H3 H4).
Defined.

(** C5, as the specification has it, fails: a video job with a voice model
    and an avatar has four stages, and after the first one its progress is
    20, not [round(100 * 1 / 4) = 25]. *)
Lemma progress_is_not_proportional :
  length (Content.stage_sequence reel) = 4
  ∧ (job_after reel [wrote 1; wrote 2] ≫= progress_of) = Some 20%Z
  ∧ spec_progress 0 4 = 25%Z.
Proof. split_and!; vm_compute; reflexivity. Qed.

Lemma run_task_app (ticks ticks' : list Content.tick) (t : Content.task)
    (s : Content.backend) :
  run_task (ticks ++ ticks') t s
  = run_task ticks' (run_task ticks t s).2 (run_task ticks t s).1.
Proof.
  revert t s. induction ticks as [|i ticks IH]; intros t s; simpl; [done|].
  destruct (Content.resume t i s) as [s' t']. apply IH.
Qed.

(** A segment whose work succeeds leaves the job in place and moves the
    task to the next suspension point. *)
Lemma resume_next (a : Content.gen_args) (id : string) (p : Content.pc)
    (i : Content.tick) (s : Content.backend) :
  is_Some (Content.generation_jobs s !! id) → succeeds i →
  ∃ s', Content.resume {| Content.t_args := a; Content.t_job_id := id; Content.t_pc := p |}
          i s
        = (s', {| Content.t_args := a; Content.t_job_id := id;
                  Content.t_pc := next_pc a p |})
        ∧ is_Some (Content.generation_jobs s' !! id).
Proof.
  intros [job Hjob] [ts Hts]. unfold Content.resume, Content.at_pc.
  destruct p; cbn [Content.t_pc Content.t_job_id Content.t_args next_pc];
    rewrite ?Hjob, ?Hts; eexists; (split; [reflexivity|]);
    cbn [Content.generation_jobs Content.with_jobs];
    rewrite ?lookup_setitems, ?decide_True, ?Hjob by done; by eexists.
Qed.

Lemma run_task_pc (a : Content.gen_args) (id : string) (ticks : list Content.tick)
    (p : Content.pc) (s : Content.backend) :
  is_Some (Content.generation_jobs s !! id) → Forall succeeds ticks →
  ∃ s', run_task ticks
          {| Content.t_args := a; Content.t_job_id := id; Content.t_pc := p |} s
        = (s', {| Content.t_args := a; Content.t_job_id := id;
                  Content.t_pc := Nat.iter (length ticks) (next_pc a) p |})
        ∧ is_Some (Content.generation_jobs s' !! id).
Proof.
  revert p s. induction ticks as [|i ticks IH]; intros p s Hjob Hall.
  - by exists s.
  - inversion Hall as [|? ? Hi Hall']; subst.
    destruct (resume_next a id p i s Hjob Hi) as (s1 & Hres & Hjob1).
    destruct (IH (next_pc a p) s1 Hjob1 Hall') as (s' & Hrun & Hjob').
    exists s'. split; [|done]. cbn [run_task length]. rewrite Hres, Hrun.
    by rewrite Nat.iter_succ_r.
Qed.

(** The [i]-th stage of the stage sequence starts from the suspension point
    the task reaches after its start and [i] successful stages. *)
Lemma stage_pc (a : Content.gen_args) (i : nat) (stg : Content.stage) :
  Content.stage_sequence a !! i = Some stg →
  Nat.iter (S i) (next_pc a) Content.Start = pc_of_stage stg.
Proof.
  unfold Content.stage_sequence, Content.after_script, Content.after_voice.
  destruct (Content.wants_voice a) eqn:Hv, (Content.wants_video a) eqn:Hw;
    destruct i as [|[|[|[|i]]]]; intros H; simplify_eq/=;
    repeat (progress (cbn [next_pc]; unfold Content.after_script, Content.after_voice;
                      rewrite ?Hv, ?Hw));
    done.
Qed.

(** What the segment of a stage writes when its work succeeds. *)
Lemma stage_segment (a : Content.gen_args) (id : string) (stg : Content.stage)
    (i : Content.tick) (s : Content.backend) :
  is_Some (Content.generation_jobs s !! id) → succeeds i →
  ∃ job,
    Content.generation_jobs
      (Content.resume {| Content.t_args := a; Content.t_job_id := id;
                         Content.t_pc := pc_of_stage stg |} i s).1 !! id = Some job
    ∧ progress_of job = Some (stage_progress stg)
    ∧ job !! "current_step" = Some (PStr (stage_step stg)).
Proof.
  intros [job Hjob] [ts Hts]. unfold Content.resume, Content.at_pc.
  destruct stg; cbn [pc_of_stage Content.t_pc Content.t_job_id Content.t_args];
    rewrite ?Hts; cbn [fst Content.generation_jobs Content.with_jobs];
    rewrite !lookup_setitems, !decide_True, Hjob by done;
    (eexists; split; [reflexivity|]; split; [unfold progress_of|]; by dict_lookup).
Qed.

(** C5, amended.  When the stages of a generation job succeed, then after
    each stage of its stage sequence the job shows the fixed progress the
    code writes for that stage, 20 after the script, 60 after the voice, 85
    after the video, 100 at the end, together with the step text of that
    stage.  The first tick is the start of the task, before any stage. *)
Theorem stage_progress_fixed (a : Content.gen_args) (id : string) (s : Content.backend)
    (ticks : list Content.tick) (i : nat) (stg : Content.stage) :
  is_Some (Content.generation_jobs s !! id) →
  length ticks = S (S i) →
  Forall succeeds ticks →
  Content.stage_sequence a !! i = Some stg →
  ∃ job, Content.generation_jobs (run_task ticks (Content.spawn a id) s).1 !! id = Some job
         ∧ progress_of job = Some (stage_progress stg)
         ∧ job !! "current_step" = Some (PStr (stage_step stg)).
Proof.
  intros Hjob Hlen Hall Hstg.
  destruct (decide (ticks = [])) as [->|Hne]; [done|].
  destruct (exists_last Hne) as (ticks0 & last & ->).
  rewrite length_app in Hlen. simpl in Hlen.
  rewrite Forall_app, Forall_singleton in Hall. destruct Hall as [Hall Hlast].
  destruct (run_task_pc a id ticks0 Content.Start s Hjob Hall) as (s1 & Hrun & Hjob1).
  rewrite run_task_app. unfold Content.spawn. rewrite Hrun. simpl.
  replace (length ticks0) with (S i) by lia.
  rewrite (stage_pc a i stg Hstg).
  destruct (stage_segment a id stg last s1 Hjob1 Hlast) as (job & H1 & H2 & H3).
  destruct (Content.resume _ last s1) as [s2 t2]. eauto.
Qed.

Lemma stage_progress_fixed_witness :
  is_Some (Content.generation_jobs
             (Content.generate_content reel "j1" 1 5 Content.init).1 !! "j1")
  ∧ length [wrote 2; wrote 3; wrote 5] = 3
  ∧ Forall succeeds [wrote 2; wrote 3; wrote 5]
  ∧ Content.stage_sequence reel !! 1 = Some Content.VoiceStage
  ∧ ∃ job, job_after reel [wrote 2; wrote 3; wrote 5] = Some job
           ∧ progress_of job = Some (stage_progress Content.VoiceStage)
           ∧ job !! "current_step" = Some (PStr (stage_step Content.VoiceStage)).
Proof.
  assert (H1 : is_Some (Content.generation_jobs
                          (Content.generate_content reel "j1" 1 5 Content.init).1 !! "j1")).
  { unfold Content.generate_content. simpl. rewrite lookup_insert_eq. by eexists. }
  assert (H3 : Forall succeeds [wrote 2; wrote 3; wrote 5])
    by (repeat constructor; eexists; reflexivity).
  split_and!; [exact H1|reflexivity|exact H3|reflexivity|].
  exact (stage_progress_fixed reel "j1" _ [wrote 2; wrote 3; wrote 5] 1 Content.VoiceStage
           H1 eq_refl H3 eq_refl).
Defined.

(** * Further properties of the code *)

(** ** Content optimisation *)

Lemma value_of_returns (r : res dict) : returns r = true → r = Ok (value_of r).
Proof. by destruct r. Qed.

Lemma str_len_append (s1 s2 : string) : str_len (s1 +:+ s2) = str_len s1 + str_len s2.
Proof.
  induction s1 as [|c s1 IH]; simpl; [done|]. rewrite IH. by destruct (continuation c).
Qed.

(** A slice has as many characters as asked for, or all there are. *)
Lemma str_len_take (n : nat) (s : string) : str_len (str_take n s) = n `min` str_len s.
Proof.
  revert n. induction s as [|c s IH]; intros n; simpl; [by destruct n|].
  destruct (continuation c) eqn:Hc; simpl.
  - by rewrite Hc, IH.
  - destruct n as [|n]; simpl; [done|]. by rewrite Hc, IH.
Qed.

Lemma known_platforms (p : string) (rules : dict) :
  Publishing.platform_optimizations !! p = Some rules →
  p ∈ ["instagram"; "facebook"; "linkedin"; "twitter"].
Proof.
  unfold Publishing.platform_optimizations. simpl list_to_map.
  rewrite !lookup_insert. repeat case_decide; subst; set_solver.
Qed.

Lemma max_text_length_cases (p : string) :
  (3 ≤ max_text_length p)%Z.
Proof.
  unfold max_text_length.
  destruct (Publishing.platform_optimizations !! p) as [rules|] eqn:Hp.
  - rewrite <- Hp. apply known_platforms in Hp.
    repeat (apply elem_of_cons in Hp as [->|Hp]); [..|by apply elem_of_nil in Hp];
      apply Z.leb_le; vm_compute; reflexivity.
  - apply Z.leb_le. unfold Publishing.limit. simpl. by rewrite lookup_empty.
Qed.

Lemma hashtag_limit_known (p : string) (rules : dict) :
  Publishing.platform_optimizations !! p = Some rules →
  Publishing.limit rules "hashtag_limit" 30 = 30%Z.
Proof.
  intros Hp. change rules with (default ∅ (Some rules)). rewrite <- Hp.
  apply known_platforms in Hp.
  repeat (apply elem_of_cons in Hp as [->|Hp]); [..|by apply elem_of_nil in Hp];
    vm_compute; reflexivity.
Qed.

Lemma suffix_ne (p s1 s2 : string) : s1 ≠ s2 → p +:+ s1 ≠ p +:+ s2.
Proof. intros H E. by apply (inj (String.append p)) in E. Qed.

Lemma optimize_raise (content : dict) (e : exn) (l : list string) :
  foldl (Publishing.optimize_for content) (Raise e) l = Raise e.
Proof. by induction l. Qed.

(** One turn of the loop, when it does not raise. *)
Lemma optimize_for_ok (content acc acc' : dict) (p : string) :
  Publishing.optimize_for content (Ok acc) p = Ok acc' →
  is_Some (Publishing.platform_optimizations !! p)
  ∧ (∀ k, k ∉ platform_keys p → acc' !! k = acc !! k)
  ∧ acc' !! (p +:+ "_optimized") = Some (PBool true)
  ∧ (∀ txt, content !! "text" = Some (PStr txt) →
       acc' !! (p +:+ "_text") = Some (PStr (fitted_text p txt)))
  ∧ (∀ hs, content !! "hashtags" = Some (PList hs) →
       acc' !! (p +:+ "_hashtags") = Some (PList (take 30 hs))).
Proof.
  unfold Publishing.optimize_for. unfold mbind, res_bind.
  destruct (Publishing.platform_optimizations !! p) as [rules|] eqn:Hp; [|done].
  assert (Hmax : max_text_length p = Publishing.limit rules "max_text_length" 1000)
    by (unfold max_text_length; by rewrite Hp).
  rewrite (hashtag_limit_known _ _ Hp), <- Hmax.
  unfold contains, getitem.
  intros H. split; [done|].
  assert (Hk : ∀ k, k ∉ platform_keys p →
            k ≠ p +:+ "_text" ∧ k ≠ p +:+ "_hashtags" ∧ k ≠ p +:+ "_optimized").
  { intros k Hk. unfold platform_keys in Hk.
    by repeat apply not_elem_of_cons in Hk as [? Hk]. }
  destruct (content !! "text") as [txt|] eqn:Htxt;
    [rewrite bool_decide_eq_true_2 in H by done
    |rewrite bool_decide_eq_false_2 in H by (by intros [? ?])];
  (destruct (content !! "hashtags") as [hs|] eqn:Hhs;
    [rewrite bool_decide_eq_true_2 in H by done
    |rewrite bool_decide_eq_false_2 in H by (by intros [? ?])]).
  all: repeat match type of H with
       | context [Publishing.py_len ?v] =>
           let n := fresh "n" in let E := fresh "Elen" in
           destruct (Publishing.py_len v) as [n|] eqn:E; [|done]
       | context [bool_decide ?P] =>
           let E := fresh "Ecmp" in destruct (bool_decide P) eqn:E
       | context [Publishing.clip_with_dots ?v ?n] =>
           let x := fresh "x" in let E := fresh "Eclip" in
           destruct (Publishing.clip_with_dots v n) as [x|] eqn:E; [|done]
       | context [Publishing.clip ?v ?n] =>
           let x := fresh "x" in let E := fresh "Eclip" in
           destruct (Publishing.clip v n) as [x|] eqn:E; [|done]
       end.
  all: injection H as <-.
  all: change (Z.to_nat 30) with 30%nat in *.
  all: split_and!;
       [ intros k [? [? ?]]%Hk; by rewrite ?lookup_insert_ne by done
       | by rewrite lookup_insert_eq
       | intros t [= ->] | intros l [= ->] ].
  all: rewrite ?lookup_insert_eq;
       repeat (rewrite lookup_insert_ne by (by apply suffix_ne));
       rewrite ?lookup_insert_eq.
  all: cbn [Publishing.py_len Publishing.clip_with_dots Publishing.clip] in *; simplify_eq.
  all: unfold fitted_text.
  all: repeat match goal with
       | H : bool_decide _ = true |- _ => apply bool_decide_eq_true in H
       | H : bool_decide _ = false |- _ => apply bool_decide_eq_false in H
       end.
  all: rewrite ?bool_decide_eq_true_2 by done; rewrite ?bool_decide_eq_false_2 by done.
  all: rewrite ?take_ge by lia.
  all: done.
Qed.

(** The keys written for two different platforms of the table are different. *)
Lemma platform_keys_disjoint (p q k : string) :
  is_Some (Publishing.platform_optimizations !! p) →
  is_Some (Publishing.platform_optimizations !! q) →
  p ≠ q → k ∈ platform_keys p → k ∉ platform_keys q.
Proof.
  intros [rp Hp%known_platforms] [rq Hq%known_platforms] Hne Hk.
  revert k Hk. apply Forall_forall.
  repeat (apply elem_of_cons in Hp as [->|Hp]); [..|by apply elem_of_nil in Hp];
  (repeat (apply elem_of_cons in Hq as [->|Hq]); [..|by apply elem_of_nil in Hq]);
    try done; by apply (bool_decide_unpack _).
Qed.

Lemma platform_keys_self (p : string) :
  p +:+ "_text" ∈ platform_keys p ∧ p +:+ "_hashtags" ∈ platform_keys p
  ∧ p +:+ "_optimized" ∈ platform_keys p.
Proof.
  unfold platform_keys. rewrite !elem_of_cons. tauto.
Qed.

(** What the loop has written when it ends without raising. *)
Lemma optimize_ok (content optimized : dict) (platforms : list string) :
  Publishing._optimize_content_for_platforms content platforms = Ok optimized →
  (∀ p, p ∈ platforms → is_Some (Publishing.platform_optimizations !! p))
  ∧ (∀ k, (∀ p, p ∈ platforms → k ∉ platform_keys p) → optimized !! k = content !! k)
  ∧ (∀ p, p ∈ platforms →
       optimized !! (p +:+ "_optimized") = Some (PBool true)
       ∧ (∀ txt, content !! "text" = Some (PStr txt) →
            optimized !! (p +:+ "_text") = Some (PStr (fitted_text p txt)))
       ∧ (∀ hs, content !! "hashtags" = Some (PList hs) →
            optimized !! (p +:+ "_hashtags") = Some (PList (take 30 hs)))).
Proof.
  unfold Publishing._optimize_content_for_platforms. revert optimized.
  induction platforms as [|q l IH] using rev_ind; intros optimized.
  - simpl. intros [= <-]. split_and!; [intros p Hp|done|intros p Hp]; by apply elem_of_nil in Hp.
  - rewrite foldl_app. simpl.
    destruct (foldl (Publishing.optimize_for content) (Ok content) l) as [acc|e]; [|done].
    destruct (IH acc eq_refl) as (Hknown & Hkeep & Hset).
    intros (Hq & Hother & Hopt & Htxt & Hhs)%optimize_for_ok.
    assert (Hall : ∀ p, p ∈ (l ++ [q])%list → is_Some (Publishing.platform_optimizations !! p)).
    { intros p [Hp| ->%list_elem_of_singleton]%elem_of_app; [by apply Hknown|done]. }
    split_and!; [done| |].
    + intros k Hk. rewrite Hother.
      * apply Hkeep. intros p Hp. apply Hk, elem_of_app. by left.
      * apply Hk, elem_of_app. right. by apply list_elem_of_singleton.
    + intros p Hp. destruct (decide (p = q)) as [->|Hne]; [done|].
      apply elem_of_app in Hp as [Hp|Hp%list_elem_of_singleton]; [|done].
      destruct (platform_keys_self p) as (K1 & K2 & K3).
      destruct (Hset p Hp) as (S1 & S2 & S3).
      assert (Hd : ∀ k, k ∈ platform_keys p → k ∉ platform_keys q)
        by (intros k; apply platform_keys_disjoint; auto).
      split_and!.
      * by rewrite Hother by auto.
      * intros txt Ht. rewrite Hother by auto. by apply S2.
      * intros hs Hh. rewrite Hother by auto. by apply S3.
Qed.

(** X1: when [_optimize_content_for_platforms] returns, the text it has
    stored for each platform of the list fits that platform's limit (the
    [max_text_length] of the table, 1000 where the table has none),
    counted in characters: a text within the limit is stored as it is, a
    longer one is cut to the limit, its last three characters being
    dots. *)
Theorem optimized_text_fits (content optimized : dict) (platforms : list string)
    (txt p : string) :
  Publishing._optimize_content_for_platforms content platforms = Ok optimized →
  content !! "text" = Some (PStr txt) →
  p ∈ platforms →
  ∃ t, optimized !! (p +:+ "_text") = Some (PStr t)
       ∧ (Z.of_nat (str_len t) ≤ max_text_length p)%Z
       ∧ ((Z.of_nat (str_len txt) ≤ max_text_length p)%Z → t = txt)
       ∧ ((max_text_length p < Z.of_nat (str_len txt))%Z →
          Z.of_nat (str_len t) = max_text_length p
          ∧ t = str_take (Z.to_nat (max_text_length p - 3)) txt +:+ "...").
Proof.
  intros (_ & _ & Hset)%optimize_ok Htxt Hp.
  destruct (Hset p Hp) as (_ & Ht & _).
  exists (fitted_text p txt). split; [by apply Ht|].
  pose proof (max_text_length_cases p) as Hmin.
  assert (Hcut : (max_text_length p < Z.of_nat (str_len txt))%Z →
            Z.of_nat (str_len (str_take (Z.to_nat (max_text_length p - 3)) txt +:+ "..."))
            = max_text_length p).
  { intros Hlong. rewrite str_len_append, str_len_take.
    change (str_len "...") with 3. lia. }
  unfold fitted_text. case_bool_decide as Hlong.
  - split_and!; [rewrite Hcut by done; lia|lia|].
    intros _. split; [by apply Hcut|done].
  - split_and!; [lia|done|lia].
Qed.

Lemma optimized_text_fits_witness :
  ∃ t, accented_optimized !! ("twitter" +:+ "_text") = Some (PStr t)
       ∧ (Z.of_nat (str_len t) ≤ max_text_length "twitter")%Z
       ∧ ((Z.of_nat (str_len accented) ≤ max_text_length "twitter")%Z → t = accented)
       ∧ ((max_text_length "twitter" < Z.of_nat (str_len accented))%Z →
          Z.of_nat (str_len t) = max_text_length "twitter"
          ∧ t = str_take (Z.to_nat (max_text_length "twitter" - 3)) accented +:+ "...").
Proof.
  apply (optimized_text_fits (dict_of [("text", PStr accented)]) accented_optimized
           ["twitter"; "facebook"]).
  - apply value_of_returns. vm_compute. reflexivity.
  - reflexivity.
  - by apply (bool_decide_unpack _).
Defined.

(** X2: the caption limit of 2200 the table gives for Instagram is never
    read: the loop looks for [max_text_length], which the Instagram rules
    do not have, and so cuts every Instagram text of more than 1000
    characters down to 1000: its first 997 characters and three dots. *)
Theorem instagram_text_cut_at_1000 (content optimized : dict) (platforms : list string)
    (txt : string) :
  Publishing._optimize_content_for_platforms content platforms = Ok optimized →
  content !! "text" = Some (PStr txt) →
  "instagram" ∈ platforms →
  (1000 < str_len txt)%nat →
  optimized !! "instagram_text" = Some (PStr (str_take 997 txt +:+ "..."))
  ∧ str_len (str_take 997 txt +:+ "...") = 1000.
Proof.
  intros (_ & _ & Hset)%optimize_ok Htxt Hp Hlong.
  destruct (Hset _ Hp) as (_ & Ht & _). specialize (Ht _ Htxt).
  change ("instagram" +:+ "_text") with "instagram_text" in Ht.
  assert (Hmax : max_text_length "instagram" = 1000%Z) by (vm_compute; reflexivity).
  unfold fitted_text in Ht. rewrite Hmax, bool_decide_eq_true_2 in Ht by lia.
  split; [done|]. rewrite str_len_append, str_len_take.
  change (str_len "...") with 3. lia.
Qed.

Lemma instagram_text_cut_at_1000_witness :
  campaign_optimized !! "instagram_text" = Some (PStr (str_take 997 caption +:+ "..."))
  ∧ str_len (str_take 997 caption +:+ "...") = 1000.
Proof.
  apply (instagram_text_cut_at_1000 campaign campaign_optimized ["twitter"; "instagram"]).
  - apply value_of_returns. vm_compute. reflexivity.
  - reflexivity.
  - by apply (bool_decide_unpack _).
  - apply Nat.ltb_lt. vm_compute. reflexivity.
Defined.

(** X3: when [_optimize_content_for_platforms] returns, the hashtags it has
    stored for each platform of the list are the first 30 of the content's
    hashtags, in their order (all of them when there are at most 30). *)
Theorem optimized_hashtags_fit (content optimized : dict) (platforms : list string)
    (hs : list pyval) (p : string) :
  Publishing._optimize_content_for_platforms content platforms = Ok optimized →
  content !! "hashtags" = Some (PList hs) →
  p ∈ platforms →
  ∃ hs', optimized !! (p +:+ "_hashtags") = Some (PList hs')
         ∧ hs' = take 30 hs ∧ (length hs' ≤ 30)%nat
         ∧ ((length hs ≤ 30)%nat → hs' = hs).
Proof.
  intros (_ & _ & Hset)%optimize_ok Hhs Hp.
  destruct (Hset _ Hp) as (_ & _ & Hh).
  exists (take 30 hs). split_and!; [by apply Hh|done| |].
  - rewrite length_take. lia.
  - intros Hle. by rewrite take_ge.
Qed.

Lemma optimized_hashtags_fit_witness :
  ∃ hs', campaign_optimized !! ("instagram" +:+ "_hashtags") = Some (PList hs')
         ∧ hs' = take 30 (PStr <$> replicate 40 "studio") ∧ (length hs' ≤ 30)%nat
         ∧ ((length (PStr <$> replicate 40 "studio") ≤ 30)%nat
            → hs' = PStr <$> replicate 40 "studio").
Proof.
  apply (optimized_hashtags_fit campaign campaign_optimized ["twitter"; "instagram"]).
  - apply value_of_returns. vm_compute. reflexivity.
  - reflexivity.
  - by apply (bool_decide_unpack _).
Defined.

Lemma plain_key (k : string) :
  Forall (λ p, k ∉ platform_keys p) ["instagram"; "facebook"; "linkedin"; "twitter"] →
  ∀ p, is_Some (Publishing.platform_optimizations !! p) → k ∉ platform_keys p.
Proof.
  intros Hall p [rules Hp%known_platforms]. by eapply Forall_forall in Hall.
Qed.

(** X4: the optimisation only adds: when it returns, every key of the
    content other than the three keys written per platform
    ([<platform>_text], [<platform>_hashtags], [<platform>_optimized]) has
    its value unchanged, and so have the original [text] and [hashtags]. *)
Theorem optimize_keeps_content (content optimized : dict) (platforms : list string) :
  Publishing._optimize_content_for_platforms content platforms = Ok optimized →
  (∀ k, (∀ p, p ∈ platforms → k ∉ platform_keys p) → optimized !! k = content !! k)
  ∧ optimized !! "text" = content !! "text"
  ∧ optimized !! "hashtags" = content !! "hashtags".
Proof.
  intros (Hknown & Hkeep & _)%optimize_ok.
  split_and!; [done|..]; apply Hkeep; intros p Hp%Hknown; revert p Hp;
    apply plain_key; by apply (bool_decide_unpack _).
Qed.

Lemma optimize_keeps_content_witness :
  (∀ k, (∀ p, p ∈ ["twitter"; "instagram"] → k ∉ platform_keys p) →
     campaign_optimized !! k = campaign !! k)
  ∧ campaign_optimized !! "text" = campaign !! "text"
  ∧ campaign_optimized !! "hashtags" = campaign !! "hashtags".
Proof.
  apply (optimize_keeps_content campaign campaign_optimized ["twitter"; "instagram"]).
  apply value_of_returns. vm_compute. reflexivity.
Defined.

(** X5: a platform list that names a platform outside the optimisation
    table is refused by both [schedule_post] and [publish_immediately]:
    they return an error dict, store no post and create no task. *)
Theorem unknown_platform_stores_nothing (uid : string) (content : dict)
    (platforms : list string) (schedule_time : Publishing.time_str) (uuid : string)
    (now : nat) (s : Publishing.backend) (p : string) :
  p ∈ platforms →
  Publishing.platform_optimizations !! p = None →
  ∃ d1 d2,
    Publishing.schedule_post uid content platforms schedule_time uuid now s = (s, d1, None)
    ∧ Publishing.publish_immediately uid content platforms uuid now s = (s, d2, None)
    ∧ status_of d1 = Some "error" ∧ status_of d2 = Some "error".
Proof.
  intros Hp Hnone.
  unfold Publishing.schedule_post, Publishing.publish_immediately.
  destruct (Publishing._optimize_content_for_platforms content platforms)
    as [optimized|e] eqn:Hopt.
  - apply optimize_ok in Hopt as (Hknown & _).
    destruct (Hknown _ Hp) as [rules Hr]. congruence.
  - destruct schedule_time; by do 2 eexists.
Qed.

Lemma unknown_platform_stores_nothing_witness :
  ∃ d1 d2,
    Publishing.schedule_post "u1" launch ["twitter"; "tiktok"] (Publishing.Iso true 100)
      "p1" 10 Publishing.init = (Publishing.init, d1, None)
    ∧ Publishing.publish_immediately "u1" launch ["twitter"; "tiktok"] "p1" 10
        Publishing.init = (Publishing.init, d2, None)
    ∧ status_of d1 = Some "error" ∧ status_of d2 = Some "error".
Proof.
  apply (unknown_platform_stores_nothing "u1" launch ["twitter"; "tiktok"]
           (Publishing.Iso true 100) "p1" 10 Publishing.init "tiktok").
  - by apply (bool_decide_unpack _).
  - vm_compute. reflexivity.
Defined.

(** ** Publishing a post to the end *)

Lemma publish_begin_loop (j : Publishing.store) (id : string) (i : Publishing.tick)
    (s : Publishing.backend) (job : dict) (ps : list string) (c : pyval) :
  Publishing.find_job id s = Some (j, job) →
  job !! "platforms" = Some (Publishing.strs ps) → job !! "content" = Some c →
  Publishing.publish_begin id i s = Publishing.next_platform j id c ps ∅ i s.
Proof.
  intros Hfind Hps Hc. unfold Publishing.publish_begin, getitem.
  rewrite Hfind, Hps, Hc. simpl. by rewrite strs_of_strs.
Qed.

(** The platform loop from the delay before [rest] to its end. *)
Lemma publish_loop (j : Publishing.store) (id : string) (content : pyval)
    (rest : list string) (results : dict) (ticks : list Publishing.tick)
    (s : Publishing.backend) :
  length ticks = S (2 * length rest) →
  ∃ results' i,
    run_post ticks
      {| Publishing.t_post_id := id;
         Publishing.t_pc := Publishing.PubDelay j content rest results |} s
    = (Publishing.set_job j id
         [("status", PStr "completed"); ("results", PDict results');
          ("completed_at", PIso true (Publishing.now i))] s,
       {| Publishing.t_post_id := id; Publishing.t_pc := Publishing.Finished |})
    ∧ last ticks = Some i
    ∧ (∀ p, p ∈ rest → published_on results' p)
    ∧ (∀ p, p ∉ rest → results' !! p = results !! p).
Proof.
  revert results ticks. induction rest as [|p rest IH]; intros results ticks Hlen.
  - destruct ticks as [|i [|? ?]]; simplify_eq/=.
    exists results, i. split_and!; [done|done| |done].
    intros p Hp. by apply elem_of_nil in Hp.
  - destruct ticks as [|i1 [|i2 ticks]]; simplify_eq/=.
    destruct (IH (<[p := PDict (Publishing.platform_result p id i2)]> results) ticks)
      as (results' & i & Hrun & Hlast & Hpub & Hkeep); [lia|].
    exists results', i. split_and!; [done| | |].
    + destruct ticks; [done|]. done.
    + intros q Hq. destruct (decide (q ∈ rest)) as [Hin|Hin]; [by apply Hpub|].
      apply elem_of_cons in Hq as [->|?]; [|done].
      eexists. rewrite (Hkeep _ Hin), lookup_insert_eq. split_and!; [done|..]; done.
    + intros q Hq. apply not_elem_of_cons in Hq as [Hne Hq].
      by rewrite (Hkeep _ Hq), lookup_insert_ne.
Qed.

Lemma run_post_finished (ticks : list Publishing.tick) (id : string)
    (s : Publishing.backend) :
  run_post ticks {| Publishing.t_post_id := id; Publishing.t_pc := Publishing.Finished |} s
  = (s, {| Publishing.t_post_id := id; Publishing.t_pc := Publishing.Finished |}).
Proof. by induction ticks. Qed.

(** What the loop leaves in the record of the post. *)
Lemma publish_loop_job (j : Publishing.store) (id : string) (content : pyval)
    (platforms : list string) (ticks : list Publishing.tick) (s : Publishing.backend)
    (job0 : dict) :
  lookup_in j s id = Some job0 →
  job0 !! "error" = None →
  length ticks = S (2 * length platforms) →
  ∃ s2 job results i,
    run_post ticks
      {| Publishing.t_post_id := id;
         Publishing.t_pc := Publishing.PubDelay j content platforms ∅ |} s
    = (s2, {| Publishing.t_post_id := id; Publishing.t_pc := Publishing.Finished |})
    ∧ lookup_in j s2 id = Some job
    ∧ lookup_in (other j) s2 = lookup_in (other j) s
    ∧ status_of job = Some "completed"
    ∧ job !! "results" = Some (PDict results)
    ∧ last ticks = Some i
    ∧ job !! "completed_at" = Some (PIso true (Publishing.now i))
    ∧ job !! "error" = None
    ∧ (∀ p, p ∈ platforms ↔ is_Some (results !! p))
    ∧ (∀ p, p ∈ platforms → published_on results p).
Proof.
  intros Hjob Herr Hlen.
  destruct (publish_loop j id content platforms ∅ ticks s Hlen)
    as (results & i & Hrun & Hlast & Hpub & Hkeep).
  destruct (lookup_in_set_job j id
    [("status", PStr "completed"); ("results", PDict results);
     ("completed_at", PIso true (Publishing.now i))] s) as [E1 E2].
  eexists _, _, results, i. split_and!; [exact Hrun|by rewrite E1, Hjob| |..|done].
  - by destruct j.
  - unfold status_of. by dict_lookup.
  - by dict_lookup.
  - done.
  - by dict_lookup.
  - by dict_lookup.
  - intros p. split; [intros Hp; destruct (Hpub p Hp) as (r & -> & _); eauto|].
    intros Hsome. destruct (decide (p ∈ platforms)) as [|Hn]; [done|].
    rewrite (Hkeep _ Hn), lookup_empty in Hsome. by destruct Hsome.
Qed.

(** X6: a post published at once runs to the end: after the first segment
    of its task and two segments per platform, its job is [completed], has
    no [error], carries the time of the last segment as [completed_at], and
    its [results] hold a successful result for each platform of the list
    and for nothing else; [scheduled_posts] is not touched. *)
Theorem immediate_post_completes (uid : string) (content : dict) (platforms : list string)
    (uuid : string) (now : nat) (s s1 : Publishing.backend) (d : dict)
    (task : Publishing.task) (ticks : list Publishing.tick) :
  Publishing.publish_immediately uid content platforms uuid now s = (s1, d, Some task) →
  length ticks = S (2 * length platforms) →
  ∃ job results i,
    Publishing.publishing_jobs (run_post ticks task s1).1 !! uuid = Some job
    ∧ Publishing.t_pc (run_post ticks task s1).2 = Publishing.Finished
    ∧ Publishing.scheduled_posts (run_post ticks task s1).1 = Publishing.scheduled_posts s
    ∧ status_of job = Some "completed"
    ∧ job !! "results" = Some (PDict results)
    ∧ last ticks = Some i
    ∧ job !! "completed_at" = Some (PIso true (Publishing.now i))
    ∧ job !! "error" = None
    ∧ (∀ p, p ∈ platforms ↔ is_Some (results !! p))
    ∧ (∀ p, p ∈ platforms → published_on results p).
Proof.
  unfold Publishing.publish_immediately.
  destruct (Publishing._optimize_content_for_platforms content platforms)
    as [optimized|e]; [|done].
  intros [= <- <- <-] Hlen.
  set (job0 := dict_of _). set (s1 := Publishing.with_publishing _ s).
  assert (Hjob : lookup_in Publishing.InPublishing s1 uuid = Some job0)
    by (simpl; by rewrite lookup_insert_eq).
  assert (Hfind : Publishing.find_job uuid s1 = Some (Publishing.InPublishing, job0)).
  { unfold Publishing.find_job.
    change (Publishing.publishing_jobs s1 !! uuid)
      with (lookup_in Publishing.InPublishing s1 uuid). rewrite Hjob. subst job0.
    by rewrite (post_ok_nonempty _ _ _ (new_publishing_ok uuid uid optimized platforms now)). }
  destruct (publish_loop_job Publishing.InPublishing uuid (PDict optimized) platforms
              ticks s1 job0 Hjob eq_refl Hlen)
    as (s2 & job & results & i & Hrun & Hj & Hother & Hrest).
  assert (Hstart : run_post ticks
            {| Publishing.t_post_id := uuid; Publishing.t_pc := Publishing.PubStart |} s1
          = (s2, {| Publishing.t_post_id := uuid; Publishing.t_pc := Publishing.Finished |})).
  { rewrite <- Hrun. destruct ticks as [|i0 ticks]; [done|].
    cbn [run_post Publishing.resume Publishing.t_pc Publishing.t_post_id].
    by rewrite (publish_begin_loop _ _ _ _ _ platforms (PDict optimized) Hfind). }
  rewrite Hstart. exists job, results, i.
  split_and!; [done|done| |apply Hrest..].
  change (lookup_in (other Publishing.InPublishing) s2 =
          lookup_in (other Publishing.InPublishing) s1) in Hother.
  apply map_eq. intros id. change (lookup_in Publishing.InScheduled s2 id = 
    lookup_in Publishing.InScheduled s1 id). simpl in Hother. by rewrite Hother.
Qed.

Lemma immediate_post_completes_witness :
  ∃ job results i,
    Publishing.publishing_jobs (run_post five_ticks (task_at Publishing.PubStart)
                                  posted.1.1).1 !! "p1" = Some job
    ∧ Publishing.t_pc (run_post five_ticks (task_at Publishing.PubStart) posted.1.1).2
      = Publishing.Finished
    ∧ Publishing.scheduled_posts
        (run_post five_ticks (task_at Publishing.PubStart) posted.1.1).1
      = Publishing.scheduled_posts Publishing.init
    ∧ status_of job = Some "completed"
    ∧ job !! "results" = Some (PDict results)
    ∧ last five_ticks = Some i
    ∧ job !! "completed_at" = Some (PIso true (Publishing.now i))
    ∧ job !! "error" = None
    ∧ (∀ p, p ∈ ["twitter"; "facebook"] ↔ is_Some (results !! p))
    ∧ (∀ p, p ∈ ["twitter"; "facebook"] → published_on results p).
Proof.
  apply (immediate_post_completes "u1" launch ["twitter"; "facebook"] "p1" 12
           Publishing.init posted.1.1 posted.1.2 (task_at Publishing.PubStart) five_ticks).
  - reflexivity.
  - reflexivity.
Defined.

(** X7: a post scheduled with a time that carries a UTC offset is published
    by its own task: when the task first runs at or after that time (or
    else one segment later, after its sleep), two segments per platform
    complete the record in [scheduled_posts] with a successful result for
    each platform of the list; the post never enters [publishing_jobs]. *)
Theorem scheduled_post_completes (uid : string) (content : dict) (platforms : list string)
    (t : nat) (uuid : string) (now : nat) (s s1 : Publishing.backend) (d : dict)
    (task : Publishing.task) (i0 : Publishing.tick) (ticks : list Publishing.tick) :
  Publishing.publishing_jobs s !! uuid = None →
  Publishing.schedule_post uid content platforms (Publishing.Iso true t) uuid now s
    = (s1, d, Some task) →
  length ticks = (if bool_decide (Publishing.now i0 < t) then 1 else 0)
                 + 2 * length platforms →
  ∃ job results i,
    Publishing.scheduled_posts (run_post (i0 :: ticks) task s1).1 !! uuid = Some job
    ∧ Publishing.t_pc (run_post (i0 :: ticks) task s1).2 = Publishing.Finished
    ∧ Publishing.publishing_jobs (run_post (i0 :: ticks) task s1).1
      = Publishing.publishing_jobs s
    ∧ status_of job = Some "completed"
    ∧ job !! "results" = Some (PDict results)
    ∧ last (i0 :: ticks) = Some i
    ∧ job !! "completed_at" = Some (PIso true (Publishing.now i))
    ∧ job !! "error" = None
    ∧ (∀ p, p ∈ platforms ↔ is_Some (results !! p))
    ∧ (∀ p, p ∈ platforms → published_on results p).
Proof.
  unfold Publishing.schedule_post.
  destruct (Publishing._optimize_content_for_platforms content platforms)
    as [optimized|e]; [|done].
  intros Hfresh [= <- <- <-] Hlen.
  set (job0 := dict_of _). set (s1 := Publishing.with_scheduled _ s).
  assert (Hjob : lookup_in Publishing.InScheduled s1 uuid = Some job0)
    by (simpl; by rewrite lookup_insert_eq).
  assert (Hout : lookup_in (other Publishing.InScheduled) s1 uuid = None) by done.
  assert (Hfind : Publishing.find_job uuid s1 = Some (Publishing.InScheduled, job0)).
  { eapply find_job_in; [done..|]. subst job0. apply new_scheduled_ok. }
  assert (Hbegin : Publishing.exec_begin uuid i0 s1
                   = Ok (bool_decide (Publishing.now i0 < t))).
  { unfold Publishing.exec_begin.
    change (Publishing.scheduled_posts s1 !! uuid)
      with (lookup_in Publishing.InScheduled s1 uuid). by rewrite Hjob. }
  assert (Hloop : ∀ tks, length tks = S (2 * length platforms) →
    ∃ job results i,
      Publishing.scheduled_posts
        (run_post tks {| Publishing.t_post_id := uuid;
                         Publishing.t_pc := Publishing.ExecWaiting |} s1).1 !! uuid
        = Some job
      ∧ Publishing.t_pc
          (run_post tks {| Publishing.t_post_id := uuid;
                           Publishing.t_pc := Publishing.ExecWaiting |} s1).2
        = Publishing.Finished
      ∧ Publishing.publishing_jobs
          (run_post tks {| Publishing.t_post_id := uuid;
                           Publishing.t_pc := Publishing.ExecWaiting |} s1).1
        = Publishing.publishing_jobs s
      ∧ status_of job = Some "completed"
      ∧ job !! "results" = Some (PDict results)
      ∧ last tks = Some i
      ∧ job !! "completed_at" = Some (PIso true (Publishing.now i))
      ∧ job !! "error" = None
      ∧ (∀ p, p ∈ platforms ↔ is_Some (results !! p))
      ∧ (∀ p, p ∈ platforms → published_on results p)).
  { intros tks Htks.
    destruct (publish_loop_job Publishing.InScheduled uuid (PDict optimized) platforms
                tks s1 job0 Hjob eq_refl Htks)
      as (s2 & job & results & i & Hrun & Hj & Hother & Hrest).
    assert (Hstart : run_post tks
              {| Publishing.t_post_id := uuid; Publishing.t_pc := Publishing.ExecWaiting |} s1
            = (s2, {| Publishing.t_post_id := uuid;
                      Publishing.t_pc := Publishing.Finished |})).
    { rewrite <- Hrun. destruct tks as [|i1 tks]; [done|].
      cbn [run_post Publishing.resume Publishing.t_pc Publishing.t_post_id].
      by rewrite (publish_begin_loop _ _ _ _ _ platforms (PDict optimized) Hfind). }
    rewrite Hstart. exists job, results, i.
    split_and!; [done|done| |apply Hrest..].
    apply map_eq. intros id.
    change (lookup_in (other Publishing.InScheduled) s2 id
            = lookup_in (other Publishing.InScheduled) s1 id).
    by rewrite Hother. }
  case_bool_decide as Hwait.
  - (* the task sleeps until the scheduled time *)
    destruct (Hloop ticks) as (job & results & i & H); [simpl in Hlen; lia|].
    exists job, results, i.
    cbn [run_post Publishing.resume Publishing.t_pc Publishing.t_post_id].
    rewrite Hbegin. cbn [fst snd].
    destruct H as (? & ? & ? & ? & ? & Hlast & ? & ? & ? & ?). split_and!; try done.
    by rewrite last_cons, Hlast.
  - (* the time has come: the task publishes in its first segment *)
    destruct (Hloop (i0 :: ticks)) as (job & results & i & H); [simpl in *; lia|].
    exists job, results, i.
    cbn [run_post Publishing.resume Publishing.t_pc Publishing.t_post_id] in *.
    by rewrite Hbegin.
Qed.

Lemma scheduled_post_completes_witness :
  ∃ job results i,
    Publishing.scheduled_posts
      (run_post (at_time 13 :: five_ticks) (task_at Publishing.ExecStart)
         (scheduled_at true 15).1.1).1 !! "p1" = Some job
    ∧ Publishing.t_pc
        (run_post (at_time 13 :: five_ticks) (task_at Publishing.ExecStart)
           (scheduled_at true 15).1.1).2 = Publishing.Finished
    ∧ Publishing.publishing_jobs
        (run_post (at_time 13 :: five_ticks) (task_at Publishing.ExecStart)
           (scheduled_at true 15).1.1).1
      = Publishing.publishing_jobs Publishing.init
    ∧ status_of job = Some "completed"
    ∧ job !! "results" = Some (PDict results)
    ∧ last (at_time 13 :: five_ticks) = Some i
    ∧ job !! "completed_at" = Some (PIso true (Publishing.now i))
    ∧ job !! "error" = None
    ∧ (∀ p, p ∈ ["twitter"; "facebook"] ↔ is_Some (results !! p))
    ∧ (∀ p, p ∈ ["twitter"; "facebook"] → published_on results p).
Proof.
  apply (scheduled_post_completes "u1" launch ["twitter"; "facebook"] 15 "p1" 12
           Publishing.init (scheduled_at true 15).1.1 (scheduled_at true 15).1.2
           (task_at Publishing.ExecStart) (at_time 13) five_ticks).
  - reflexivity.
  - reflexivity.
  - reflexivity.
Defined.

(** X8: [schedule_post] accepts a schedule time without a UTC offset, and
    the post then always fails: the first segment of its task cannot
    compare the time with the clock, marks the record [failed] with the
    text of the [TypeError], and ends; nothing is published, whatever the
    time was. *)
Theorem naive_schedule_time_fails (uid : string) (content : dict) (platforms : list string)
    (t : nat) (uuid : string) (now : nat) (s s1 : Publishing.backend) (d : dict)
    (task : Publishing.task) (i : Publishing.tick) :
  Publishing.schedule_post uid content platforms (Publishing.Iso false t) uuid now s
    = (s1, d, Some task) →
  status_of d = Some "success"
  ∧ ∃ job,
      Publishing.scheduled_posts (Publishing.resume task i s1).1 !! uuid = Some job
      ∧ Publishing.t_pc (Publishing.resume task i s1).2 = Publishing.Finished
      ∧ Publishing.publishing_jobs (Publishing.resume task i s1).1
        = Publishing.publishing_jobs s
      ∧ status_of job = Some "failed"
      ∧ job !! "error"
        = Some (PStr "can't compare offset-naive and offset-aware datetimes")
      ∧ job !! "results" = None.
Proof.
  unfold Publishing.schedule_post.
  destruct (Publishing._optimize_content_for_platforms content platforms)
    as [optimized|e]; [|done].
  intros [= <- <- <-]. split; [done|].
  set (job0 := dict_of _). set (s1 := Publishing.with_scheduled _ s).
  assert (Hjob : Publishing.scheduled_posts s1 !! uuid = Some job0)
    by (simpl; by rewrite lookup_insert_eq).
  cbn [Publishing.resume Publishing.t_pc Publishing.t_post_id].
  unfold Publishing.exec_begin, Publishing.exec_failed. rewrite Hjob.
  rewrite bool_decide_eq_true_2 by done.
  assert (Hst : getitem job0 "schedule_time" = Ok (PIso false t))
    by (unfold getitem; subst job0; by dict_lookup).
  unfold mbind, res_bind. rewrite Hst. cbn [fst snd].
  eexists. split_and!.
  - cbn [Publishing.scheduled_posts Publishing.with_scheduled].
    rewrite lookup_setitems, decide_True by done. by rewrite Hjob.
  - done.
  - done.
  - unfold status_of. by dict_lookup.
  - by dict_lookup.
  - by dict_lookup.
Qed.

Lemma naive_schedule_time_fails_witness :
  status_of (scheduled_at false 15).1.2 = Some "success"
  ∧ ∃ job,
      Publishing.scheduled_posts
        (Publishing.resume (task_at Publishing.ExecStart) (at_time 13)
           (scheduled_at false 15).1.1).1 !! "p1" = Some job
      ∧ Publishing.t_pc
          (Publishing.resume (task_at Publishing.ExecStart) (at_time 13)
             (scheduled_at false 15).1.1).2 = Publishing.Finished
      ∧ Publishing.publishing_jobs
          (Publishing.resume (task_at Publishing.ExecStart) (at_time 13)
             (scheduled_at false 15).1.1).1
        = Publishing.publishing_jobs Publishing.init
      ∧ status_of job = Some "failed"
      ∧ job !! "error"
        = Some (PStr "can't compare offset-naive and offset-aware datetimes")
      ∧ job !! "results" = None.
Proof.
  apply (naive_schedule_time_fails "u1" launch ["twitter"; "facebook"] 15 "p1" 12
           Publishing.init).
  reflexivity.
Defined.

(** ** Connecting platforms *)

(** What one [connect_platform] call does to the platform table. *)
Lemma connect_platform_status (p : string) (c : dict) (now : nat) (s : Publishing.backend)
    (q : string) :
  Publishing.platform_status (Publishing.connect_platform p c now s).1 !! q
  = if decide (p = q)
    then assign [("connected", PBool true); ("last_check", PIso true now)]
           <$> Publishing.platform_status s !! q
    else Publishing.platform_status s !! q.
Proof.
  unfold Publishing.connect_platform.
  destruct (Publishing.platform_status s !! p) as [d|] eqn:Hp.
  - assert (Publishing.platform_status
              (Publishing.with_platforms (setitems p
                 [("connected", PBool true); ("last_check", PIso true now)]) s) !! q
            = if decide (p = q)
              then assign [("connected", PBool true); ("last_check", PIso true now)]
                     <$> Publishing.platform_status s !! q
              else Publishing.platform_status s !! q) as E
      by (simpl; by rewrite lookup_setitems).
    by destruct (Publishing.platform_optimizations !! p).
  - simpl. case_decide; [subst; by rewrite Hp|done].
Qed.

Lemma connect_platform_jobs (p : string) (c : dict) (now : nat) (s : Publishing.backend) :
  Publishing.publishing_jobs (Publishing.connect_platform p c now s).1
    = Publishing.publishing_jobs s
  ∧ Publishing.scheduled_posts (Publishing.connect_platform p c now s).1
    = Publishing.scheduled_posts s.
Proof.
  unfold Publishing.connect_platform.
  destruct (Publishing.platform_status s !! p); [|done].
  by destruct (Publishing.platform_optimizations !! p).
Qed.

Lemma connect_platform_connected (p : string) (c : dict) (now : nat)
    (s : Publishing.backend) (q : string) :
  connected q s → connected q (Publishing.connect_platform p c now s).1.
Proof.
  unfold connected. rewrite connect_platform_status.
  destruct (Publishing.platform_status s !! q) as [d|]; [|done].
  case_decide; [|done]. intros _. simpl. by dict_lookup.
Qed.

(** X9: connections are never lost and connecting touches no post: after
    any run of [connect_platform] calls, with any credentials and for known
    or unknown platforms, a platform that was connected is still
    connected, and [publishing_jobs] and [scheduled_posts] are as before. *)
Theorem connections_are_kept (calls : list (string * dict * nat)) (s : Publishing.backend)
    (q : string) :
  connected q s →
  connected q (connect_all calls s)
  ∧ Publishing.publishing_jobs (connect_all calls s) = Publishing.publishing_jobs s
  ∧ Publishing.scheduled_posts (connect_all calls s) = Publishing.scheduled_posts s.
Proof.
  unfold connect_all. revert s.
  induction calls as [|[[p c] now] calls IH]; intros s Hq; [done|]. simpl.
  destruct (IH _ (connect_platform_connected p c now s q Hq)) as (H1 & H2 & H3).
  destruct (connect_platform_jobs p c now s) as [E1 E2].
  split_and!; [done|congruence..].
Qed.

Lemma connections_are_kept_witness :
  connected "twitter"
    (connect_all [("facebook", ∅, 7); ("tiktok", ∅, 8); ("twitter", ∅, 9)]
       (Publishing.connect_platform "twitter" ∅ 5 one_scheduled).1)
  ∧ Publishing.publishing_jobs
      (connect_all [("facebook", ∅, 7); ("tiktok", ∅, 8); ("twitter", ∅, 9)]
         (Publishing.connect_platform "twitter" ∅ 5 one_scheduled).1)
    = Publishing.publishing_jobs (Publishing.connect_platform "twitter" ∅ 5 one_scheduled).1
  ∧ Publishing.scheduled_posts
      (connect_all [("facebook", ∅, 7); ("tiktok", ∅, 8); ("twitter", ∅, 9)]
         (Publishing.connect_platform "twitter" ∅ 5 one_scheduled).1)
    = Publishing.scheduled_posts (Publishing.connect_platform "twitter" ∅ 5 one_scheduled).1.
Proof.
  apply (connections_are_kept [("facebook", ∅, 7); ("tiktok", ∅, 8); ("twitter", ∅, 9)]).
  vm_compute. reflexivity.
Defined.

Lemma status_platforms (p : string) (d : dict) :
  Publishing.platform_status Publishing.init !! p = Some d →
  p ∈ ["instagram"; "facebook"; "linkedin"; "twitter"].
Proof.
  unfold Publishing.init. simpl.
  rewrite !lookup_insert. repeat case_decide; subst; set_solver.
Qed.

(** The platform table keeps the keys it was created with. *)
Lemma connect_all_keys (calls : list (string * dict * nat)) (p : string) :
  is_Some (Publishing.platform_status (connect_all calls Publishing.init) !! p)
  ↔ is_Some (Publishing.platform_optimizations !! p).
Proof.
  assert (H0 : is_Some (Publishing.platform_status Publishing.init !! p)
               ↔ is_Some (Publishing.platform_optimizations !! p)).
  { split.
    - intros [d Hd]. apply status_platforms in Hd.
      repeat (apply elem_of_cons in Hd as [->|Hd]); [..|by apply elem_of_nil in Hd];
        by apply (bool_decide_unpack _).
    - intros [d Hd]. apply known_platforms in Hd.
      repeat (apply elem_of_cons in Hd as [->|Hd]); [..|by apply elem_of_nil in Hd];
        by apply (bool_decide_unpack _). }
  revert H0. unfold connect_all. generalize Publishing.init.
  induction calls as [|[[q c] now] calls IH]; intros s Hs; [done|]. simpl.
  apply IH. rewrite connect_platform_status, <- Hs.
  case_decide; [|done]. by rewrite fmap_is_Some.
Qed.

Lemma escaped_plain (c : Ascii.ascii) :
  plain_char c = true → escaped single_quote c = String c "".
Proof.
  unfold plain_char, escaped.
  intros [[Hn Hq%negb_true_iff]%andb_true_iff Hb%negb_true_iff]%andb_true_iff.
  apply bool_decide_eq_true in Hn. rewrite Hq, Hb.
  by rewrite !bool_decide_eq_false_2 by lia.
Qed.

Lemma py_repr_plain (s : string) : plain s = true → py_repr s = "'" +:+ s +:+ "'".
Proof.
  intros Hs.
  assert (Hq : has_char single_quote s = false).
  { induction s as [|c s IH]; [done|]. simpl in *.
    apply andb_true_iff in Hs as [Hc Hs]. rewrite (IH Hs), orb_false_r.
    unfold plain_char in Hc.
    apply andb_true_iff in Hc as [[_ Hc%negb_true_iff]%andb_true_iff _]. done. }
  assert (He : escape single_quote s = s).
  { induction s as [|c s IH]; [done|]. simpl in *.
    apply andb_true_iff in Hs as [Hc Hs].
    apply orb_false_iff in Hq as [_ Hq].
    by rewrite (escaped_plain _ Hc), (IH Hs Hq). }
  unfold py_repr. rewrite Hq. cbn [andb]. by rewrite He.
Qed.

(** X10: in every state the backend reaches from its initial one by
    [connect_platform] calls, a further call succeeds exactly for the four
    platforms of the optimisation table, whatever the credentials are: it
    then marks the platform connected and returns its rules as
    capabilities; for any other platform it returns an error dict and
    changes nothing, and when the platform's name is made of printable
    ASCII characters other than the quote and the backslash, the error is
    that name between quotes. *)
Theorem connect_known_platforms_only (calls : list (string * dict * nat)) (p : string)
    (c : dict) (now : nat) :
  let s := connect_all calls Publishing.init in
  let r := Publishing.connect_platform p c now s in
  (∀ rules, Publishing.platform_optimizations !! p = Some rules →
     status_of r.2 = Some "success" ∧ connected p r.1
     ∧ r.2 !! "capabilities" = Some (PDict rules))
  ∧ (Publishing.platform_optimizations !! p = None →
     r.1 = s ∧ status_of r.2 = Some "error"
     ∧ r.2 !! "platform" = Some (PStr p)
     ∧ (plain p = true → r.2 !! "error" = Some (PStr ("'" +:+ p +:+ "'")))).
Proof.
  intros s r. pose proof (connect_all_keys calls p) as Hkeys. fold s in Hkeys.
  pose proof (connect_platform_status p c now s p) as Hst. fold r in Hst.
  rewrite decide_True in Hst by done.
  subst r. unfold Publishing.connect_platform in *.
  destruct (Publishing.platform_status s !! p) as [d|] eqn:Hp.
  - destruct (Publishing.platform_optimizations !! p) as [rules|] eqn:Hr.
    + split; [|done]. intros ? [= <-]. split_and!; [done| |by dict_lookup].
      unfold connected. rewrite Hst. simpl. by dict_lookup.
    + destruct Hkeys as [[? ?] _]; done.
  - split.
    + intros rules Hr. destruct Hkeys as [_ [? ?]]; [by eexists|done].
    + intros _. split_and!; [done|done|by dict_lookup|].
      intros Hplain. dict_lookup. unfold str_exn. by rewrite py_repr_plain.
Qed.

(** ** The voices of a user *)

Lemma voices_of_spec (uid : string) (s : Voice.backend) :
  voices_of uid s = PDict <$> default [] (Voice.user_voices s !! uid).
Proof.
  unfold voices_of, Voice.get_user_voices.
  destruct (Voice.user_voices s !! uid); by dict_lookup.
Qed.

Lemma voices_of_append (uid uid' : string) (v : dict) (s : Voice.backend) :
  voices_of uid' (Voice.append_user_voice uid v s)
  = if decide (uid = uid') then (voices_of uid' s ++ [PDict v])%list else voices_of uid' s.
Proof.
  rewrite !voices_of_spec. unfold Voice.append_user_voice. simpl.
  rewrite lookup_insert. case_decide; [subst|done]. simpl. by rewrite fmap_app.
Qed.

(** X11: [clone_voice] never fails and checks no provider: for any provider
    name it appends the cloned voice to the user's voices, so that
    [get_user_voices] lists it last, after the voices it listed before, and
    leaves the voices of other users and the voice jobs as they were.  The
    dict it returns shows the status [ready], not [success]: its display
    has the key [status] twice. *)
Theorem cloned_voice_is_listed (uid : string) (samples : list string) (name prov : string)
    (ts now : nat) (s : Voice.backend) :
  let r := Voice.clone_voice uid samples name prov ts now s in
  status_of r.2 = Some "ready"
  ∧ Voice.voice_jobs r.1 = Voice.voice_jobs s
  ∧ (∃ v, voices_of uid r.1 = (voices_of uid s ++ [PDict v])%list
          ∧ v !! "voice_id" = r.2 !! "voice_id"
          ∧ v !! "provider" = Some (PStr prov)
          ∧ v !! "samples_count" = Some (PInt (Z.of_nat (length samples)))
          ∧ status_of v = Some "ready")
  ∧ (∀ uid', uid' ≠ uid → Voice.get_user_voices uid' r.1 = Voice.get_user_voices uid' s).
Proof.
  intros r. subst r. unfold Voice.clone_voice. cbn [fst snd].
  split_and!.
  - unfold status_of. by dict_lookup.
  - done.
  - eexists. rewrite voices_of_append, decide_True by done.
    split_and!; [done|by dict_lookup..|unfold status_of; by dict_lookup].
  - intros uid' Hne. unfold Voice.get_user_voices, Voice.append_user_voice. simpl.
    by rewrite lookup_insert_ne.
Qed.

Lemma init_providers (n : string) (p : Voice.provider) :
  Voice.providers Voice.init !! n = Some p →
  Voice.enabled p = true ∧ n ∈ ["elevenlabs"; "azure"; "google"; "speechelo"].
Proof.
  unfold Voice.init. simpl. rewrite !lookup_insert.
  repeat case_decide; subst; intros [= <-]; (split; [done|set_solver]).
Qed.

Lemma provider_result_done (a : Voice.voice_args) (ts : nat) :
  Voice.provider_name a ∈ ["elevenlabs"; "azure"; "google"; "speechelo"] →
  ∃ u, Voice.provider_result a (Done ts) !! "status" = Some (PStr "success")
       ∧ Voice.provider_result a (Done ts) !! "audio_url" = Some (PStr u).
Proof.
  intros Hn. unfold Voice.provider_result.
  repeat (apply elem_of_cons in Hn as [->|Hn]); [..|by apply elem_of_nil in Hn];
    repeat case_bool_decide; try done; eexists; split; reflexivity.
Qed.

Lemma provider_result_failed (a : Voice.voice_args) (msg : string) :
  Voice.provider_result a (Failed msg) !! "status" = Some (PStr "error").
Proof. unfold Voice.provider_result. by repeat case_bool_decide. Qed.

(** X12: a voice generated for a user is listed for that user: when the
    provider is one of the four the backend registers and succeeds, and the
    call names a non-empty user id, [generate_voice] returns the status
    [completed], and [get_user_voices] then lists one more voice, last,
    with the audio URL the call returned and the time the job was
    created. *)
Theorem generated_voice_is_listed (a : Voice.voice_args) (uuid uid : string)
    (now ts now' : nat) (s : Voice.backend) :
  Voice.providers s = Voice.providers Voice.init →
  is_Some (Voice.providers Voice.init !! Voice.provider_name a) →
  Voice.user_id a = Some uid → uid ≠ "" →
  let r := Voice.generate_voice a uuid now (Done ts) now' s in
  status_of r.2 = Some "completed"
  ∧ ∃ v u, voices_of uid r.1 = (voices_of uid s ++ [PDict v])%list
           ∧ v !! "audio_url" = Some (PStr u)
           ∧ r.2 !! "audio_url" = Some (PStr u)
           ∧ v !! "voice_id" = Some (PStr (Voice.voice_id a))
           ∧ v !! "provider" = Some (PStr (Voice.provider_name a))
           ∧ v !! "created_at" = Some (PIso true now).
Proof.
  intros Hprov [p Hp] Huid Hne r. subst r.
  destruct (init_providers _ _ Hp) as [Hen Hn].
  destruct (provider_result_done a ts Hn) as (u & Hst & Hu).
  unfold Voice.generate_voice, Voice.generate_voice_submit.
  rewrite Hprov, Hp, Hen. cbn [negb].
  unfold Voice.generate_voice_finish, Voice.generate_voice_body.
  cbn [Voice.c_args Voice.c_job_id].
  set (job0 := dict_of _).
  set (s0 := Voice.with_jobs (<[uuid := job0]>) s).
  set (result := Voice.provider_result a (Done ts)) in *.
  set (s1 := Voice.mark_completed uuid result now' s0).
  set (job1 := assign
    [("status", PStr "completed"); ("progress", PInt 100);
     ("audio_url", get result "audio_url");
     ("duration", get_or result "duration" (PInt 0));
     ("file_size", get_or result "file_size" (PInt 0));
     ("completed_at", PIso true now')] job0).
  assert (Hjob1 : Voice.voice_jobs s1 !! uuid = Some job1).
  { subst s1 s0. simpl. by rewrite lookup_setitems, decide_True, lookup_insert_eq. }
  assert (Hjd : Voice.job_dict s1 uuid = job1) by (unfold Voice.job_dict; by rewrite Hjob1).
  assert (Hstore : Voice.store_user_voice a uuid result s1
            = Voice.append_user_voice uid
                (dict_of [("voice_id", PStr (Voice.voice_id a));
                          ("provider", PStr (Voice.provider_name a));
                          ("created_at", get job1 "created_at");
                          ("audio_url", get result "audio_url")]) s1).
  { unfold Voice.store_user_voice. rewrite Huid, Hjd. simpl.
    by rewrite bool_decide_eq_false_2. }
  rewrite Hstore.
  set (v := dict_of _). set (s2 := Voice.append_user_voice uid v s1).
  assert (Hjob2 : Voice.voice_jobs s2 !! uuid = Some job1) by done.
  unfold Voice.returned, Voice.job_item, Voice.job_dict.
  assert (Hs1 : job1 !! "status" = Some (PStr "completed")) by (subst job1; by dict_lookup).
  assert (Hu1 : job1 !! "audio_url" = Some (PStr u)).
  { subst job1. dict_lookup. unfold get. by rewrite Hu. }
  unfold getitem. rewrite Hst. simpl is_str. cbn iota.
  rewrite Hjob2, Hs1. cbn [mbind res_bind default fst snd].
  split.
  - unfold status_of. by dict_lookup.
  - exists v, u. split_and!.
    + subst s2. rewrite voices_of_append, decide_True by done.
      by rewrite !voices_of_spec.
    + subst v. dict_lookup. unfold get. by rewrite Hu.
    + dict_lookup. unfold get. by rewrite Hu1.
    + subst v. by dict_lookup.
    + subst v. by dict_lookup.
    + subst v job1 job0. by dict_lookup.
Qed.

Lemma generated_voice_is_listed_witness :
  let r := Voice.generate_voice hello "v1" 10 (Done 15) 15 Voice.init in
  status_of r.2 = Some "completed"
  ∧ ∃ v u, voices_of "u1" r.1 = (voices_of "u1" Voice.init ++ [PDict v])%list
           ∧ v !! "audio_url" = Some (PStr u)
           ∧ r.2 !! "audio_url" = Some (PStr u)
           ∧ v !! "voice_id" = Some (PStr (Voice.voice_id hello))
           ∧ v !! "provider" = Some (PStr (Voice.provider_name hello))
           ∧ v !! "created_at" = Some (PIso true 10).
Proof.
  apply (generated_voice_is_listed hello "v1" "u1" 10 15 15 Voice.init).
  - reflexivity.
  - by apply (bool_decide_unpack _).
  - reflexivity.
  - discriminate.
Defined.

Lemma user_voices_finish (c : Voice.call) (o : io nat) (now : nat) (s : Voice.backend) :
  (∃ msg, o = Failed msg) ∨ opt_truthy (Voice.user_id (Voice.c_args c)) = false →
  Voice.user_voices (Voice.generate_voice_finish c o now s).1 = Voice.user_voices s.
Proof.
  intros Hcase.
  unfold Voice.generate_voice_finish, Voice.generate_voice_body.
  destruct (provider_result_cases (Voice.c_args c) o) as [(u & Hst & Hu)|(m & Hst & Hm)];
    unfold getitem at 1; rewrite Hst; simpl is_str; cbn iota.
  - assert (Hsame : Voice.user_voices
              (Voice.store_user_voice (Voice.c_args c) (Voice.c_job_id c)
                 (Voice.provider_result (Voice.c_args c) o)
                 (Voice.mark_completed (Voice.c_job_id c)
                    (Voice.provider_result (Voice.c_args c) o) now s))
            = Voice.user_voices s).
    { destruct Hcase as [[msg ->]|Hfalsy].
      - rewrite provider_result_failed in Hst. done.
      - unfold Voice.store_user_voice. rewrite Hfalsy.
        by destruct (Voice.user_id (Voice.c_args c)). }
    by destruct (Voice.returned _ _ _).
  - by destruct (Voice.returned _ _ _).
Qed.

(** X13: only a successful generation for a non-empty user id extends a
    list of voices: when the provider fails, when the call names no user
    (or the empty user id), or when the provider is not registered,
    [generate_voice] leaves all lists of voices as they were. *)
Theorem failed_voice_is_not_listed (a : Voice.voice_args) (uuid : string) (now now' : nat)
    (o : io nat) (s : Voice.backend) :
  (∃ msg, o = Failed msg) ∨ opt_truthy (Voice.user_id a) = false
  ∨ Voice.providers s !! Voice.provider_name a = None →
  Voice.user_voices (Voice.generate_voice a uuid now o now' s).1 = Voice.user_voices s
  ∧ ∀ uid, Voice.get_user_voices uid (Voice.generate_voice a uuid now o now' s).1
           = Voice.get_user_voices uid s.
Proof.
  intros Hcase.
  assert (H : Voice.user_voices (Voice.generate_voice a uuid now o now' s).1
              = Voice.user_voices s).
  { unfold Voice.generate_voice, Voice.generate_voice_submit.
    destruct (Voice.providers s !! Voice.provider_name a) as [p|] eqn:Hp; [|done].
    destruct (Voice.enabled p); [|done]. cbn [negb].
    rewrite user_voices_finish; [done|].
    simpl. destruct Hcase as [?|[?|?]]; [by left|by right|done]. }
  split; [done|]. intros uid. unfold Voice.get_user_voices. by rewrite H.
Qed.

Lemma failed_voice_is_not_listed_witness :
  Voice.user_voices (Voice.generate_voice hello "v1" 10 (Failed "timeout") 15 Voice.init).1
    = Voice.user_voices Voice.init
  ∧ ∀ uid, Voice.get_user_voices uid
             (Voice.generate_voice hello "v1" 10 (Failed "timeout") 15 Voice.init).1
           = Voice.get_user_voices uid Voice.init.
Proof.
  apply (failed_voice_is_not_listed hello "v1" 10 15 (Failed "timeout") Voice.init).
  left. by exists "timeout".
Defined.

(** ** Finished jobs *)

Lemma finished_job_step (e : App.event) (σ σ' : App.state) (out : output) (id : string)
    (job : dict) (t : Content.task) :
  content_inv σ → App.exec e σ = Some (σ', out) →
  Content.generation_jobs (App.content σ) !! id = Some job →
  App.content_tasks σ !! id = Some t → Content.finished (Content.t_pc t) = true →
  Content.generation_jobs (App.content σ') !! id = Some job
  ∧ App.content_tasks σ' !! id = Some t.
Proof.
  intros [Hts Hjobs] Hexec Hjob Ht Hfin.
  destruct e; simpl in Hexec; try (repeat case_match; simplify_eq; done).
  - (* GenerateContent *)
    case_bool_decide as Hfresh; [done|]. apply eq_None_not_Some in Hfresh.
    simplify_eq. simpl. assert (uuid ≠ id) by congruence.
    by rewrite !lookup_insert_ne.
  - (* ContentTaskRuns *)
    destruct (App.content_tasks σ !! job_id) as [t'|] eqn:Ht'; [|done].
    destruct (Content.finished (Content.t_pc t')) eqn:Hfin'; [done|].
    assert (job_id ≠ id) by (intros ->; congruence).
    pose proof (content_resume_other t' i (App.content σ) id) as Hoth.
    rewrite (Hts _ _ Ht') in Hoth.
    destruct (Content.resume t' i (App.content σ)) as [b t''].
    simplify_eq. simpl in *. by rewrite Hoth, lookup_insert_ne.
  - (* GetGenerationStatus *)
    pose proof (get_generation_status_state job_id (App.content σ)) as E.
    destruct (Content.get_generation_status job_id (App.content σ)) as [b v].
    simpl in E. by simplify_eq.
Qed.

(** X14: a generation job that has come to its end stays as it is: in every
    state the process can reach, the record of a job whose status is not
    [processing] (it is [completed] or [failed]) is the same after any
    further events; no request and no task writes to it again. *)
Theorem finished_generation_job_is_final (es1 es2 : list App.event) (σ1 σ2 : App.state)
    (o1 o2 : list output) (id : string) (job : dict) (st : string) :
  App.run es1 App.init = Some (σ1, o1) →
  App.run es2 σ1 = Some (σ2, o2) →
  Content.generation_jobs (App.content σ1) !! id = Some job →
  status_of job = Some st → st ≠ "processing" →
  (st = "completed" ∨ st = "failed")
  ∧ Content.generation_jobs (App.content σ2) !! id = Some job.
Proof.
  intros H1 H2 Hjob Hst Hne.
  destruct (inv_run _ _ _ _ inv_init H1) as (Hinv & _).
  pose proof Hinv as (_ & [Hts Hjobs] & _).
  destruct (Hjobs _ _ Hjob) as (t & Ht & Hok).
  unfold content_job_ok in Hok.
  destruct (Content.finished (Content.t_pc t)) eqn:Hfin;
    [|destruct Hok as (Hproc & _); congruence].
  split; [destruct Hok as [(? & _)|(? & _)]; simplify_eq; auto|].
  clear H1 Hok Hts Hjobs Hst Hne.
  revert σ1 o2 H2 Hinv Hjob Ht.
  induction es2 as [|e es IH]; intros σ1 o2 H2 Hinv Hjob Ht; simpl in H2.
  - by simplify_eq.
  - destruct (App.exec e σ1) as [[σ' o]|] eqn:Hexec; [|done].
    destruct (App.run es σ') as [[σ'' os]|] eqn:Hrest; [|done]. simplify_eq.
    destruct (inv_exec _ _ _ _ Hinv Hexec) as (Hinv' & _).
    destruct (finished_job_step _ _ _ _ _ _ _ (proj1 (proj2 Hinv)) Hexec Hjob Ht Hfin)
      as [Hjob' Ht'].
    by eapply IH.
Qed.

Lemma finished_generation_job_is_final_witness :
  ("completed" = "completed" ∨ "completed" = "failed")
  ∧ Content.generation_jobs (App.content (state_after (script_only_run ++ more_work)))
      !! "j1" = Some (default ∅ script_only_job).
Proof.
  destruct (runs_after script_only_run more_work) as (o1 & o2 & H1 & H2);
    [vm_compute; reflexivity|].
  apply (finished_generation_job_is_final script_only_run more_work _ _ o1 o2 "j1"
           (default ∅ script_only_job) "completed" H1 H2).
  - apply lookup_default. apply (bool_decide_unpack _). vm_compute. exact I.
  - vm_compute. reflexivity.
  - discriminate.
Defined.

Lemma published_job_step (e : App.event) (σ σ' : App.state) (out : output) (id : string)
    (job : dict) (t : Publishing.task) :
  publishing_inv σ → App.exec e σ = Some (σ', out) →
  Publishing.publishing_jobs (App.publishing σ) !! id = Some job →
  App.publishing_tasks σ !! id = Some t → Publishing.t_pc t = Publishing.Finished →
  Publishing.publishing_jobs (App.publishing σ') !! id = Some job
  ∧ App.publishing_tasks σ' !! id = Some t.
Proof.
  intros [Hts Hjobs] Hexec Hjob Ht Hfin.
  destruct e; simpl in Hexec; try (repeat case_match; simplify_eq; done).
  - (* SchedulePost *)
    case_bool_decide as Hfresh; [done|].
    assert (uuid ≠ id) by (intros ->; apply Hfresh; left; by eexists).
    unfold Publishing.schedule_post in Hexec.
    destruct schedule_time as [str|aware t0]; simplify_eq; [done|].
    destruct (Publishing._optimize_content_for_platforms content platforms);
      simplify_eq; [|done].
    simpl. by rewrite lookup_insert_ne.
  - (* PublishImmediately *)
    case_bool_decide as Hfresh; [done|].
    assert (uuid ≠ id) by (intros ->; apply Hfresh; left; by eexists).
    unfold Publishing.publish_immediately in Hexec.
    destruct (Publishing._optimize_content_for_platforms content platforms);
      simplify_eq; [|done].
    simpl. by rewrite !lookup_insert_ne.
  - (* PublishingTaskRuns *)
    destruct (App.publishing_tasks σ !! post_id) as [t'|] eqn:Ht'; [|done].
    assert (post_id ≠ id).
    { intros ->. simplify_eq. by rewrite Hfin in Hexec. }
    pose proof (touches_only_resume t' i (App.publishing σ)) as (f & g & Hto).
    rewrite (Hts _ _ Ht') in Hto. destruct (Hto id) as [Hpub _].
    rewrite decide_False in Hpub by done.
    destruct (Publishing.resume t' i (App.publishing σ)) as [b t''].
    assert (σ' = App.set_publishing b (<[post_id := t'']> (App.publishing_tasks σ)) σ)
      as -> by (destruct (Publishing.t_pc t'); by simplify_eq).
    simpl in *. by rewrite Hpub, lookup_insert_ne.
  - (* CancelScheduledPost *)
    unfold Publishing.cancel_scheduled_post in Hexec.
    case_bool_decide; by simplify_eq.
  - (* GetPublishingStatus *)
    pose proof (get_publishing_status_state post_id (App.publishing σ)) as E.
    destruct (Publishing.get_publishing_status post_id (App.publishing σ)) as [b v].
    simpl in E. by simplify_eq.
Qed.

(** X15: the overwriting of a finished post concerns scheduled posts only:
    in every state the process can reach, the record of a job in
    [publishing_jobs] whose status is [completed] or [failed] is the same
    after any further events, cancel requests included. *)
Theorem published_job_is_final (es1 es2 : list App.event) (σ1 σ2 : App.state)
    (o1 o2 : list output) (id : string) (job : dict) (st : string) :
  App.run es1 App.init = Some (σ1, o1) →
  App.run es2 σ1 = Some (σ2, o2) →
  Publishing.publishing_jobs (App.publishing σ1) !! id = Some job →
  status_of job = Some st → st = "completed" ∨ st = "failed" →
  Publishing.publishing_jobs (App.publishing σ2) !! id = Some job.
Proof.
  intros H1 H2 Hjob Hst Hterm.
  destruct (inv_run _ _ _ _ inv_init H1) as (Hinv & _).
  pose proof Hinv as (_ & _ & [Hts Hjobs]).
  destruct (Hjobs Publishing.InPublishing _ _ Hjob) as (_ & t & Ht & Hok).
  assert (Hfin : Publishing.t_pc t = Publishing.Finished).
  { destruct Hok as (_ & _ & _ & st' & Hst' & Hc & Hf & _).
    rewrite Hst in Hst'. simplify_eq.
    destruct Hterm as [->| ->]; [by apply Hc|by apply Hf]. }
  clear H1 Hok Hts Hjobs Hst Hterm.
  revert σ1 o2 H2 Hinv Hjob Ht.
  induction es2 as [|e es IH]; intros σ1 o2 H2 Hinv Hjob Ht; simpl in H2.
  - by simplify_eq.
  - destruct (App.exec e σ1) as [[σ' o]|] eqn:Hexec; [|done].
    destruct (App.run es σ') as [[σ'' os]|] eqn:Hrest; [|done]. simplify_eq.
    destruct (inv_exec _ _ _ _ Hinv Hexec) as (Hinv' & _).
    destruct (published_job_step _ _ _ _ _ _ _ (proj2 (proj2 Hinv)) Hexec Hjob Ht Hfin)
      as [Hjob' Ht'].
    by eapply IH.
Qed.

Lemma published_job_is_final_witness :
  Publishing.publishing_jobs (App.publishing (state_after (publish_now ++ more_posts)))
    !! "p1"
  = Some (default ∅ (Publishing.publishing_jobs (App.publishing (state_after publish_now))
                       !! "p1")).
Proof.
  destruct (runs_after publish_now more_posts) as (o1 & o2 & H1 & H2);
    [vm_compute; reflexivity|].
  apply (published_job_is_final publish_now more_posts _ _ o1 o2 "p1" _ "completed" H1 H2).
  - apply lookup_default. apply (bool_decide_unpack _). vm_compute. exact I.
  - vm_compute. reflexivity.
  - by left.
Defined.

(** ** Content requested over HTTP *)

(** X16: content requested through [POST /api/content/generate] never gets
    a voice or a video: the handler passes no voice model and no avatar to
    the backend, so for every content type, [video] included, the task has
    the two stages script and finalisation only; three segments take the
    job from progress 0 over 20 to [completed] with progress 100, with no
    [voice_file] and no [video_file], whatever the outcome of file work
    would have been. *)
Theorem api_content_skips_media (uid script ctype uuid : string) (now est : nat)
    (s : Content.backend) (i1 i2 i3 : Content.tick) :
  let r := Api.generate_content_with_ai true uid script ctype uuid now est s in
  Api.status_code r.1.2 = 200
  ∧ ∃ task job2 job3,
      r.2 = Some task
      ∧ Content.stage_sequence (Content.t_args task)
        = [Content.ScriptStage; Content.FinalStage]
      ∧ Content.generation_jobs (run_task [i1; i2] task r.1.1).1 !! uuid = Some job2
      ∧ status_of job2 = Some "processing" ∧ progress_of job2 = Some 20%Z
      ∧ Content.generation_jobs (run_task [i1; i2; i3] task r.1.1).1 !! uuid = Some job3
      ∧ Content.t_pc (run_task [i1; i2; i3] task r.1.1).2 = Content.Finished
      ∧ status_of job3 = Some "completed" ∧ progress_of job3 = Some 100%Z
      ∧ job3 !! "content_type" = Some (PStr ctype)
      ∧ job3 !! "voice_file" = None ∧ job3 !! "video_file" = None.
Proof.
  intros r. subst r. unfold Api.generate_content_with_ai, Content.generate_content.
  cbn [negb fst snd Api.status_code]. split; [done|].
  set (job0 := dict_of _). set (a := Content.Build_gen_args _ _ _ _ _).
  set (s1 := Content.with_jobs _ s).
  assert (Hjob : Content.generation_jobs s1 !! uuid = Some job0)
    by (simpl; by rewrite lookup_insert_eq).
  eexists (Content.spawn a uuid), _, _.
  unfold Content.spawn.
  cbn [run_task Content.resume Content.t_pc Content.t_job_id Content.t_args Content.at_pc].
  rewrite Hjob.
  cbn [run_task Content.resume Content.t_pc Content.t_job_id Content.t_args Content.at_pc].
  assert (Hafter : Content.after_script a = Content.Finalizing) by done.
  rewrite Hafter.
  cbn [run_task Content.resume Content.t_pc Content.t_job_id Content.t_args Content.at_pc
       fst snd Content.generation_jobs Content.with_jobs].
  rewrite !lookup_setitems, !decide_True, Hjob by done. cbn [fmap option_fmap option_map].
  split_and!; reflexivity.
Qed.

(** ** The voice cache and the optimisation statistics *)

(** X17: the voice cache answers a repeated script from the cache: for any
    hash function, a second call of [_generate_voice_cached] with the same
    script, or with any script of the same hash, returns the file of the
    first call and changes nothing; a call never replaces an entry the
    cache already holds and never touches the generation jobs. *)
Theorem voice_cache_repeats (md5 : string → string) (script : string) (s : Content.backend) :
  let r := Content._generate_voice_cached md5 script s in
  Content._generate_voice_cached md5 script r.1 = r
  ∧ (∀ script', md5 script' = md5 script →
       Content._generate_voice_cached md5 script' r.1 = r)
  ∧ (∀ k f, Content.voice_cache s !! k = Some f → Content.voice_cache r.1 !! k = Some f)
  ∧ Content.voice_cache r.1 !! md5 script = Some r.2
  ∧ Content.generation_jobs r.1 = Content.generation_jobs s.
Proof.
  intros r. subst r. unfold Content._generate_voice_cached.
  destruct (Content.voice_cache s !! md5 script) as [f|] eqn:Hhit; cbn [fst snd].
  - rewrite Hhit. split_and!; try done. intros script' ->. by rewrite Hhit.
  - unfold Content.cache_voice. cbn [fst snd Content.voice_cache Content.with_cache].
    rewrite lookup_insert_eq. split_and!; try done.
    + intros script' ->. by rewrite lookup_insert_eq.
    + intros k f Hk. rewrite lookup_insert_ne; [done|]. intros <-. congruence.
Qed.

Lemma mapM_cons_res {A B : Type} (f : A → res B) (x : A) (l : list A) :
  mapM f (x :: l) = match f x with
                    | Ok y => match mapM f l with Ok k => Ok (y :: k) | Raise e => Raise e end
                    | Raise e => Raise e
                    end.
Proof. done. Qed.

Lemma length_mapM_res {A B : Type} (f : A → res B) (l : list A) (k : list B) :
  mapM f l = Ok k → length l = length k.
Proof.
  revert k. induction l as [|x l IH]; intros k; [by intros [= <-]|].
  rewrite mapM_cons_res. destruct (f x); [|done].
  destruct (mapM f l); [|done]. intros [= <-]. simpl. by rewrite (IH _ eq_refl).
Qed.

Lemma mapM_status (jobs : list dict) :
  Forall (λ job, is_Some (job !! "status")) jobs →
  ∃ statuses, mapM (λ job, getitem job "status") jobs = Ok statuses.
Proof.
  induction 1 as [|job jobs [st Hst] _ [sts IH]]; [by eexists|].
  exists (st :: sts). rewrite mapM_cons_res, IH. unfold getitem. by rewrite Hst.
Qed.

Lemma content_cache_step (e : App.event) (σ σ' : App.state) (out : output) :
  App.exec e σ = Some (σ', out) →
  Content.voice_cache (App.content σ') = Content.voice_cache (App.content σ)
  ∧ Content.batch_queue (App.content σ') = Content.batch_queue (App.content σ).
Proof.
  intros Hexec.
  destruct e; simpl in Hexec; try (repeat case_match; simplify_eq; done).
  - destruct (App.content_tasks σ !! job_id) as [t|]; [|done].
    destruct (Content.finished (Content.t_pc t)); [done|].
    assert (Content.voice_cache (Content.resume t i (App.content σ)).1
              = Content.voice_cache (App.content σ)
            ∧ Content.batch_queue (Content.resume t i (App.content σ)).1
              = Content.batch_queue (App.content σ)) as [E1 E2].
    { unfold Content.resume.
      destruct (Content.t_pc t); try done.
      - by destruct (Content.generation_jobs _ !! _).
      - by destruct (Content.work i).
      - by destruct (Content.work i). }
    destruct (Content.resume t i (App.content σ)) as [b t']. by simplify_eq.
  - pose proof (get_generation_status_state job_id (App.content σ)) as E.
    destruct (Content.get_generation_status job_id (App.content σ)) as [b v].
    simpl in E. by simplify_eq.
Qed.

Lemma content_cache_run (es : list App.event) (σ0 σ : App.state) (outs : list output) :
  App.run es σ0 = Some (σ, outs) →
  Content.voice_cache (App.content σ) = Content.voice_cache (App.content σ0)
  ∧ Content.batch_queue (App.content σ) = Content.batch_queue (App.content σ0).
Proof.
  revert σ0 outs. induction es as [|e es IH]; intros σ0 outs Hrun; simpl in Hrun.
  - by simplify_eq.
  - destruct (App.exec e σ0) as [[σ1 o]|] eqn:Hexec; [|done].
    destruct (App.run es σ1) as [[σ2 os]|] eqn:Hrest; [|done]. simplify_eq.
    destruct (content_cache_step _ _ _ _ Hexec) as [E1 E2].
    destruct (IH _ _ Hrest) as [E3 E4]. split; congruence.
Qed.

(** X18: [get_optimization_stats] always answers, and always the same about
    the cache and the batch queue: nothing the process runs fills them
    ([_generate_voice_cached] and [_check_batch_processing] have no
    caller), so in every reachable state the statistics show 0 voice cache
    hits and a batch queue of size 0, whatever has been generated. *)
Theorem optimization_stats_stay_empty (es : list App.event) (σ : App.state)
    (outs : list output) :
  App.run es App.init = Some (σ, outs) →
  ∃ d n, Content.get_optimization_stats (App.content σ) = Ok d
         ∧ d !! "voice_cache_hits" = Some (PInt 0)
         ∧ d !! "batch_queue_size" = Some (PInt 0)
         ∧ d !! "active_jobs" = Some (PInt (Z.of_nat n))
         ∧ (n ≤ size (Content.generation_jobs (App.content σ)))%nat.
Proof.
  intros Hrun.
  destruct (inv_run _ _ _ _ inv_init Hrun) as ((_ & [_ Hjobs] & _) & _).
  destruct (content_cache_run _ _ _ _ Hrun) as [Hc Hq]. simpl in Hc, Hq.
  destruct (mapM_status (map_to_list (Content.generation_jobs (App.content σ))).*2)
    as [sts Hsts].
  { apply Forall_fmap, Forall_forall. intros [id job] Hin%elem_of_map_to_list. simpl.
    destruct (Hjobs _ _ Hin) as (t & _ & Hok). unfold content_job_ok in Hok.
    assert (is_Some (status_of job)) as [st Hst].
    { destruct (Content.finished _); [destruct Hok as [(? & _)|(? & _)]|destruct Hok as (? & _)];
        by eexists. }
    unfold status_of in Hst. destruct (job !! "status"); [by eexists|done]. }
  unfold Content.get_optimization_stats. rewrite Hsts, Hc, Hq. simpl.
  eexists _, _. split_and!; [done|by dict_lookup..|].
  etrans; [apply length_filter|].
  apply length_mapM_res in Hsts. rewrite <- Hsts, length_fmap.
  by rewrite length_map_to_list.
Qed.

Lemma optimization_stats_stay_empty_witness :
  ∃ d n, Content.get_optimization_stats (App.content (state_after busy_day)) = Ok d
         ∧ d !! "voice_cache_hits" = Some (PInt 0)
         ∧ d !! "batch_queue_size" = Some (PInt 0)
         ∧ d !! "active_jobs" = Some (PInt (Z.of_nat n))
         ∧ (n ≤ size (Content.generation_jobs (App.content (state_after busy_day))))%nat.
Proof.
  apply (optimization_stats_stay_empty busy_day _ (outputs_of busy_day)).
  apply runs_spec. vm_compute. reflexivity.
Defined.

(** ** Voice statistics *)

Lemma provider_str_step (e : App.event) (σ σ' : App.state) (out : output) :
  voice_inv σ → App.exec e σ = Some (σ', out) →
  (∀ id job, Voice.voice_jobs (App.voice σ) !! id = Some job →
     ∃ p, job !! "provider" = Some (PStr p)) →
  ∀ id job, Voice.voice_jobs (App.voice σ') !! id = Some job →
    ∃ p, job !! "provider" = Some (PStr p).
Proof.
  intros [Hcalls Hjobs] Hexec Hall.
  destruct e; simpl in Hexec; try (repeat case_match; simplify_eq; exact Hall).
  - (* GenerateVoice *)
    case_bool_decide; [done|].
    unfold Voice.generate_voice_submit in Hexec.
    destruct (Voice.providers (App.voice σ) !! Voice.provider_name a) as [p|];
      [|by simplify_eq].
    destruct (Voice.enabled p); simpl in Hexec; simplify_eq; [|done].
    intros id job. simpl. rewrite lookup_insert. case_decide; [|apply Hall].
    intros [= <-]. eexists. by dict_lookup.
  - (* VoiceProviderDone *)
    destruct (App.voice_calls σ !! job_id) as [c|] eqn:Hc; [|done].
    destruct (Hcalls _ _ Hc) as [Hid [job Hjob]]. subst job_id.
    destruct (finish_spec c o now (App.voice σ) job Hjob)
      as (s' & d & job' & st & Hfin & Hlook & _ & _ & _ & E1 & _).
    rewrite Hfin in Hexec. simplify_eq. intros id job''. simpl. rewrite Hlook.
    case_decide; [|apply Hall]. intros [= <-]. rewrite E1. by eapply Hall.
  - (* GetVoiceStatus *)
    pose proof (get_voice_status_state job_id (App.voice σ)) as E.
    destruct (Voice.get_voice_status job_id (App.voice σ)) as [v r].
    simpl in E. by simplify_eq.
Qed.

Lemma voice_jobs_counted (es : list App.event) (σ : App.state) (outs : list output) :
  App.run es App.init = Some (σ, outs) →
  ∀ id job, Voice.voice_jobs (App.voice σ) !! id = Some job → voice_job_counted job.
Proof.
  intros Hrun id job Hjob. split.
  - revert id job Hjob.
    assert (H0 : ∀ id job, Voice.voice_jobs (App.voice App.init) !! id = Some job →
                   ∃ p, job !! "provider" = Some (PStr p))
      by (intros ? ?; simpl; by rewrite lookup_empty).
    pose proof inv_init as Hinv. revert H0 Hinv Hrun. generalize App.init as σ0.
    revert outs. induction es as [|e es IH]; intros outs σ0 H0 Hinv Hrun; simpl in Hrun.
    + by simplify_eq.
    + destruct (App.exec e σ0) as [[σ1 o]|] eqn:Hexec; [|done].
      destruct (App.run es σ1) as [[σ2 os]|] eqn:Hrest; [|done]. simplify_eq.
      destruct (inv_exec _ _ _ _ Hinv Hexec) as (Hinv1 & _).
      eapply (IH _ σ1); [|done..].
      by eapply provider_str_step; [apply Hinv|..].
  - destruct (inv_run _ _ _ _ inv_init Hrun) as (([_ Hjobs] & _) & _).
    destruct (Hjobs _ _ Hjob) as (_ & _ & _ & Hcase).
    unfold status_of in Hcase.
    destruct (job !! "status") as [[]|];
      destruct Hcase as [(Hs & _)|[(Hs & _)|(Hs & _)]]; simplify_eq; auto.
Qed.

Lemma mapM_statuses (jobs : list dict) :
  Forall voice_job_counted jobs →
  ∃ statuses,
    mapM (λ job, getitem job "status") jobs = Ok statuses
    ∧ Forall (λ v, v = PStr "completed" ∨ v = PStr "failed" ∨ v = PStr "processing")
        statuses.
Proof.
  induction 1 as [|job jobs [_ Hst] _ (sts & IH & Hsts)]; [by eexists|].
  rewrite mapM_cons_res, IH. unfold getitem.
  destruct Hst as [Hst|[Hst|Hst]]; rewrite Hst; eexists; (split; [done|]);
    constructor; auto.
Qed.

Lemma statuses_partition (statuses : list pyval) :
  Forall (λ v, v = PStr "completed" ∨ v = PStr "failed" ∨ v = PStr "processing") statuses →
  length statuses
  = length (filter (λ v, is_str v "completed" = true) statuses)
    + length (filter (λ v, is_str v "failed" = true) statuses)
    + length (filter (λ v, is_str v "processing" = true) statuses).
Proof.
  induction 1 as [|v l Hv _ IH]; [done|].
  rewrite !filter_cons.
  destruct Hv as [->|[->| ->]]; simpl;
    repeat (case_decide; try done); simpl; lia.
Qed.

Lemma count_provider_counted (job : dict) (acc : gmap string Voice.provider_counts) :
  voice_job_counted job → ∃ acc', Voice.count_provider (Ok acc) job = Ok acc'.
Proof.
  intros [[p Hp] Hst]. unfold Voice.count_provider, getitem, mbind, res_bind.
  rewrite Hp. destruct Hst as [Hst|[Hst|Hst]]; rewrite Hst; by eexists.
Qed.

Lemma count_provider_ok (jobs : list dict) (acc : gmap string Voice.provider_counts) :
  Forall voice_job_counted jobs →
  ∃ stats, foldl Voice.count_provider (Ok acc) jobs = Ok stats.
Proof.
  intros Hall. revert acc. induction Hall as [|job jobs Hjob _ IH]; intros acc.
  - by eexists.
  - cbn [foldl]. destruct (count_provider_counted job acc Hjob) as [acc' ->]. apply IH.
Qed.

(** X19: the voice statistics add up: in every state the process can
    reach, [get_voice_stats] returns, every stored job is counted in
    exactly one of [completed_jobs], [failed_jobs] and [processing_jobs],
    so that the three sum to [total_jobs], and the success rate is the
    quotient of completed and total jobs, or 0 for an empty store. *)
Theorem voice_stats_add_up (es : list App.event) (σ : App.state) (outs : list output) :
  App.run es App.init = Some (σ, outs) →
  ∃ st, Voice.get_voice_stats (App.voice σ) = Ok st
        ∧ Voice.total_jobs st = size (Voice.voice_jobs (App.voice σ))
        ∧ Voice.total_jobs st
          = Voice.completed_jobs st + Voice.failed_jobs st + Voice.processing_jobs st
        ∧ Voice.success_rate st
          = (if bool_decide (0 < Voice.total_jobs st)
             then Some (Voice.completed_jobs st, Voice.total_jobs st) else None).
Proof.
  intros Hrun. pose proof (voice_jobs_counted _ _ _ Hrun) as Hcounted.
  assert (Hall : Forall voice_job_counted (map_to_list (Voice.voice_jobs (App.voice σ))).*2).
  { apply Forall_fmap, Forall_forall. intros [id job] Hin%elem_of_map_to_list.
    by eapply Hcounted. }
  destruct (mapM_statuses _ Hall) as (sts & Hsts & Hthree).
  destruct (count_provider_ok _ ∅ Hall) as [stats Hstats].
  unfold Voice.get_voice_stats, Voice.count_status. rewrite Hsts, Hstats.
  cbn [mbind res_bind]. eexists. split; [done|]. cbn.
  split_and!; [done| |done].
  rewrite <- (statuses_partition _ Hthree).
  apply length_mapM_res in Hsts. by rewrite <- Hsts, length_fmap, length_map_to_list.
Qed.

Lemma voice_stats_add_up_witness :
  ∃ st, Voice.get_voice_stats (App.voice (state_after busy_day)) = Ok st
        ∧ Voice.total_jobs st = size (Voice.voice_jobs (App.voice (state_after busy_day)))
        ∧ Voice.total_jobs st
          = Voice.completed_jobs st + Voice.failed_jobs st + Voice.processing_jobs st
        ∧ Voice.success_rate st
          = (if bool_decide (0 < Voice.total_jobs st)
             then Some (Voice.completed_jobs st, Voice.total_jobs st) else None).
Proof.
  apply (voice_stats_add_up busy_day _ (outputs_of busy_day)).
  apply runs_spec. vm_compute. reflexivity.
Defined.

(** ** A generation that fails *)

Lemma run_task_finished (ticks : list Content.tick) (a : Content.gen_args) (id : string)
    (s : Content.backend) :
  run_task ticks {| Content.t_args := a; Content.t_job_id := id;
                    Content.t_pc := Content.Finished |} s
  = (s, {| Content.t_args := a; Content.t_job_id := id; Content.t_pc := Content.Finished |}).
Proof. by induction ticks. Qed.

(** X20: when writing the voice file fails, the job ends there: after
    [generate_content] and the first three segments of its task, the third
    of which fails to write the file, the job is [failed], its [error] and
    [current_step] carry the message of the failure, its progress stays at
    the 60 it had reached, it has no voice file, no video file and no
    [completed_at], and no later segment changes it. *)
Theorem voice_failure_ends_job (a : Content.gen_args) (uuid : string) (now est : nat)
    (s : Content.backend) (i1 i2 i3 : Content.tick) (more : list Content.tick)
    (e : string) :
  Content.wants_voice a = true → Content.work i3 = Failed e →
  let s1 := (Content.generate_content a uuid now est s).1 in
  let r := run_task (i1 :: i2 :: i3 :: more) (Content.spawn a uuid) s1 in
  Content.t_pc r.2 = Content.Finished
  ∧ ∃ job, Content.generation_jobs r.1 !! uuid = Some job
           ∧ status_of job = Some "failed"
           ∧ progress_of job = Some 60%Z
           ∧ job !! "error" = Some (PStr ("Voice generation failed: " +:+ e))
           ∧ job !! "current_step"
             = Some (PStr ("Generation failed: Voice generation failed: " +:+ e))
           ∧ job !! "voice_file" = None ∧ job !! "video_file" = None
           ∧ job !! "completed_at" = None.
Proof.
  intros Hvoice Hwork s1 r. subst r s1. unfold Content.generate_content.
  cbn [fst snd].
  set (job0 := dict_of _). set (s1 := Content.with_jobs _ s).
  assert (Hjob : Content.generation_jobs s1 !! uuid = Some job0)
    by (simpl; by rewrite lookup_insert_eq).
  unfold Content.spawn.
  cbn [run_task Content.resume Content.t_pc Content.t_job_id Content.t_args Content.at_pc].
  rewrite Hjob.
  cbn [run_task Content.resume Content.t_pc Content.t_job_id Content.t_args Content.at_pc].
  assert (Hafter : Content.after_script a = Content.Voicing)
    by (unfold Content.after_script; by rewrite Hvoice).
  rewrite Hafter.
  cbn [run_task Content.resume Content.t_pc Content.t_job_id Content.t_args Content.at_pc].
  rewrite Hwork. unfold Content.fail_job, Content.at_pc.
  cbn [Content.t_pc Content.t_job_id Content.t_args].
  rewrite run_task_finished.
  cbn [fst snd Content.generation_jobs Content.with_jobs Content.t_pc].
  rewrite !lookup_setitems, !decide_True, Hjob by done. cbn [fmap option_fmap option_map].
  split; [done|]. eexists. split; [done|].
  split_and!.
  - unfold status_of. by dict_lookup.
  - unfold progress_of. by dict_lookup.
  - by dict_lookup.
  - by dict_lookup.
  - subst job0. by dict_lookup.
  - subst job0. by dict_lookup.
  - subst job0. by dict_lookup.
Qed.

Lemma voice_failure_ends_job_witness :
  let s1 := (Content.generate_content reel "j1" 1 5 Content.init).1 in
  let r := run_task
             [wrote 2; wrote 3; {| Content.now := 4; Content.work := Failed "disk full" |};
              wrote 5]
             (Content.spawn reel "j1") s1 in
  Content.t_pc r.2 = Content.Finished
  ∧ ∃ job, Content.generation_jobs r.1 !! "j1" = Some job
           ∧ status_of job = Some "failed"
           ∧ progress_of job = Some 60%Z
           ∧ job !! "error" = Some (PStr ("Voice generation failed: " +:+ "disk full"))
           ∧ job !! "current_step"
             = Some (PStr ("Generation failed: Voice generation failed: " +:+ "disk full"))
           ∧ job !! "voice_file" = None ∧ job !! "video_file" = None
           ∧ job !! "completed_at" = None.
Proof.
  apply (voice_failure_ends_job reel "j1" 1 5 Content.init (wrote 2) (wrote 3)
           {| Content.now := 4; Content.work := Failed "disk full" |} [wrote 5] "disk full");
    reflexivity.
Defined.

(** ** Records are kept *)

Lemma publishing_keeps_step (e : App.event) (σ σ' : App.state) (out : output)
    (j : Publishing.store) (id : string) :
  App.exec e σ = Some (σ', out) →
  is_Some (lookup_in j (App.publishing σ) id) →
  is_Some (lookup_in j (App.publishing σ') id).
Proof.
  intros Hexec Hin.
  destruct e; simpl in Hexec; try (repeat case_match; simplify_eq; exact Hin).
  - (* SchedulePost *)
    case_bool_decide; [done|]. unfold Publishing.schedule_post in Hexec.
    destruct schedule_time as [str|aware t0]; simplify_eq; [done|].
    destruct (Publishing._optimize_content_for_platforms content platforms);
      simplify_eq; [|done].
    destruct j; simpl in *; [done|]. rewrite lookup_insert. by case_decide.
  - (* PublishImmediately *)
    case_bool_decide; [done|]. unfold Publishing.publish_immediately in Hexec.
    destruct (Publishing._optimize_content_for_platforms content platforms);
      simplify_eq; [|done].
    destruct j; simpl in *; [|done]. rewrite lookup_insert. by case_decide.
  - (* PublishingTaskRuns *)
    destruct (App.publishing_tasks σ !! post_id) as [t|]; [|done].
    pose proof (touches_only_resume t i (App.publishing σ)) as Hto.
    destruct (touches_only_lookup_in _ _ _ Hto j id) as [h Hh].
    destruct (Publishing.resume t i (App.publishing σ)) as [b t'].
    assert (σ' = App.set_publishing b (<[post_id := t']> (App.publishing_tasks σ)) σ)
      as -> by (destruct (Publishing.t_pc t); by simplify_eq).
    simpl in *. rewrite Hh. case_decide; [|done]. by apply fmap_is_Some.
  - (* CancelScheduledPost *)
    unfold Publishing.cancel_scheduled_post in Hexec.
    case_bool_decide; simplify_eq; [|done].
    destruct j; simpl in *; [done|].
    rewrite lookup_setitem. case_decide; [|done]. by apply fmap_is_Some.
  - (* GetPublishingStatus *)
    pose proof (get_publishing_status_state post_id (App.publishing σ)) as E.
    destruct (Publishing.get_publishing_status post_id (App.publishing σ)) as [b v].
    simpl in E. by simplify_eq.
Qed.

Lemma publishing_keeps_run (es : list App.event) (σ σ' : App.state) (outs : list output)
    (j : Publishing.store) (id : string) :
  App.run es σ = Some (σ', outs) →
  is_Some (lookup_in j (App.publishing σ) id) →
  is_Some (lookup_in j (App.publishing σ') id).
Proof.
  revert σ outs. induction es as [|e es IH]; intros σ outs Hrun Hin; simpl in Hrun.
  - by simplify_eq.
  - destruct (App.exec e σ) as [[σ1 o]|] eqn:Hexec; [|done].
    destruct (App.run es σ1) as [[σ2 os]|] eqn:Hrest; [|done]. simplify_eq.
    eapply IH; [done|]. by eapply publishing_keeps_step.
Qed.

(** X21: no record is ever removed: in every state the process can reach,
    a voice job, a generation job, a publishing job or a scheduled post
    that is stored under an id is still stored under it after any further
    events; the four stores only grow. *)
Theorem records_are_never_removed (es1 es2 : list App.event) (σ1 σ2 : App.state)
    (o1 o2 : list output) (id : string) :
  App.run es1 App.init = Some (σ1, o1) →
  App.run es2 σ1 = Some (σ2, o2) →
  (is_Some (Voice.voice_jobs (App.voice σ1) !! id) →
   is_Some (Voice.voice_jobs (App.voice σ2) !! id))
  ∧ (is_Some (Content.generation_jobs (App.content σ1) !! id) →
     is_Some (Content.generation_jobs (App.content σ2) !! id))
  ∧ (is_Some (Publishing.publishing_jobs (App.publishing σ1) !! id) →
     is_Some (Publishing.publishing_jobs (App.publishing σ2) !! id))
  ∧ (is_Some (Publishing.scheduled_posts (App.publishing σ1) !! id) →
     is_Some (Publishing.scheduled_posts (App.publishing σ2) !! id)).
Proof.
  intros H1 H2.
  destruct (inv_run _ _ _ _ inv_init H1) as (Hinv & _).
  destruct (inv_run _ _ _ _ Hinv H2) as (_ & Hvg & Hcg & _).
  split_and!.
  - intros [job Hjob]. destruct (Hvg _ _ Hjob) as (job' & -> & _). by eexists.
  - intros [job Hjob]. destruct (Hcg _ _ Hjob) as (job' & -> & _). by eexists.
  - apply (publishing_keeps_run es2 σ1 σ2 o2 Publishing.InPublishing id H2).
  - apply (publishing_keeps_run es2 σ1 σ2 o2 Publishing.InScheduled id H2).
Qed.

Lemma records_are_never_removed_witness :
  (is_Some (Voice.voice_jobs (App.voice (state_after busy_day)) !! "j1") →
   is_Some (Voice.voice_jobs (App.voice (state_after (busy_day ++ rest_of_day))) !! "j1"))
  ∧ (is_Some (Content.generation_jobs (App.content (state_after busy_day)) !! "j1") →
     is_Some (Content.generation_jobs
                (App.content (state_after (busy_day ++ rest_of_day))) !! "j1"))
  ∧ (is_Some (Publishing.publishing_jobs (App.publishing (state_after busy_day)) !! "j1") →
     is_Some (Publishing.publishing_jobs
                (App.publishing (state_after (busy_day ++ rest_of_day))) !! "j1"))
  ∧ (is_Some (Publishing.scheduled_posts (App.publishing (state_after busy_day)) !! "j1") →
     is_Some (Publishing.scheduled_posts
                (App.publishing (state_after (busy_day ++ rest_of_day))) !! "j1")).
Proof.
  destruct (runs_after busy_day rest_of_day) as (o1 & o2 & H1 & H2);
    [vm_compute; reflexivity|].
  exact (records_are_never_removed busy_day rest_of_day _ _ o1 o2 "j1" H1 H2).
Defined.
